(** * graph4nlp: GCN layers, the multi-layer GCN encoder and the graph2tree
      runner (vocabulary extension and bracket repair)

    Shallow embedding of
      - graph4nlp/pytorch/modules/graph_embedding/gcn.py
      - examples/pytorch/semantic_parsing/graph2tree/jobs/src/runner.py
      - examples/pytorch/semantic_parsing/graph2tree/src/runner_jobs.py
      - examples/pytorch/semantic_parsing/graph2seq/args.py

    Tensors are modelled over the real numbers (exact arithmetic): a feature
    tensor of shape (N, D) is a list of N rows of D reals, an edge-weight
    tensor is a list with one real per edge.  Python exceptions are values of
    [exn]; code that may raise returns a [result]. *)

From Stdlib Require Import Reals Lra Lia ZArith QArith List String.
From stdpp Require Import gmap strings list.

Local Open Scope string_scope.

(** ** Python exceptions and the error monad *)

(** What a RuntimeError reports: a configuration error of the layers, or
    that a dictionary changed its size while it was iterated over. *)
Inductive config_error : Type :=
| InvalidNorm (got : string)
| UnknownDirectionOption (got : string)
| ExternalWeightConflict
| DictChangedSize.

(** The exceptions of Python, torch and DGL that the code can raise.
    [NonFinite] is none of them: a float division by zero gives inf, and inf
    times zero gives nan, values that the real-number tensors of this
    development do not have.  An operation whose float result would be inf
    or nan ends in [Err NonFinite] instead. *)
Inductive exn : Type :=
| RuntimeError (why : config_error)
| AssertionError
| KeyError (key : string)
| IndexError
| TypeError
| AttributeError (name : string)
| DGLError
| NonFinite
| RecursionError.

Inductive result (A : Type) : Type :=
| Ok (a : A)
| Err (e : exn).
Arguments Ok {A} a.
Arguments Err {A} e.

Definition rbind {A B} (r : result A) (k : A -> result B) : result B :=
  match r with
  | Ok a => k a
  | Err e => Err e
  end.

Notation "'let*' x ':=' r 'in' k" := (rbind r (fun x => k))
  (at level 10, x pattern, r at level 100, k at level 200).

(** [f] on every element, in order, up to the first error. *)
Fixpoint rmapM {A B} (f : A -> result B) (l : list A) : result (list B) :=
  match l with
  | [] => Ok []
  | a :: rest =>
      let* b := f a in
      let* bs := rmapM f rest in
      Ok (b :: bs)
  end.

Definition raises {A} (r : result A) : Prop :=
  match r with
  | Ok _ => False
  | Err _ => True
  end.

Definition returns {A} (r : result A) : Prop :=
  match r with
  | Ok _ => True
  | Err _ => False
  end.

(** ** Tensors *)

Definition Vec : Type := list R.
Definition Tensor : Type := list Vec.

Module T.

Definition zeros (d : nat) : Vec := replicate d 0%R.

(** [x + y], [x - y], [x * y] on rows of equal width. *)
Definition add (x y : Vec) : Vec := zip_with Rplus x y.
Definition sub (x y : Vec) : Vec := zip_with Rminus x y.
Definition mul (x y : Vec) : Vec := zip_with Rmult x y.

(** [x * c] with a scalar [c] broadcast over the row. *)
Definition scale (x : Vec) (c : R) : Vec := map (fun a => (a * c)%R) x.

(** [1 - x] with the scalar broadcast over the row. *)
Definition one_minus (x : Vec) : Vec := map (fun a => (1 - a)%R) x.

(** Width (last dimension) of a 2-D tensor. *)
Definition width (t : Tensor) : nat :=
  match t with
  | [] => 0
  | r :: _ => length r
  end.

(** Row [i] of a tensor. *)
Definition row (t : Tensor) (i : nat) : Vec := nth i t [].

(** [torch.matmul] of one row [x] (width in) by [W] (in x out):
    the sum over k of [W[k] * x[k]]. *)
Fixpoint vecmat (x : Vec) (W : Tensor) (dout : nat) : Vec :=
  match x, W with
  | a :: x', r :: W' => add (scale r a) (vecmat x' W' dout)
  | _, _ => zeros dout
  end.

(** [torch.matmul(feat, weight)] for feat (N, in) and weight (in, out). *)
Definition matmul (feat W : Tensor) : Tensor :=
  map (fun x => vecmat x W (width W)) feat.

(** [feat * norm] after [norm] (shape (N)) is reshaped to (N, 1). *)
Definition scale_rows (feat : Tensor) (norm : list R) : Tensor :=
  zip_with scale feat norm.

(** [rst + bias], the bias row broadcast over the nodes. *)
Definition add_bias (rst : Tensor) (b : Vec) : Tensor :=
  map (fun x => add x b) rst.

(** Elementwise operations on two tensors of equal shape. *)
Definition tadd (a b : Tensor) : Tensor := zip_with add a b.
Definition tsub (a b : Tensor) : Tensor := zip_with sub a b.
Definition tmul (a b : Tensor) : Tensor := zip_with mul a b.

(** [torch.cat(ts, dim=-1)]: rows are concatenated. *)
Fixpoint cat_last (ts : list Tensor) : Tensor :=
  match ts with
  | [] => []
  | [t] => t
  | t :: rest => zip_with (fun x y => app x y) t (cat_last rest)
  end.

(** [torch.sigmoid], elementwise. *)
Definition sigmoid1 (x : R) : R := (1 / (1 + exp (- x)))%R.
Definition sigmoid (t : Tensor) : Tensor := map (map sigmoid1) t.

(** [t.flatten(1)] on a 2-D tensor leaves it as it is. *)
Definition flatten1 (t : Tensor) : Tensor := t.

(** Shape predicate: [t] has [n] rows of width [d]. *)
Definition shape (t : Tensor) (n d : nat) : Prop :=
  length t = n /\ Forall (fun r => length r = d) t.

End T.

(** ** The DGL graph: topology and message passing *)

Record DGLGraph : Type := {
  num_nodes : nat;
  edges : list (nat * nat)   (* (src, dst), in edge-id order *)
}.

Module G.

Definition src (e : nat * nat) : nat := fst e.
Definition dst (e : nat * nat) : nat := snd e.

(** Edge endpoints reference valid node indices. *)
Definition valid (g : DGLGraph) : Prop :=
  Forall (fun e => src e < num_nodes g /\ dst e < num_nodes g) (edges g).

Definition count_if (p : nat * nat -> bool) (es : list (nat * nat)) : nat :=
  length (filter (fun e => p e = true) es).

(** [graph.in_degrees()], [graph.out_degrees()]: one entry per node. *)
Definition in_degrees (g : DGLGraph) : list nat :=
  map (fun v => count_if (fun e => Nat.eqb (dst e) v) (edges g)) (seq 0 (num_nodes g)).
Definition out_degrees (g : DGLGraph) : list nat :=
  map (fun v => count_if (fun e => Nat.eqb (src e) v) (edges g)) (seq 0 (num_nodes g)).

(** [graph.reverse()]: edge i of the result is edge i reversed. *)
Definition reverse (g : DGLGraph) : DGLGraph :=
  {| num_nodes := num_nodes g;
     edges := map (fun e => (dst e, src e)) (edges g) |}.

(** Message functions: [fn.copy_src] sends the source row, [fn.u_mul_e]
    sends the source row times the edge's scalar ([w] holds one scalar for
    every edge once [set_edata] below has accepted it).  The result pairs
    every message with its destination node. *)
Definition copy_src (g : DGLGraph) (h : Tensor) : list (nat * Vec) :=
  map (fun e => (dst e, T.row h (src e))) (edges g).
Definition u_mul_e (g : DGLGraph) (h : Tensor) (w : list R) : list (nat * Vec) :=
  zip_with (fun e we => (dst e, T.scale (T.row h (src e)) we)) (edges g) w.

(** Reduce function [fn.sum]: the messages that arrive at [v] are added up;
    a node without incoming message gets zeros. *)
Fixpoint sum_at (d : nat) (v : nat) (msgs : list (nat * Vec)) : Vec :=
  match msgs with
  | [] => T.zeros d
  | (t, m) :: rest =>
      if Nat.eqb t v then T.add m (sum_at d v rest) else sum_at d v rest
  end.
Definition reduce_sum (g : DGLGraph) (d : nat) (msgs : list (nat * Vec)) : Tensor :=
  map (fun v => sum_at d v msgs) (seq 0 (num_nodes g)).

(** [graph.srcdata['h'] = h]: DGL refuses a node feature whose first
    dimension is not the number of nodes. *)
Definition set_srcdata (g : DGLGraph) (h : Tensor) : result unit :=
  if Nat.eqb (length h) (num_nodes g) then Ok tt else Err DGLError.

(** [graph.edata[..] = w]: DGL reads the shape of the value, which [None]
    does not have, and refuses an edge feature whose first dimension is not
    the number of edges. *)
Definition set_edata (g : DGLGraph) (w : option (list R)) : result (list R) :=
  match w with
  | None => Err (AttributeError "shape")
  | Some w =>
      if Nat.eqb (length w) (length (edges g)) then Ok w else Err DGLError
  end.

(** [graph.update_all(copy_src, sum); graph.dstdata['h']], after
    [graph.srcdata['h'] = h]. *)
Definition update_all_copy (g : DGLGraph) (h : Tensor) : Tensor :=
  reduce_sum g (T.width h) (copy_src g h).

(** [graph.edata[..] = w; graph.update_all(u_mul_e, sum);
    graph.dstdata['h']], after [graph.srcdata['h'] = h]. *)
Definition update_all_mul (g : DGLGraph) (h : Tensor) (w : option (list R))
  : result Tensor :=
  let* w := set_edata g w in
  Ok (reduce_sum g (T.width h) (u_mul_e g h w)).

End G.

(** ** Pieces shared by the three convolution classes *)

(** The [weight] argument of [forward]: absent, one tensor, or a tuple. *)
Inductive ext_weight : Type :=
| WNone
| WTensor (w : Tensor)
| WTuple (w_fw w_bw : option Tensor).

Definition of_param (p : option Tensor) : ext_weight :=
  match p with
  | Some w => WTensor w
  | None => WNone
  end.

(** [norm not in ('none', 'both', 'right')] *)
Definition norm_ok (norm : string) : bool :=
  String.eqb norm "none" || String.eqb norm "both" || String.eqb norm "right".

(** [degs.float().clamp(min=1)] *)
Definition clamp_min1 (degs : list nat) : list R :=
  map (fun d => Rmax (INR d) 1) degs.

(** [torch.pow(degs, -0.5)] and [1.0 / degs]: the float result is inf for
    the value 0 (and nan for a negative base of the power). *)
Definition pow_neg_half (degs : list R) : result (list R) :=
  rmapM (fun d => if Rlt_dec 0 d then Ok (Rpower d (- (1 / 2))) else Err NonFinite) degs.
Definition recip (degs : list R) : result (list R) :=
  rmapM (fun d => if Req_dec_T d 0 then Err NonFinite else Ok (1 / d)%R) degs.

(** The [norm] tensor applied to the source features when [_norm == 'both']
    and the one applied to the aggregated result when [_norm != 'none']. *)
Definition src_norm (graph : DGLGraph) : result (list R) :=
  pow_neg_half (clamp_min1 (G.out_degrees graph)).
Definition dst_norm (norm : string) (graph : DGLGraph) : result (list R) :=
  let degs := clamp_min1 (G.in_degrees graph) in
  if String.eqb norm "both" then pow_neg_half degs else recip degs.

Definition normalize_src (norm : string) (graph : DGLGraph) (feat : Tensor)
  : result Tensor :=
  if String.eqb norm "both" then
    let* norm := src_norm graph in
    Ok (T.scale_rows feat norm)
  else Ok feat.
Definition normalize_dst (norm : string) (graph : DGLGraph) (rst : Tensor)
  : result Tensor :=
  if negb (String.eqb norm "none") then
    let* norm := dst_norm norm graph in
    Ok (T.scale_rows rst norm)
  else Ok rst.

(** [if weight is not None: if self.weight is not None: raise ...
     else: weight = self.weight] *)
Definition pick_weight (weight : ext_weight) (own : option Tensor) : result ext_weight :=
  match weight with
  | WNone => Ok (of_param own)
  | _ =>
      match own with
      | Some _ => Err (RuntimeError ExternalWeightConflict)
      | None => Ok weight
      end
  end.

(** [if weight is not None: x = torch.matmul(x, weight)] *)
Definition apply_weight (x : Tensor) (weight : ext_weight) : result Tensor :=
  match weight with
  | WNone => Ok x
  | WTensor w => Ok (T.matmul x w)
  | WTuple _ _ => Err TypeError
  end.

(** [graph.srcdata['h'] = h
     if tested is None: update_all(copy_src, sum)
     else: graph.edata[..] = stored; update_all(u_mul_e, sum)
     graph.dstdata['h']] *)
Definition message_passing (graph : DGLGraph) (h : Tensor)
    (tested stored : option (list R)) : result Tensor :=
  let* _ := G.set_srcdata graph h in
  match tested with
  | None => Ok (G.update_all_copy graph h)
  | Some _ => G.update_all_mul graph h stored
  end.

Definition apply_bias (rst : Tensor) (bias : option Vec) : Tensor :=
  match bias with
  | Some b => T.add_bias rst b
  | None => rst
  end.

Definition apply_activation (rst : Tensor) (act : option (Tensor -> Tensor)) : Tensor :=
  match act with
  | Some f => f rst
  | None => rst
  end.

(** The two orders of the weight multiplication and the aggregation. *)
Definition mult_then_aggregate (graph : DGLGraph) (feat : Tensor) (weight : ext_weight)
    (tested stored : option (list R)) : result Tensor :=
  let* feat := apply_weight feat weight in
  message_passing graph feat tested stored.

Definition aggregate_then_mult (graph : DGLGraph) (feat : Tensor) (weight : ext_weight)
    (tested stored : option (list R)) : result Tensor :=
  let* rst := message_passing graph feat tested stored in
  apply_weight rst weight.

(** ** UndirectedGCNLayerConv *)

Module UndirectedGCNLayerConv.

Record t : Type := {
  _in_feats : nat;
  _out_feats : nat;
  _norm : string;
  _allow_zero_in_degree : bool;
  weight : option Tensor;
  bias : option Vec;
  _activation : option (Tensor -> Tensor)
}.

(** [xavier] is the tensor [init.xavier_uniform_] leaves in the weight. *)
Definition __init__ (in_feats out_feats : nat) (norm : string) (weight bias : bool)
    (activation : option (Tensor -> Tensor)) (allow_zero_in_degree : bool)
    (xavier : Tensor) : result t :=
  if negb (norm_ok norm) then Err (RuntimeError (InvalidNorm norm))
  else Ok {| _in_feats := in_feats;
             _out_feats := out_feats;
             _norm := norm;
             _allow_zero_in_degree := allow_zero_in_degree;
             weight := if weight then Some xavier else None;
             bias := if bias then Some (T.zeros out_feats) else None;
             _activation := activation |}.

Definition forward (self : t) (graph : DGLGraph) (feat : Tensor) (weight : ext_weight)
    (edge_weight reverse_edge_weight : option (list R)) : result Tensor :=
  let* _ := match reverse_edge_weight with
            | None => Ok tt
            | Some _ => Err AssertionError
            end in
  let* feat := normalize_src (_norm self) graph feat in
  let* weight := pick_weight weight (UndirectedGCNLayerConv.weight self) in
  let* rst :=
    if Nat.ltb (_out_feats self) (_in_feats self)
    then mult_then_aggregate graph feat weight edge_weight edge_weight
    else aggregate_then_mult graph feat weight edge_weight edge_weight in
  let* rst := normalize_dst (_norm self) graph rst in
  let rst := apply_bias rst (bias self) in
  let rst := apply_activation rst (_activation self) in
  Ok rst.

End UndirectedGCNLayerConv.

(** [isinstance(weight, tuple)]: a tuple is split, anything else is used for
    both directions. *)
Definition split_weight (weight : ext_weight) : ext_weight * ext_weight :=
  match weight with
  | WTuple w_fw w_bw => (of_param w_fw, of_param w_bw)
  | _ => (weight, weight)
  end.

(** ** BiSepGCNLayerConv *)

Module BiSepGCNLayerConv.

Record t : Type := {
  _in_feats : nat;
  _out_feats : nat;
  _norm : string;
  _allow_zero_in_degree : bool;
  weight_fw : option Tensor;
  weight_bw : option Tensor;
  bias_fw : option Vec;
  bias_bw : option Vec;
  _activation : option (Tensor -> Tensor)
}.

Definition __init__ (in_feats out_feats : nat) (norm : string) (weight bias : bool)
    (activation : option (Tensor -> Tensor)) (allow_zero_in_degree : bool)
    (xavier_fw xavier_bw : Tensor) : result t :=
  if negb (norm_ok norm) then Err (RuntimeError (InvalidNorm norm))
  else Ok {| _in_feats := in_feats;
             _out_feats := out_feats;
             _norm := norm;
             _allow_zero_in_degree := allow_zero_in_degree;
             weight_fw := if weight then Some xavier_fw else None;
             weight_bw := if weight then Some xavier_bw else None;
             bias_fw := if bias then Some (T.zeros out_feats) else None;
             bias_bw := if bias then Some (T.zeros out_feats) else None;
             _activation := activation |}.

(** The block under [# forward direction]. *)
Definition forward_direction (self : t) (graph : DGLGraph) (feat_fw : Tensor)
    (weight_fw : ext_weight) (edge_weight : option (list R)) : result Tensor :=
  let* feat_fw := normalize_src (_norm self) graph feat_fw in
  let* weight_fw := pick_weight weight_fw (BiSepGCNLayerConv.weight_fw self) in
  let* rst_fw :=
    if Nat.ltb (_out_feats self) (_in_feats self)
    then
      let* feat_fw := apply_weight feat_fw weight_fw in
      message_passing graph feat_fw edge_weight edge_weight
    else
      let* rst_fw := message_passing graph feat_fw edge_weight edge_weight in
      apply_weight rst_fw weight_fw in
  let* rst_fw := normalize_dst (_norm self) graph rst_fw in
  let rst_fw := apply_bias rst_fw (bias_fw self) in
  Ok (apply_activation rst_fw (_activation self)).

(** The block under [# backward direction]; [graph] is already reversed.
    In the aggregate-first branch the source tests
    [reverse_edge_weight is None] and then stores [edge_weight] under
    the key ['reverse_edge_weight']. *)
Definition backward_direction (self : t) (graph : DGLGraph) (feat_bw : Tensor)
    (weight_bw : ext_weight) (edge_weight reverse_edge_weight : option (list R))
  : result Tensor :=
  let* feat_bw := normalize_src (_norm self) graph feat_bw in
  let* weight_bw := pick_weight weight_bw (BiSepGCNLayerConv.weight_bw self) in
  let* rst_bw :=
    if Nat.ltb (_out_feats self) (_in_feats self)
    then
      let* feat_bw := apply_weight feat_bw weight_bw in
      message_passing graph feat_bw reverse_edge_weight reverse_edge_weight
    else
      let* rst_bw := message_passing graph feat_bw reverse_edge_weight edge_weight in
      apply_weight rst_bw weight_bw in
  let* rst_bw := normalize_dst (_norm self) graph rst_bw in
  let rst_bw := apply_bias rst_bw (bias_bw self) in
  Ok (apply_activation rst_bw (_activation self)).

Definition forward (self : t) (graph : DGLGraph) (feat : Tensor * Tensor)
    (weight : ext_weight) (edge_weight reverse_edge_weight : option (list R))
  : result (Tensor * Tensor) :=
  let '(feat_fw, feat_bw) := feat in
  let '(weight_fw, weight_bw) := split_weight weight in
  let* rst_fw := forward_direction self graph feat_fw weight_fw edge_weight in
  let graph := G.reverse graph in
  let* rst_bw :=
    backward_direction self graph feat_bw weight_bw edge_weight reverse_edge_weight in
  Ok (rst_fw, rst_bw).

End BiSepGCNLayerConv.

(** ** BiFuseGCNLayerConv *)

(** [nn.Linear(in, out, bias=True)]: [weight] has shape (out, in). *)
Record Linear : Type := {
  lin_weight : Tensor;
  lin_bias : Vec
}.

Definition dot (x y : Vec) : R := fold_right Rplus 0%R (zip_with Rmult x y).

Definition linear (l : Linear) (x : Tensor) : Tensor :=
  map (fun r => T.add (map (dot r) (lin_weight l)) (lin_bias l)) x.

Module BiFuseGCNLayerConv.

Record t : Type := {
  _in_feats : nat;
  _out_feats : nat;
  _norm : string;
  _allow_zero_in_degree : bool;
  weight_fw : option Tensor;
  weight_bw : option Tensor;
  bias_fw : option Vec;
  bias_bw : option Vec;
  _activation : option (Tensor -> Tensor);
  fuse_linear : Linear
}.

Definition __init__ (in_feats out_feats : nat) (norm : string) (weight bias : bool)
    (activation : option (Tensor -> Tensor)) (allow_zero_in_degree : bool)
    (xavier_fw xavier_bw : Tensor) (fuse_init : Linear) : result t :=
  if negb (norm_ok norm) then Err (RuntimeError (InvalidNorm norm))
  else Ok {| _in_feats := in_feats;
             _out_feats := out_feats;
             _norm := norm;
             _allow_zero_in_degree := allow_zero_in_degree;
             weight_fw := if weight then Some xavier_fw else None;
             weight_bw := if weight then Some xavier_bw else None;
             bias_fw := if bias then Some (T.zeros out_feats) else None;
             bias_bw := if bias then Some (T.zeros out_feats) else None;
             _activation := activation;
             fuse_linear := fuse_init |}.

Definition forward_direction (self : t) (graph : DGLGraph) (feat_fw : Tensor)
    (weight_fw : ext_weight) (edge_weight : option (list R)) : result Tensor :=
  let* feat_fw := normalize_src (_norm self) graph feat_fw in
  let* weight_fw := pick_weight weight_fw (BiFuseGCNLayerConv.weight_fw self) in
  let* rst_fw :=
    if Nat.ltb (_out_feats self) (_in_feats self)
    then
      let* feat_fw := apply_weight feat_fw weight_fw in
      message_passing graph feat_fw edge_weight edge_weight
    else
      let* rst_fw := message_passing graph feat_fw edge_weight edge_weight in
      apply_weight rst_fw weight_fw in
  let* rst_fw := normalize_dst (_norm self) graph rst_fw in
  let rst_fw := apply_bias rst_fw (bias_fw self) in
  Ok (apply_activation rst_fw (_activation self)).

(** The block under [# backward direction]; [graph] is already reversed.
    In the aggregate-first branch the source tests [edge_weight is None]
    and then stores [reverse_edge_weight]. *)
Definition backward_direction (self : t) (graph : DGLGraph) (feat_bw : Tensor)
    (weight_bw : ext_weight) (edge_weight reverse_edge_weight : option (list R))
  : result Tensor :=
  let* feat_bw := normalize_src (_norm self) graph feat_bw in
  let* weight_bw := pick_weight weight_bw (BiFuseGCNLayerConv.weight_bw self) in
  let* rst_bw :=
    if Nat.ltb (_out_feats self) (_in_feats self)
    then
      let* feat_bw := apply_weight feat_bw weight_bw in
      message_passing graph feat_bw reverse_edge_weight reverse_edge_weight
    else
      let* rst_bw := message_passing graph feat_bw edge_weight reverse_edge_weight in
      apply_weight rst_bw weight_bw in
  let* rst_bw := normalize_dst (_norm self) graph rst_bw in
  let rst_bw := apply_bias rst_bw (bias_bw self) in
  Ok (apply_activation rst_bw (_activation self)).

(** [fuse_vector], [fuse_gate_vector] and the gated sum. *)
Definition fuse_gate (l : Linear) (rst_fw rst_bw : Tensor) : Tensor :=
  let fuse_vector :=
    T.cat_last [rst_fw; rst_bw; T.tmul rst_fw rst_bw; T.tsub rst_fw rst_bw] in
  T.sigmoid (linear l fuse_vector).

Definition fuse (l : Linear) (rst_fw rst_bw : Tensor) : Tensor :=
  let fuse_gate_vector := fuse_gate l rst_fw rst_bw in
  T.tadd (T.tmul fuse_gate_vector rst_fw)
         (T.tmul (map T.one_minus fuse_gate_vector) rst_bw).

Definition forward (self : t) (graph : DGLGraph) (feat : Tensor)
    (weight : ext_weight) (edge_weight reverse_edge_weight : option (list R))
  : result Tensor :=
  let feat_fw := feat in
  let feat_bw := feat in
  let '(weight_fw, weight_bw) := split_weight weight in
  let* rst_fw := forward_direction self graph feat_fw weight_fw edge_weight in
  let graph := G.reverse graph in
  let* rst_bw :=
    backward_direction self graph feat_bw weight_bw edge_weight reverse_edge_weight in
  Ok (fuse (fuse_linear self) rst_fw rst_bw).

End BiFuseGCNLayerConv.

(** ** GCNLayer: dispatch on the direction option *)

(** Node features handed from layer to layer: one tensor, or the
    forward/backward pair of the bi_sep mode. *)
Inductive Feat : Type :=
| FTensor (h : Tensor)
| FPair (h_fw h_bw : Tensor).

(** Initial values of the parameters a layer registers. *)
Record layer_init : Type := {
  xavier_fw : Tensor;
  xavier_bw : Tensor;
  fuse_init : Linear
}.

Module GCNLayer.

Inductive t : Type :=
| Undirected (model : UndirectedGCNLayerConv.t)
| BiSep (model : BiSepGCNLayerConv.t)
| BiFuse (model : BiFuseGCNLayerConv.t).

Definition __init__ (in_feats out_feats : nat) (direction_option norm : string)
    (weight bias : bool) (activation : option (Tensor -> Tensor))
    (allow_zero_in_degree : bool) (init : layer_init) : result t :=
  if String.eqb direction_option "undirected" then
    let* model := UndirectedGCNLayerConv.__init__ in_feats out_feats norm weight bias
                    activation allow_zero_in_degree (xavier_fw init) in
    Ok (Undirected model)
  else if String.eqb direction_option "bi_sep" then
    let* model := BiSepGCNLayerConv.__init__ in_feats out_feats norm weight bias
                    activation allow_zero_in_degree (xavier_fw init) (xavier_bw init) in
    Ok (BiSep model)
  else if String.eqb direction_option "bi_fuse" then
    let* model := BiFuseGCNLayerConv.__init__ in_feats out_feats norm weight bias
                    activation allow_zero_in_degree (xavier_fw init) (xavier_bw init)
                    (fuse_init init) in
    Ok (BiFuse model)
  else Err (RuntimeError (UnknownDirectionOption direction_option)).

(** [self.model(graph, feat, weight, edge_weight, reverse_edge_weight)];
    features of the wrong kind for the model (a pair for a single-tensor
    model, a single tensor for bi_sep) are modelled as a [TypeError]. *)
Definition forward (self : t) (graph : DGLGraph) (feat : Feat) (weight : ext_weight)
    (edge_weight reverse_edge_weight : option (list R)) : result Feat :=
  match self, feat with
  | Undirected model, FTensor h =>
      let* rst := UndirectedGCNLayerConv.forward model graph h weight
                    edge_weight reverse_edge_weight in
      Ok (FTensor rst)
  | BiSep model, FPair h_fw h_bw =>
      let* rst := BiSepGCNLayerConv.forward model graph (h_fw, h_bw) weight
                    edge_weight reverse_edge_weight in
      Ok (FPair (fst rst) (snd rst))
  | BiFuse model, FTensor h =>
      let* rst := BiFuseGCNLayerConv.forward model graph h weight
                    edge_weight reverse_edge_weight in
      Ok (FTensor rst)
  | _, _ => Err TypeError
  end.

End GCNLayer.

(** ** GraphData and the multi-layer GCN *)

(** Modelled from the spec: the graph data container (GraphData, in
    graph4nlp/pytorch/data/data.py) holds the topology and named node and
    edge feature slots, and converts to the backend graph.  The spec does
    not say what reading a slot that was never set gives: the slots are
    modelled as dicts, whose read of a missing key raises, and the theorems
    on [GCN.forward] below compare runs or assume that the run returns. *)
Record GraphData : Type := {
  topology : DGLGraph;
  node_features : gmap string Tensor;
  edge_features : gmap string (list R)
}.

Definition to_dgl (graph : GraphData) : DGLGraph := topology graph.

(** [d[key]] on a dict *)
Definition getitem {V} (d : gmap string V) (key : string) : result V :=
  match d !! key with
  | Some v => Ok v
  | None => Err (KeyError key)
  end.

(** [l[i]] on a list, for [i >= 0], and [l[-1]] *)
Definition list_getitem {A} (l : list A) (i : nat) : result A :=
  match l !! i with
  | Some a => Ok a
  | None => Err IndexError
  end.
Definition list_last {A} (l : list A) : result A :=
  match last l with
  | Some a => Ok a
  | None => Err IndexError
  end.

Module GCN.

Record t : Type := {
  num_layers : nat;
  direction_option : string;
  gcn_layers : list GCNLayer.t;
  use_edge_weight : bool
}.

(** [hidden_size]: an int or a list of ints. *)
Definition hidden_sizes (num_layers : nat) (hidden_size : nat + list nat) : list nat :=
  match hidden_size with
  | inl n => replicate (num_layers - 1) n
  | inr l => l
  end.

(** The hidden layers, [for l in range(1, num_layers - 1)]. *)
Fixpoint hidden_layers (ls : list nat) (hidden_size : list nat)
    (direction_option norm : string) (weight bias : bool)
    (activation : option (Tensor -> Tensor)) (allow_zero_in_degree : bool)
    (init : nat -> layer_init) : result (list GCNLayer.t) :=
  match ls with
  | [] => Ok []
  | l :: rest =>
      let* i := list_getitem hidden_size (l - 1) in
      let* o := list_getitem hidden_size l in
      let* layer := GCNLayer.__init__ i o direction_option norm weight bias
                      activation allow_zero_in_degree (init l) in
      let* layers := hidden_layers rest hidden_size direction_option norm weight bias
                       activation allow_zero_in_degree init in
      Ok (layer :: layers)
  end.

Definition __init__ (num_layers in_feats : nat) (hidden_size : nat + list nat)
    (out_feats : nat) (direction_option norm : string) (weight bias : bool)
    (activation : option (Tensor -> Tensor)) (allow_zero_in_degree use_edge_weight : bool)
    (init : nat -> layer_init) : result t :=
  if negb (Nat.ltb 0 num_layers) then Err AssertionError else
  let hidden_size := hidden_sizes num_layers hidden_size in
  let* input :=
    if Nat.ltb 1 num_layers then
      let* h0 := list_getitem hidden_size 0 in
      let* layer := GCNLayer.__init__ in_feats h0 direction_option norm weight bias
                      activation allow_zero_in_degree (init 0) in
      Ok [layer]
    else Ok [] in
  let* hidden := hidden_layers (seq 1 (num_layers - 1 - 1)) hidden_size direction_option
                   norm weight bias activation allow_zero_in_degree init in
  let* last_in := if Nat.ltb 1 num_layers then list_last hidden_size else Ok in_feats in
  let* output := GCNLayer.__init__ last_in out_feats direction_option norm weight bias
                   activation allow_zero_in_degree (init (num_layers - 1)) in
  Ok {| num_layers := num_layers;
        direction_option := direction_option;
        gcn_layers := input ++ hidden ++ [output];
        use_edge_weight := use_edge_weight |}.

(** [h.flatten(1)], on each stream in bi_sep mode. *)
Definition flatten (direction_option : string) (h : Feat) : result Feat :=
  if String.eqb direction_option "bi_sep" then
    match h with
    | FPair a b => Ok (FPair (T.flatten1 a) (T.flatten1 b))
    | FTensor _ => Err TypeError
    end
  else
    match h with
    | FTensor a => Ok (FTensor (T.flatten1 a))
    | FPair _ _ => Err TypeError
    end.

(** [for l in range(self.num_layers - 1)]: the layers that receive the
    edge weights. *)
Fixpoint loop (self : t) (dgl_graph : DGLGraph) (ls : list nat) (h : Feat)
    (edge_weight reverse_edge_weight : option (list R)) : result Feat :=
  match ls with
  | [] => Ok h
  | l :: rest =>
      let* layer := list_getitem (gcn_layers self) l in
      let* h := GCNLayer.forward layer dgl_graph h WNone edge_weight reverse_edge_weight in
      let* h := flatten (direction_option self) h in
      loop self dgl_graph rest h edge_weight reverse_edge_weight
  end.

(** The edge weights read from the graph. *)
Definition read_edge_weights (self : t) (graph : GraphData)
  : result (option (list R) * option (list R)) :=
  if use_edge_weight self then
    let* edge_weight := getitem (edge_features graph) "edge_weight" in
    if negb (String.eqb (direction_option self) "undirected") then
      let* reverse_edge_weight := getitem (edge_features graph) "reverse_edge_weight" in
      Ok (Some edge_weight, Some reverse_edge_weight)
    else Ok (Some edge_weight, None)
  else Ok (None, None).

Definition forward (self : t) (graph : GraphData) : result GraphData :=
  let* feat := getitem (node_features graph) "node_feat" in
  let dgl_graph := to_dgl graph in
  let h := if String.eqb (direction_option self) "bi_sep"
           then FPair feat feat else FTensor feat in
  let* ew := read_edge_weights self graph in
  let '(edge_weight, reverse_edge_weight) := ew in
  let* h := loop self dgl_graph (seq 0 (num_layers self - 1)) h
              edge_weight reverse_edge_weight in
  let* layer := list_last (gcn_layers self) in
  let* logits := GCNLayer.forward layer dgl_graph h WNone None None in
  let* logits :=
    if String.eqb (direction_option self) "bi_sep" then
      match logits with
      | FPair a b => Ok (T.cat_last [a; b])
      | FTensor _ => Err TypeError
      end
    else
      match logits with
      | FTensor a => Ok a
      | FPair _ _ => Err TypeError
      end in
  Ok {| topology := topology graph;
        node_features := <["node_emb" := logits]> (node_features graph);
        edge_features := edge_features graph |}.

End GCN.

(** ** The vocabulary objects of the graph2tree runner *)

(** Vocabularies are mutable Python objects that hold two dictionaries, which
    are objects of their own.  The store maps references to objects. *)
Abbreviation loc := nat.

Inductive obj : Type :=
| ODictStrInt (d : gmap string Z)
| ODictIntStr (d : gmap Z string)
| OVocab (symbol2idx idx2symbol : loc) (vocab_size : Z) (unk_token : string).

Abbreviation store := (gmap loc obj).

(** State and exception monad of the runner. *)
Definition M (A : Type) : Type := store -> result (A * store).

Definition mret {A} (a : A) : M A := fun s => Ok (a, s).
Definition mraise {A} (e : exn) : M A := fun _ => Err e.
Definition mbind' {A B} (m : M A) (k : A -> M B) : M B :=
  fun s => match m s with
           | Ok (a, s') => k a s'
           | Err e => Err e
           end.

Notation "'do*' x ':=' m 'in' k" := (mbind' m (fun x => k))
  (at level 10, x pattern, m at level 100, k at level 200).

Module Vocab.

Definition read_vocab (v : loc) : M (loc * loc * Z * string) :=
  fun s => match s !! v with
           | Some (OVocab a b n unk) => Ok ((a, b, n, unk), s)
           | _ => Err TypeError
           end.
Definition read_symbol2idx (a : loc) : M (gmap string Z) :=
  fun s => match s !! a with
           | Some (ODictStrInt d) => Ok (d, s)
           | _ => Err TypeError
           end.
Definition read_idx2symbol (b : loc) : M (gmap Z string) :=
  fun s => match s !! b with
           | Some (ODictIntStr d) => Ok (d, s)
           | _ => Err TypeError
           end.
Definition write (l : loc) (o : obj) : M unit :=
  fun s => Ok (tt, <[l := o]> s).
Definition alloc (o : obj) : M loc :=
  fun s => let l := fresh (dom s) in Ok (l, <[l := o]> s).
Definition lookup_key (d : gmap string Z) (key : string) : M Z :=
  match d !! key with
  | Some i => mret i
  | None => mraise (KeyError key)
  end.

(** Modelled from the spec: [symbol_to_index(token)] of the vocabulary class
    (Vocab, in graph4nlp/pytorch/modules/utils/tree_utils.py) returns the
    token's index, and the unknown-token index if the token is absent. *)
Definition get_symbol_idx (self : loc) (s : string) : M Z :=
  do* (a, _, _, unk) := read_vocab self in
  do* d := read_symbol2idx a in
  match d !! s with
  | Some i => mret i
  | None => lookup_key d unk
  end.

(** Modelled from the spec: [add_symbol(token)] of the vocabulary class
    appends a new entry, assigning the next integer index; if the token is
    already present it returns its existing index and changes nothing.
    The two dictionaries of [self] are updated in place. *)
Definition add_symbol (self : loc) (s : string) : M Z :=
  do* (a, b, n, unk) := read_vocab self in
  do* d := read_symbol2idx a in
  do* r := read_idx2symbol b in
  match d !! s with
  | Some i => mret i
  | None =>
      do* _ := write a (ODictStrInt (<[s := n]> d)) in
      do* _ := write b (ODictIntStr (<[n := s]> r)) in
      do* _ := write self (OVocab a b (n + 1) unk) in
      mret n
  end.

(** Modelled from the spec: the OOV vocabulary is a deep copy of the base
    vocabulary.  [copy.deepcopy] of a vocabulary copies the object and the
    two dictionaries it holds into fresh objects. *)
Definition deepcopy (v : loc) : M loc :=
  do* (a, b, n, unk) := read_vocab v in
  do* d := read_symbol2idx a in
  do* r := read_idx2symbol b in
  do* a' := alloc (ODictStrInt d) in
  do* b' := alloc (ODictIntStr r) in
  alloc (OVocab a' b' n unk).

(** What a vocabulary maps: its two dictionaries, read through the store. *)
Definition symbol2idx (s : store) (v : loc) : option (gmap string Z) :=
  match s !! v with
  | Some (OVocab a _ _ _) =>
      match s !! a with
      | Some (ODictStrInt d) => Some d
      | _ => None
      end
  | _ => None
  end.
Definition idx2symbol (s : store) (v : loc) : option (gmap Z string) :=
  match s !! v with
  | Some (OVocab _ b _ _) =>
      match s !! b with
      | Some (ODictIntStr d) => Some d
      | _ => None
      end
  | _ => None
  end.

(** A well-formed vocabulary object: both dictionaries exist and the
    unknown token has an index. *)
Definition valid (s : store) (v : loc) : Prop :=
  exists a b n unk d r,
    s !! v = Some (OVocab a b n unk) /\
    s !! a = Some (ODictStrInt d) /\
    s !! b = Some (ODictIntStr r) /\
    is_Some (d !! unk).

End Vocab.

(** ** The runner: Jobs.prepare_ext_vocab and the repair step of Jobs.eval *)

(** One entry of [batch_graph.node_attributes]: [n["token"]], [n.get("type")]. *)
Record node_attr : Type := {
  token : string;
  type : option Z
}.

Record BatchGraph : Type := {
  node_attributes : list node_attr;
  token_id_oov : option (list Z)   (* node_features["token_id_oov"] *)
}.

(** [torch.utils.data.DataLoader], as the runner constructs it:
    [DataLoader(dataset.test, batch_size=1, shuffle=False, num_workers=..,
    collate_fn=dataset.collate_fn)]. *)
Record DataLoader : Type := {
  batch_size : nat;
  shuffle : bool;
  num_workers : nat
}.

Module Jobs.

(** The body of [for n in batch_graph.node_attributes]. *)
Definition visit_node (oov_dict : loc) (n : node_attr) : M Z :=
  let node_token := token n in
  do* is_oov :=
    match type n with
    | Some (Zpos _) | Some (Zneg _) => mret false
    | _ =>
        do* i := Vocab.get_symbol_idx oov_dict node_token in
        do* (_, _, _, unk) := Vocab.read_vocab oov_dict in
        do* u := Vocab.get_symbol_idx oov_dict unk in
        mret (Z.eqb i u)
    end in
  do* _ := if is_oov : bool
           then do* _ := Vocab.add_symbol oov_dict node_token in mret tt
           else mret tt in
  Vocab.get_symbol_idx oov_dict node_token.

Fixpoint visit_nodes (oov_dict : loc) (ns : list node_attr) : M (list Z) :=
  match ns with
  | [] => mret []
  | n :: rest =>
      do* i := visit_node oov_dict n in
      do* token_matrix := visit_nodes oov_dict rest in
      mret (i :: token_matrix)
  end.

Definition prepare_ext_vocab (batch_graph : BatchGraph) (src_vocab : loc)
  : M (loc * BatchGraph) :=
  do* oov_dict := Vocab.deepcopy src_vocab in
  do* token_matrix := visit_nodes oov_dict (node_attributes batch_graph) in
  mret (oov_dict,
        {| node_attributes := node_attributes batch_graph;
           token_id_oov := Some token_matrix |}).


(** [d[k]] on the index-to-symbol dictionary. *)
Definition symbol_at (idx2symbol : gmap Z string) (c : Z) : result string :=
  match idx2symbol !! c with
  | Some s => Ok s
  | None => Err (KeyError "idx2symbol")
  end.

(** [sum(1 for c in candidate if idx2symbol[int(c)] == sym)] *)
Fixpoint count_symbol (idx2symbol : gmap Z string) (sym : string) (candidate : list Z)
  : result Z :=
  match candidate with
  | [] => Ok 0%Z
  | c :: rest =>
      let* s := symbol_at idx2symbol c in
      let* k := count_symbol idx2symbol sym rest in
      Ok (if String.eqb s sym then (1 + k)%Z else k)
  end.

(** [l[:k]] *)
Definition slice_to {A} (l : list A) (k : Z) : list A :=
  let len := Z.of_nat (length l) in
  let stop := if (k <? 0)%Z then Z.max 0 (len + k) else Z.min k len in
  take (Z.to_nat stop) l.

(** The repair of the decoded candidate in [eval]; [idx2symbol] is
    [eval_vocab.idx2symbol] and [tgt_symbol2idx] is what the expression
    [self.test_data_loader.tgt_vocab.symbol2idx] evaluates to. *)
Definition repair_with (tgt_symbol2idx : result (gmap string Z))
    (idx2symbol : gmap Z string) (candidate : list Z) : result (list Z) :=
  let* num_left_paren := count_symbol idx2symbol "(" candidate in
  let* num_right_paren := count_symbol idx2symbol ")" candidate in
  let diff := (num_left_paren - num_right_paren)%Z in
  if (0 <? diff)%Z then
    let* symbol2idx := tgt_symbol2idx in
    let* close := getitem symbol2idx ")" in
    Ok (candidate ++ replicate (Z.to_nat diff) close)%list
  else if (diff <? 0)%Z then Ok (slice_to candidate diff)
  else Ok candidate.

(** [self.test_data_loader.tgt_vocab]: [self.test_data_loader] is the
    [DataLoader] built in [_build_dataloader]; the target vocabulary is
    stored in [self.tgt_vocab], the loader has no attribute of that name. *)
Definition loader_tgt_vocab (test_data_loader : DataLoader)
  : result (gmap string Z) :=
  Err (AttributeError "tgt_vocab").

Definition repair (test_data_loader : DataLoader) (idx2symbol : gmap Z string)
    (candidate : list Z) : result (list Z) :=
  repair_with (loader_tgt_vocab test_data_loader) idx2symbol candidate.

End Jobs.

(** ** The training loops of the two runners *)

(** The model is one mutable object, [self.model]; the store maps its
    reference to its current parameters.  What the optimisation step on one
    batch does to the parameters and which loss it reports, and what
    accuracy the evaluation measures (it updates no parameter), depend on
    the network and the data and are taken as given. *)
Module Training.

Inductive train_exn : Type :=
| ZeroDivisionError
| NoneAttributeError (name : string)   (* attribute access on [None] *)
| Raised (e : exn).                    (* raised by the model or the evaluation *)

Inductive outcome (A : Type) : Type :=
| Done (a : A)
| Raise (e : train_exn).
Arguments Done {A} a.
Arguments Raise {A} e.

Definition obind {A B} (o : outcome A) (k : A -> outcome B) : outcome B :=
match o with
| Done a => k a
| Raise e => Raise e
end.

Definition lift {A} (r : result A) : outcome A :=
match r with
| Ok a => Done a
| Err e => Raise (Raised e)
end.

Notation "'let+' x ':=' o 'in' k" := (obind o (fun x => k))
(at level 10, x pattern, o at level 100, k at level 200).

Section Loop.

Variables Model Batch : Type.
Variable train_batch : Batch -> Model -> result (Model * Q).
Variable eval : Model -> result Q.

(** The loop of [train_epoch] over the batches of the training loader. *)
Fixpoint train_batches (batches : list Batch) (loss_to_print : Q) (m : Model)
  : outcome (Model * Q) :=
  match batches with
  | [] => Done (m, loss_to_print)
  | data :: rest =>
      let+ r := lift (train_batch data m) in
      train_batches rest (loss_to_print + snd r)%Q (fst r)
  end.

(** [train_epoch]: the batches are run, then the mean loss
    [loss_to_print / num_batch] is computed. *)
Definition train_epoch (train_data_loader : list Batch) (m : Model)
  : outcome (Model * Q) :=
  let num_batch := length train_data_loader in
  let+ r := train_batches train_data_loader 0%Q m in
  if Nat.eqb num_batch 0 then Raise ZeroDivisionError
  else Done (fst r, (snd r / inject_Z (Z.of_nat num_batch))%Q).

(** [self.model.train(); self.train_epoch(epoch)] on the model object. *)
Definition run_epoch (train_data_loader : list Batch) (self_model : nat)
    (s : gmap nat Model) : outcome (gmap nat Model) :=
  match s !! self_model with
  | Some m =>
      let+ r := train_epoch train_data_loader m in
      Done (<[self_model := fst r]> s)
  | None => Raise (NoneAttributeError "train")
  end.

(** [self.eval(self.model)] *)
Definition run_eval (self_model : nat) (s : gmap nat Model) : outcome Q :=
  match s !! self_model with
  | Some m => lift (eval m)
  | None => Raise (NoneAttributeError "eval")
  end.

(** [best_model.save_checkpoint(out_dir, checkpoint_name)]: the
    parameters written are those the referenced object holds now. *)
Definition save_checkpoint (best_model : option nat) (s : gmap nat Model)
  : outcome Model :=
  match best_model with
  | None => Raise (NoneAttributeError "save_checkpoint")
  | Some r =>
      match s !! r with
      | Some m => Done m
      | None => Raise (NoneAttributeError "save_checkpoint")
      end
  end.

(** runner.py, [Jobs.train]: the loop
    [for epoch in range(1, max_epochs + 1)], from [epochs] on. *)
Fixpoint train_loop (train_data_loader : list Batch) (self_model : nat)
    (epochs : list nat) (best_acc : Q) (best_model : option nat)
    (s : gmap nat Model) : outcome (Q * option nat * gmap nat Model) :=
  match epochs with
  | [] => Done (best_acc, best_model, s)
  | epoch :: rest =>
      let+ s := run_epoch train_data_loader self_model s in
      let+ best :=
        if Nat.leb 5 epoch && Nat.eqb (epoch mod 10) 0 then
          let+ val_acc := run_eval self_model s in
          if negb (Qle_bool val_acc best_acc)
          then Done (val_acc, Some self_model)
          else Done (best_acc, best_model)
        else Done (best_acc, best_model) in
      train_loop train_data_loader self_model rest (fst best) (snd best) s
  end.

(** runner.py, [Jobs.train]: returns the checkpoint written and the best
    accuracy printed. *)
Definition train (train_data_loader : list Batch) (self_model : nat)
    (max_epochs : nat) (s : gmap nat Model) : outcome (Model * Q) :=
  let+ r := train_loop train_data_loader self_model (seq 1 max_epochs) 0%Q None s in
  let+ checkpoint := save_checkpoint (snd (fst r)) (snd r) in
  Done (checkpoint, fst (fst r)).

(** runner_jobs.py, [Jobs.train]: the loop, from [epochs] on. *)
Fixpoint train_jobs_loop (train_data_loader : list Batch) (self_model : nat)
    (epochs : list nat) (best_acc : Q) (s : gmap nat Model)
  : outcome (Q * gmap nat Model) :=
  match epochs with
  | [] => Done (best_acc, s)
  | epoch :: rest =>
      let+ s := run_epoch train_data_loader self_model s in
      let+ best_acc :=
        if Nat.ltb 2 epoch && Nat.eqb (epoch mod 5) 0 then
          let+ test_acc := run_eval self_model s in
          if negb (Qle_bool test_acc best_acc) then Done test_acc else Done best_acc
        else Done best_acc in
      train_jobs_loop train_data_loader self_model rest best_acc s
  end.

(** runner_jobs.py, [Jobs.train]: returns [best_acc]. *)
Definition train_jobs (train_data_loader : list Batch) (self_model : nat)
    (max_epochs : nat) (s : gmap nat Model) : outcome Q :=
  let+ r := train_jobs_loop train_data_loader self_model (seq 1 max_epochs) (-1)%Q s in
  Done (fst r).

End Loop.

End Training.

(** ** Configuration merging (graph2seq/args.py) *)

(** Configuration values: [None], atoms, and dictionaries, which keep their
    keys in insertion order. *)
#[warnings="-register-all"] Inductive pyval : Type :=
| PNone
| PInt (z : Z)
| PStr (s : string)
| PDict (items : list (string * pyval)).

Module Args.

(** [d.get(key)] / [key in d.keys()] *)
Fixpoint dict_get {A} (key : string) (d : list (string * A)) : option A :=
match d with
| [] => None
| (k, x) :: rest => if String.eqb k key then Some x else dict_get key rest
end.

(** [d[key] = v]: an existing key keeps its place, a new one goes last. *)
Fixpoint dict_set {A} (key : string) (v : A) (d : list (string * A))
: list (string * A) :=
match d with
| [] => [(key, v)]
| (k, x) :: rest =>
    if String.eqb k key then (k, v) :: rest else (k, x) :: dict_set key v rest
end.

(** [update_values(dict_from, dict_to)] on dictionaries taken as values,
  none of them shared; returns [dict_to] as the call leaves it.  [InPlace]
  below has the function on dictionary objects that may be shared. *)
Fixpoint update_values (dict_from : pyval) (dict_to : pyval) {struct dict_from}
: result pyval :=
match dict_from with
| PDict items =>
    (fix loop (items : list (string * pyval)) (dict_to : pyval) {struct items}
       : result pyval :=
       match items with
       | [] => Ok dict_to
       | (key, value) :: rest =>
           let* dict_to :=
             match value with
             | PDict _ =>
                 match dict_to with
                 | PDict to_items =>
                     match dict_get key to_items with
                     | Some sub =>
                         let* sub := update_values value sub in
                         Ok (PDict (dict_set key sub to_items))
                     | None => Ok (PDict (dict_set key value to_items))
                     end
                 | _ => Err (AttributeError "keys")
                 end
             | PNone => Ok dict_to
             | _ =>
                 match dict_to with
                 | PDict to_items => Ok (PDict (dict_set key value to_items))
                 | _ => Err TypeError
                 end
             end in
           loop rest dict_to
       end) items dict_to
| _ => Err (AttributeError "items")
end.

End Args.

(** ** Configuration merging in place *)

(** [update_values] returns nothing: it changes the dictionary that
    [dict_to] refers to, and the dictionaries below it.  A dictionary may be
    reachable along several paths: under two keys, or from [dict_from] as
    well as from [dict_to], since [dict_to[key] = dict_from[key]] stores a
    reference.  Here the dictionaries are objects of a store; a value is
    [None], an atom, or a reference to a dictionary. *)
Inductive pyref : Type :=
| RNone
| RInt (z : Z)
| RStr (s : string)
| RDict (l : nat).

Abbreviation dicts := (gmap nat (list (string * pyref))).

Module InPlace.

(** The dictionary at [l]. *)
Definition deref (h : dicts) (l : nat) : list (string * pyref) :=
  default [] (h !! l).

(** The body of the loop, for the entry [key: value] of [dict_from];
    [update_values] is the function itself, for the nested call. *)
Definition merge_item (update_values : pyref -> pyref -> dicts -> result dicts)
    (dict_to : pyref) (key : string) (value : pyref) (h : dicts) : result dicts :=
  match value with
  | RDict _ =>
      match dict_to with
      | RDict lt =>
          match Args.dict_get key (deref h lt) with
          | Some sub => update_values value sub h
          | None => Ok (<[lt := Args.dict_set key value (deref h lt)]> h)
          end
      | _ => Err (AttributeError "keys")
      end
  | RNone => Ok h
  | _ =>
      match dict_to with
      | RDict lt => Ok (<[lt := Args.dict_set key value (deref h lt)]> h)
      | _ => Err TypeError
      end
  end.

(** [for key, value in dict_from.items()]: the iterator reads the dictionary
    at [lf] as it is when the next entry is asked for, and refuses to go on
    once its size is no longer [size]; [pos] entries have been visited and
    [steps] are left. *)
Fixpoint for_items (update_values : pyref -> pyref -> dicts -> result dicts)
    (lf : nat) (dict_to : pyref) (size steps pos : nat) (h : dicts) {struct steps}
  : result dicts :=
  if negb (Nat.eqb (length (deref h lf)) size) then Err (RuntimeError DictChangedSize)
  else
    match steps with
    | 0 => Ok h
    | S steps =>
        match deref h lf !! pos with
        | Some (key, value) =>
            let* h := merge_item update_values dict_to key value h in
            for_items update_values lf dict_to size steps (S pos) h
        | None => Ok h
        end
    end.

(** [update_values(dict_from, dict_to)], with [depth] nested calls left
    before the interpreter's recursion limit. *)
Fixpoint update_values (depth : nat) (dict_from dict_to : pyref) (h : dicts)
    {struct depth} : result dicts :=
  match depth with
  | 0 => Err RecursionError
  | S depth =>
      match dict_from with
      | RDict lf =>
          let size := length (deref h lf) in
          for_items (update_values depth) lf dict_to size size 0 h
      | _ => Err (AttributeError "items")
      end
  end.

End InPlace.

(** * Definitions used in the statements *)

(** The values of [pow_neg_half], [recip], [src_norm] and [dst_norm] when no
    degree is zero, and the features scaled by them. *)
Definition inv_sqrts (degs : list R) : list R :=
  map (fun d => Rpower d (- (1 / 2))) degs.
Definition inverses (degs : list R) : list R :=
  map (fun d => (1 / d)%R) degs.
Definition src_scale (graph : DGLGraph) : list R :=
  inv_sqrts (clamp_min1 (G.out_degrees graph)).
Definition dst_scale (norm : string) (graph : DGLGraph) : list R :=
  let degs := clamp_min1 (G.in_degrees graph) in
  if String.eqb norm "both" then inv_sqrts degs else inverses degs.
Definition scaled_src (norm : string) (graph : DGLGraph) (feat : Tensor) : Tensor :=
  if String.eqb norm "both" then T.scale_rows feat (src_scale graph) else feat.
Definition scaled_dst (norm : string) (graph : DGLGraph) (rst : Tensor) : Tensor :=
  if negb (String.eqb norm "none") then T.scale_rows rst (dst_scale norm graph) else rst.

(** The edge weights, when there are any, are one scalar for every edge. *)
Definition edge_weights_fit (g : DGLGraph) (edge_weight : option (list R)) : Prop :=
  match edge_weight with
  | Some w => length w = length (edges g)
  | None => True
  end.


(** The weight is absent or a tensor of shape (din, dout); a tuple is no
    weight matrix. *)
Definition weight_shape (w : ext_weight) (din dout : nat) : Prop :=
  match w with
  | WNone => True
  | WTensor W => T.shape W din dout
  | WTuple _ _ => False
  end.

(** Messages of a common width, and a function applied to every message. *)
Definition msgs_width (d : nat) (msgs : list (nat * Vec)) : Prop :=
  Forall (fun tm => length (snd tm) = d) msgs.

Definition map_msgs (f : Vec -> Vec) (msgs : list (nat * Vec)) : list (nat * Vec) :=
  map (fun tm => (fst tm, f (snd tm))) msgs.

(** The claim's wording of the aggregation: the sum, over all nodes [j]
    with an edge j -> i, of j's input feature. *)
Definition has_edge (g : DGLGraph) (j i : nat) : bool :=
  existsb (fun e => Nat.eqb (G.src e) j && Nat.eqb (G.dst e) i) (edges g).

Definition in_neighbours (g : DGLGraph) (i : nat) : list nat :=
  List.filter (fun j => has_edge g j i) (seq 0 (num_nodes g)).

Definition vsum (d : nat) (xs : list Vec) : Vec :=
  fold_right T.add (T.zeros d) xs.

Definition neighbour_sum (g : DGLGraph) (feat : Tensor) (i : nat) : Vec :=
  vsum (T.width feat) (map (T.row feat) (in_neighbours g i)).

(** The sources of the edges that arrive at [i], in edge order. *)
Definition srcs_into (g : DGLGraph) (i : nat) : list nat :=
  map G.src (List.filter (fun e => Nat.eqb (G.dst e) i) (edges g)).

(** The 3-node path graph 0 -> 1 -> 2 and a layer of width 4 with identity
    weight and zero bias. *)
Definition path_graph : DGLGraph := {| num_nodes := 3; edges := [(0, 1); (1, 2)] |}.

Definition identity4 : Tensor :=
  [[1; 0; 0; 0]; [0; 1; 0; 0]; [0; 0; 1; 0]; [0; 0; 0; 1]]%R.

Definition path_layer : UndirectedGCNLayerConv.t :=
  {| UndirectedGCNLayerConv._in_feats := 4;
     UndirectedGCNLayerConv._out_feats := 4;
     UndirectedGCNLayerConv._norm := "none";
     UndirectedGCNLayerConv._allow_zero_in_degree := false;
     UndirectedGCNLayerConv.weight := Some identity4;
     UndirectedGCNLayerConv.bias := Some (T.zeros 4);
     UndirectedGCNLayerConv._activation := None |}.

(** An external weight is supplied: a tensor, or a tuple that holds one. *)
Definition supplied (w : ext_weight) : Prop :=
  match w with
  | WNone => False
  | WTensor _ => True
  | WTuple w_fw w_bw => is_Some w_fw \/ is_Some w_bw
  end.

(** The layer has registered its own weight parameter(s). *)
Definition has_own_weight (layer : GCNLayer.t) : Prop :=
  match layer with
  | GCNLayer.Undirected m => is_Some (UndirectedGCNLayerConv.weight m)
  | GCNLayer.BiSep m =>
      is_Some (BiSepGCNLayerConv.weight_fw m) /\ is_Some (BiSepGCNLayerConv.weight_bw m)
  | GCNLayer.BiFuse m =>
      is_Some (BiFuseGCNLayerConv.weight_fw m) /\ is_Some (BiFuseGCNLayerConv.weight_bw m)
  end.

Definition valid_norm (norm : string) : Prop :=
  norm = "none" \/ norm = "both" \/ norm = "right".
Definition valid_direction (d : string) : Prop :=
  d = "undirected" \/ d = "bi_sep" \/ d = "bi_fuse".

(** The node features of the graph a run returns. *)
Definition node_outputs (r : result GraphData) : result (gmap string Tensor) :=
  let* graph := r in Ok (node_features graph).

(** [GCN.forward] up to the end of the loop over the first
    [num_layers - 1] layers. *)
Definition hidden (self : GCN.t) (graph : GraphData) : result Feat :=
  let* feat := getitem (node_features graph) "node_feat" in
  let h := if String.eqb (GCN.direction_option self) "bi_sep"
           then FPair feat feat else FTensor feat in
  let* ew := GCN.read_edge_weights self graph in
  GCN.loop self (to_dgl graph) (seq 0 (GCN.num_layers self - 1)) h (fst ew) (snd ew).

(** [GCN.forward] from [# output projection] on. *)
Definition output_projection (self : GCN.t) (graph : GraphData) (h : Feat)
  : result GraphData :=
  let* layer := list_last (GCN.gcn_layers self) in
  let* logits := GCNLayer.forward layer (to_dgl graph) h WNone None None in
  let* logits :=
    if String.eqb (GCN.direction_option self) "bi_sep" then
      match logits with
      | FPair a b => Ok (T.cat_last [a; b])
      | FTensor _ => Err TypeError
      end
    else
      match logits with
      | FTensor a => Ok a
      | FPair _ _ => Err TypeError
      end in
  Ok {| topology := topology graph;
        node_features := <["node_emb" := logits]> (node_features graph);
        edge_features := edge_features graph |}.

(** Number of tokens of [candidate] that the vocabulary maps to [sym]. *)
Definition num_tokens (idx2symbol : gmap Z string) (sym : string) (candidate : list Z) : nat :=
  length (List.filter (fun c => bool_decide (idx2symbol !! c = Some sym)) candidate).

(** Every token of the candidate is an index of the vocabulary. *)
Definition in_vocab (idx2symbol : gmap Z string) (candidate : list Z) : Prop :=
  Forall (fun c => is_Some (idx2symbol !! c)) candidate.

(** Every object of the store [s0] is still there, unchanged, in [s]. *)
Definition frame (s0 s : store) : Prop :=
  forall l, l ∈ dom s0 -> s !! l = s0 !! l.

(** The OOV vocabulary [oov] lives, with both its dictionaries, outside the
    store [s0] in which the base vocabulary was built. *)
Definition isolated (s0 : store) (oov : loc) (s : store) : Prop :=
  exists a b n unk d r,
    s !! oov = Some (OVocab a b n unk) /\
    s !! a = Some (ODictStrInt d) /\
    s !! b = Some (ODictIntStr r) /\
    is_Some (d !! unk) /\
    (oov ∉ dom s0) /\ (a ∉ dom s0) /\ (b ∉ dom s0) /\
    frame s0 s.

(** The claim's wording of bi_sep: the undirected layer with the forward
    parameters on the graph, and the undirected layer with the backward
    parameters on the edge-reversed graph, each with its own edge weights. *)
Definition fw_layer (m : BiSepGCNLayerConv.t) : UndirectedGCNLayerConv.t :=
  {| UndirectedGCNLayerConv._in_feats := BiSepGCNLayerConv._in_feats m;
     UndirectedGCNLayerConv._out_feats := BiSepGCNLayerConv._out_feats m;
     UndirectedGCNLayerConv._norm := BiSepGCNLayerConv._norm m;
     UndirectedGCNLayerConv._allow_zero_in_degree := BiSepGCNLayerConv._allow_zero_in_degree m;
     UndirectedGCNLayerConv.weight := BiSepGCNLayerConv.weight_fw m;
     UndirectedGCNLayerConv.bias := BiSepGCNLayerConv.bias_fw m;
     UndirectedGCNLayerConv._activation := BiSepGCNLayerConv._activation m |}.

Definition bw_layer (m : BiSepGCNLayerConv.t) : UndirectedGCNLayerConv.t :=
  {| UndirectedGCNLayerConv._in_feats := BiSepGCNLayerConv._in_feats m;
     UndirectedGCNLayerConv._out_feats := BiSepGCNLayerConv._out_feats m;
     UndirectedGCNLayerConv._norm := BiSepGCNLayerConv._norm m;
     UndirectedGCNLayerConv._allow_zero_in_degree := BiSepGCNLayerConv._allow_zero_in_degree m;
     UndirectedGCNLayerConv.weight := BiSepGCNLayerConv.weight_bw m;
     UndirectedGCNLayerConv.bias := BiSepGCNLayerConv.bias_bw m;
     UndirectedGCNLayerConv._activation := BiSepGCNLayerConv._activation m |}.

Definition two_undirected_branches (m : BiSepGCNLayerConv.t) (g : DGLGraph)
    (feat : Tensor * Tensor) (edge_weight reverse_edge_weight : option (list R))
  : result (Tensor * Tensor) :=
  let* rst_fw := UndirectedGCNLayerConv.forward (fw_layer m) g (fst feat) WNone
                   edge_weight None in
  let* rst_bw := UndirectedGCNLayerConv.forward (bw_layer m) (G.reverse g) (snd feat) WNone
                   reverse_edge_weight None in
  Ok (rst_fw, rst_bw).

(** The claim's wording of bi_fuse: the gate applied to the two outputs of
    the bi_sep computation with the same parameters on the pair (feat, feat). *)
Definition sep_of_fuse (m : BiFuseGCNLayerConv.t) : BiSepGCNLayerConv.t :=
  {| BiSepGCNLayerConv._in_feats := BiFuseGCNLayerConv._in_feats m;
     BiSepGCNLayerConv._out_feats := BiFuseGCNLayerConv._out_feats m;
     BiSepGCNLayerConv._norm := BiFuseGCNLayerConv._norm m;
     BiSepGCNLayerConv._allow_zero_in_degree := BiFuseGCNLayerConv._allow_zero_in_degree m;
     BiSepGCNLayerConv.weight_fw := BiFuseGCNLayerConv.weight_fw m;
     BiSepGCNLayerConv.weight_bw := BiFuseGCNLayerConv.weight_bw m;
     BiSepGCNLayerConv.bias_fw := BiFuseGCNLayerConv.bias_fw m;
     BiSepGCNLayerConv.bias_bw := BiFuseGCNLayerConv.bias_bw m;
     BiSepGCNLayerConv._activation := BiFuseGCNLayerConv._activation m |}.

Definition fused_bi_sep (m : BiFuseGCNLayerConv.t) (g : DGLGraph) (feat : Tensor)
    (edge_weight reverse_edge_weight : option (list R)) : result Tensor :=
  let* rst := BiSepGCNLayerConv.forward (sep_of_fuse m) g (feat, feat) WNone
                edge_weight reverse_edge_weight in
  Ok (BiFuseGCNLayerConv.fuse (BiFuseGCNLayerConv.fuse_linear m) (fst rst) (snd rst)).

(** A two-node graph with the single edge 0 -> 1, unit features, and layers
    of width 1 without weight, bias, normalisation or activation. *)
Definition one_edge : DGLGraph := {| num_nodes := 2; edges := [(0, 1)] |}.
Definition unit_feat : Tensor := [[1]; [1]]%R.

Definition zero_gate : Linear := {| lin_weight := [[0; 0; 0; 0]]%R; lin_bias := [0%R] |}.

Definition plain_bi_fuse : BiFuseGCNLayerConv.t :=
  {| BiFuseGCNLayerConv._in_feats := 1;
     BiFuseGCNLayerConv._out_feats := 1;
     BiFuseGCNLayerConv._norm := "none";
     BiFuseGCNLayerConv._allow_zero_in_degree := false;
     BiFuseGCNLayerConv.weight_fw := None;
     BiFuseGCNLayerConv.weight_bw := None;
     BiFuseGCNLayerConv.bias_fw := None;
     BiFuseGCNLayerConv.bias_bw := None;
     BiFuseGCNLayerConv._activation := None;
     BiFuseGCNLayerConv.fuse_linear := zero_gate |}.

Definition plain_bi_sep : BiSepGCNLayerConv.t := sep_of_fuse plain_bi_fuse.

(** Concrete inputs on which the theorems are exercised. *)

(** A three-symbol vocabulary and the target vocabulary's closing bracket. *)
Definition bracket_vocab : gmap Z string :=
  <[0%Z := "("]> (<[1%Z := ")"]> (<[2%Z := "x"]> ∅)).
Definition bracket_tgt : gmap string Z := <[")" := 1%Z]> ∅.
Definition test_loader : DataLoader :=
  {| batch_size := 1; shuffle := false; num_workers := 0 |}.

(** Two layers without own weight that differ in their declared sizes only. *)
Definition wide_layer : UndirectedGCNLayerConv.t :=
  {| UndirectedGCNLayerConv._in_feats := 2;
     UndirectedGCNLayerConv._out_feats := 1;
     UndirectedGCNLayerConv._norm := "right";
     UndirectedGCNLayerConv._allow_zero_in_degree := false;
     UndirectedGCNLayerConv.weight := None;
     UndirectedGCNLayerConv.bias := None;
     UndirectedGCNLayerConv._activation := None |}.
Definition narrow_layer : UndirectedGCNLayerConv.t :=
  {| UndirectedGCNLayerConv._in_feats := 1;
     UndirectedGCNLayerConv._out_feats := 2;
     UndirectedGCNLayerConv._norm := "right";
     UndirectedGCNLayerConv._allow_zero_in_degree := false;
     UndirectedGCNLayerConv.weight := None;
     UndirectedGCNLayerConv.bias := None;
     UndirectedGCNLayerConv._activation := None |}.
Definition feat22 : Tensor := [[1; 2]; [3; 4]]%R.
Definition weight21 : Tensor := [[1]; [1]]%R.


(** A store that holds one base vocabulary, and a batch with one token. *)
Definition base_store : gmap nat obj :=
  <[0 := OVocab 1 2 2 "<unk>"]>
    (<[1 := ODictStrInt (<["<unk>" := 0%Z]> (<["a" := 1%Z]> ∅))]>
       (<[2 := ODictIntStr (<[0%Z := "<unk>"]> (<[1%Z := "a"]> ∅))]> ∅)).
Definition one_token_batch : BatchGraph :=
  {| node_attributes := [{| token := "b"; type := None |}]; token_id_oov := None |}.

(** Features for the three nodes of the path graph. *)
Definition path_feat : Tensor := [[1; 0; 0; 0]; [0; 1; 0; 0]; [0; 0; 1; 0]]%R.

(** A single-layer encoder and two graphs that differ in their edge weights. *)
Definition single_layer_gcn : GCN.t :=
  {| GCN.num_layers := 1;
     GCN.direction_option := "undirected";
     GCN.gcn_layers := [GCNLayer.Undirected path_layer];
     GCN.use_edge_weight := true |}.
Definition path_data (w : list R) : GraphData :=
  {| topology := path_graph;
     node_features := <["node_feat" := path_feat]> ∅;
     edge_features := <["edge_weight" := w]> ∅ |}.

(** * Further definitions used in the statements *)

(** [f] applied to the value a computation returns. *)
Definition rmap {A B} (f : A -> B) (r : result A) : result B :=
  let* a := r in Ok (f a).

(** Every row of a tensor multiplied by the scalar [c]. *)
Definition scale_tensor (t : Tensor) (c : R) : Tensor :=
  map (fun r => T.scale r c) t.

(** No edge of the graph arrives at node [i]. *)
Definition no_incoming (g : DGLGraph) (i : nat) : Prop :=
  Forall (fun e => G.dst e <> i) (edges g).

(** The sizes and the direction option a layer was constructed with. *)
Definition layer_dims (layer : GCNLayer.t) : nat * nat :=
  match layer with
  | GCNLayer.Undirected m =>
      (UndirectedGCNLayerConv._in_feats m, UndirectedGCNLayerConv._out_feats m)
  | GCNLayer.BiSep m => (BiSepGCNLayerConv._in_feats m, BiSepGCNLayerConv._out_feats m)
  | GCNLayer.BiFuse m => (BiFuseGCNLayerConv._in_feats m, BiFuseGCNLayerConv._out_feats m)
  end.

Definition layer_direction (layer : GCNLayer.t) : string :=
  match layer with
  | GCNLayer.Undirected _ => "undirected"
  | GCNLayer.BiSep _ => "bi_sep"
  | GCNLayer.BiFuse _ => "bi_fuse"
  end.

Definition layer_activation (layer : GCNLayer.t) : option (Tensor -> Tensor) :=
  match layer with
  | GCNLayer.Undirected m => UndirectedGCNLayerConv._activation m
  | GCNLayer.BiSep m => BiSepGCNLayerConv._activation m
  | GCNLayer.BiFuse m => BiFuseGCNLayerConv._activation m
  end.

(** The same initial values for every layer. *)
Definition same_init (init : layer_init) : nat -> layer_init := fun _ => init.
Definition identity_init : layer_init :=
  {| xavier_fw := identity4; xavier_bw := identity4; fuse_init := zero_gate |}.

(** The training run stops with an exception. *)
Definition raised {A} (o : Training.outcome A) : Prop :=
  match o with
  | Training.Done _ => False
  | Training.Raise _ => True
  end.

(** The model store after [n] epochs of training, evaluation left out. *)
Fixpoint run_epochs {Model Batch} (train_batch : Batch -> Model -> result (Model * Q))
    (train_data_loader : list Batch) (self_model : nat) (n : nat) (s : gmap nat Model)
  : Training.outcome (gmap nat Model) :=
  match n with
  | 0 => Training.Done s
  | S k =>
      Training.obind (Training.run_epoch Model Batch train_batch train_data_loader self_model s)
        (fun s => run_epochs train_batch train_data_loader self_model k s)
  end.

(** A toy training setup: the model is a counter of optimisation steps, the
    accuracy is fixed. *)
Definition count_step (data : unit) (m : nat) : result (nat * Q) := Ok (S m, 1%Q).
Definition fixed_accuracy (acc : Q) (m : nat) : result Q := Ok acc.
Definition counter_store : gmap nat nat := <[7 := 0]> ∅.

(** A word node: [n.get("type")] is [None] or [0]. *)
Definition is_word (n : node_attr) : Prop :=
  type n = None \/ type n = Some 0%Z.

(** The store [s] holds the vocabulary [oov], isolated from the store [s0],
    and the symbol-to-index dictionary of [oov] is [d]. *)
Definition tracks_dict (s0 : gmap nat obj) (oov : nat) (s : gmap nat obj)
    (d : gmap string Z) : Prop :=
  isolated s0 oov s /\ Vocab.symbol2idx s oov = Some d.

(** What [update_values] does for one entry [key: value] of [dict_from]. *)
Definition update_item (key : string) (value : pyval) (dict_to : pyval) : result pyval :=
  match value with
  | PDict _ =>
      match dict_to with
      | PDict to_items =>
          match Args.dict_get key to_items with
          | Some sub =>
              let* sub := Args.update_values value sub in
              Ok (PDict (Args.dict_set key sub to_items))
          | None => Ok (PDict (Args.dict_set key value to_items))
          end
      | _ => Err (AttributeError "keys")
      end
  | PNone => Ok dict_to
  | _ =>
      match dict_to with
      | PDict to_items => Ok (PDict (Args.dict_set key value to_items))
      | _ => Err TypeError
      end
  end.

Definition is_dict (v : pyval) : Prop :=
  match v with
  | PDict _ => True
  | _ => False
  end.

(** A value that overwrites: an integer or a string. *)
Definition is_atom (v : pyval) : Prop :=
  match v with
  | PInt _ | PStr _ => True
  | _ => False
  end.

(** A default configuration and the overrides read from a file. *)
Definition config_defaults : list (string * pyval) :=
  [("lr", PInt 1); ("decoder", PDict [("beam", PInt 4); ("copy", PInt 0)])].
Definition config_overrides : list (string * pyval) :=
  [("decoder", PDict [("beam", PInt 8); ("copy", PNone)]); ("seed", PInt 7);
   ("lr", PNone)].




(** [U] is closed in [h]: a dictionary referenced from a dictionary of [U] is
    in [U]. *)
Definition closed (h : dicts) (U : gset nat) : Prop :=
  forall l k l', l ∈ U -> In (k, RDict l') (InPlace.deref h l) -> l' ∈ U.

(** [v] is no dictionary, or one of [U]. *)
Definition within (U : gset nat) (v : pyref) : Prop :=
  match v with
  | RDict l => l ∈ U
  | _ => True
  end.

(** From [h] to [h'] the set [U] stays closed and no dictionary outside it
    changes. *)
Definition keeps (U : gset nat) (h h' : dicts) : Prop :=
  closed h' U /\ forall l, l ∉ U -> h' !! l = h !! l.

(** Calls on values of a closed set write to dictionaries of the set only. *)
Definition writes_within (f : pyref -> pyref -> dicts -> result dicts) : Prop :=
  forall U vf vt h h',
    closed h U -> within U vf -> within U vt -> f vf vt h = Ok h' -> keeps U h h'.

(** The state of the loop of the outermost call, which started in [h0]:
    [U] is closed, no dictionary outside [U] other than [dict_to] has
    changed, the entry of [key] in [dict_to] is as it was, and a dictionary
    that [dict_to] refers to is in [U] or was there from the start. *)
Definition loop_state (U : gset nat) (lf lt : nat) (key : string) (h0 h : dicts) : Prop :=
  closed h U /\
  (forall l, l ∉ U -> l <> lt -> h !! l = h0 !! l) /\
  Args.dict_get key (InPlace.deref h lt) = Args.dict_get key (InPlace.deref h0 lt) /\
  (forall k l, Args.dict_get k (InPlace.deref h lt) = Some (RDict l) ->
               l ∈ U \/ Args.dict_get k (InPlace.deref h0 lt) = Some (RDict l)).

(** A store in which the dictionary 2 is shared: [dict_to] is the
    dictionary 0, [{'a': d2, 'b': d2}], and [dict_from] the dictionary 1,
    [{'a': {'x': 1}, 'b': None}]. *)
Definition shared_store : dicts :=
  <[0 := [("a", RDict 2); ("b", RDict 2)]]>
    (<[1 := [("a", RDict 3); ("b", RNone)]]>
       (<[2 := []]> (<[3 := [("x", RInt 1)]]> ∅))).

(** * Lemmas and theorems *)

Section TensorLemmas.

Lemma length_zeros d : length (T.zeros d) = d.
Proof. apply length_replicate. Qed.

Lemma length_add x y : length x = length y -> length (T.add x y) = length x.
Proof. intros H. unfold T.add. rewrite length_zip_with. lia. Qed.

Lemma length_scale x c : length (T.scale x c) = length x.
Proof. apply length_map. Qed.

Lemma scale_zeros d c : T.scale (T.zeros d) c = T.zeros d.
Proof.
  induction d as [|d IH]; simpl; [reflexivity|].
  unfold T.zeros in *. simpl. rewrite IH. f_equal. ring.
Qed.

Lemma scale_add x y c :
  T.scale (T.add x y) c = T.add (T.scale x c) (T.scale y c).
Proof.
  revert y. induction x as [|a x IH]; intros [|b y]; simpl; try reflexivity.
  unfold T.add in *. simpl. rewrite IH. f_equal. ring.
Qed.

Lemma scale_scale x a c : T.scale (T.scale x a) c = T.scale x (a * c)%R.
Proof.
  induction x as [|r x IH]; simpl; [reflexivity|].
  rewrite IH. f_equal. ring.
Qed.

Lemma add_zeros_r x : T.add x (T.zeros (length x)) = x.
Proof.
  induction x as [|a x IH]; simpl; [reflexivity|].
  unfold T.add, T.zeros in *. simpl. rewrite IH. f_equal. ring.
Qed.

Lemma add_zeros_zeros d : T.add (T.zeros d) (T.zeros d) = T.zeros d.
Proof. rewrite <- (length_zeros d) at 2. apply add_zeros_r. Qed.

Lemma add_scale_distr r a b u v :
  T.add (T.scale r (a + b)%R) (T.add u v)
  = T.add (T.add (T.scale r a) u) (T.add (T.scale r b) v).
Proof.
  revert u v. induction r as [|x r IH]; intros [|p u] [|q v]; simpl; try reflexivity.
  unfold T.add in *. simpl. rewrite IH. f_equal. ring.
Qed.

Lemma length_vecmat x W d :
  Forall (fun r => length r = d) W -> length (T.vecmat x W d) = d.
Proof.
  intros HW. revert x. induction HW as [|r W Hr HW IH]; intros [|a x]; simpl;
    try apply length_zeros.
  rewrite length_add; rewrite length_scale; [assumption|].
  rewrite IH. assumption.
Qed.

Lemma vecmat_zeros n W d :
  Forall (fun r => length r = d) W -> T.vecmat (T.zeros n) W d = T.zeros d.
Proof.
  intros HW. revert n. induction HW as [|r W Hr HW IH]; intros [|n]; simpl;
    try reflexivity.
  fold (T.zeros n). rewrite IH.
  replace (T.scale r 0) with (T.zeros d).
  - apply add_zeros_zeros.
  - subst d. clear. induction r as [|x r IHr]; simpl; [reflexivity|].
    unfold T.zeros in *. simpl. rewrite IHr. f_equal. ring.
Qed.

Lemma vecmat_add x y W d :
  length x = length y ->
  T.vecmat (T.add x y) W d = T.add (T.vecmat x W d) (T.vecmat y W d).
Proof.
  revert y W. induction x as [|a x IH]; intros [|b y] W Hlen; simpl in *;
    try discriminate.
  - destruct W; symmetry; apply add_zeros_zeros.
  - destruct W as [|r W]; [symmetry; apply add_zeros_zeros|].
    fold (T.add x y). rewrite IH by lia. apply add_scale_distr.
Qed.

Lemma vecmat_scale x c W d :
  T.vecmat (T.scale x c) W d = T.scale (T.vecmat x W d) c.
Proof.
  revert W. induction x as [|a x IH]; intros [|r W]; simpl;
    try (symmetry; apply scale_zeros).
  rewrite IH, scale_add, scale_scale. reflexivity.
Qed.

End TensorLemmas.

Section Normalisation.

Lemma clamp_min1_ge1 degs : Forall (fun d => (1 <= d)%R) (clamp_min1 degs).
Proof.
  unfold clamp_min1. apply Forall_map, List.Forall_forall. intros d _. simpl.
  apply Rmax_r.
Qed.

Lemma pow_neg_half_ok degs :
  Forall (fun d => (1 <= d)%R) degs -> pow_neg_half degs = Ok (inv_sqrts degs).
Proof.
  unfold pow_neg_half, inv_sqrts.
  induction 1 as [|d degs Hd _ IH]; simpl; [reflexivity|].
  destruct (Rlt_dec 0 d) as [_|Hn]; [|exfalso; lra].
  cbn [rbind]. rewrite IH. reflexivity.
Qed.

Lemma recip_ok degs :
  Forall (fun d => (1 <= d)%R) degs -> recip degs = Ok (inverses degs).
Proof.
  unfold recip, inverses.
  induction 1 as [|d degs Hd _ IH]; simpl; [reflexivity|].
  destruct (Req_dec_T d 0) as [Hz|_]; [exfalso; lra|].
  cbn [rbind]. rewrite IH. reflexivity.
Qed.

Lemma src_norm_ok g : src_norm g = Ok (src_scale g).
Proof. apply pow_neg_half_ok, clamp_min1_ge1. Qed.

Lemma dst_norm_ok norm g : dst_norm norm g = Ok (dst_scale norm g).
Proof.
  unfold dst_norm, dst_scale. destruct (String.eqb norm "both").
  - apply pow_neg_half_ok, clamp_min1_ge1.
  - apply recip_ok, clamp_min1_ge1.
Qed.

Lemma normalize_src_ok norm g feat :
  normalize_src norm g feat = Ok (scaled_src norm g feat).
Proof.
  unfold normalize_src, scaled_src. destruct (String.eqb norm "both"); [|reflexivity].
  rewrite src_norm_ok. reflexivity.
Qed.

Lemma normalize_dst_ok norm g rst :
  normalize_dst norm g rst = Ok (scaled_dst norm g rst).
Proof.
  unfold normalize_dst, scaled_dst. destruct (negb _); [|reflexivity].
  rewrite dst_norm_ok. reflexivity.
Qed.

End Normalisation.

Section Aggregation.

Lemma length_sum_at d v msgs :
  msgs_width d msgs -> length (G.sum_at d v msgs) = d.
Proof.
  induction 1 as [|[t m] msgs Hm _ IH]; simpl; [apply length_zeros|].
  destruct (Nat.eqb t v); [|assumption].
  simpl in Hm. rewrite length_add; congruence.
Qed.

Lemma sum_at_vecmat d v msgs W dout :
  msgs_width d msgs ->
  Forall (fun r => length r = dout) W ->
  G.sum_at dout v (map_msgs (fun m => T.vecmat m W dout) msgs)
  = T.vecmat (G.sum_at d v msgs) W dout.
Proof.
  intros Hm HW. induction Hm as [|[t m] msgs Hlen Hm IH]; simpl.
  - symmetry. apply vecmat_zeros. assumption.
  - destruct (Nat.eqb t v); [|assumption].
    rewrite IH, vecmat_add; [reflexivity|].
    simpl in Hlen. rewrite length_sum_at; assumption.
Qed.

Lemma row_matmul feat W u :
  u < length feat ->
  T.row (T.matmul feat W) u = T.vecmat (T.row feat u) W (T.width W).
Proof.
  intros Hu. unfold T.row, T.matmul.
  rewrite (nth_indep _ [] (T.vecmat [] W (T.width W))) by (rewrite length_map; exact Hu).
  exact (map_nth (fun x => T.vecmat x W (T.width W)) feat [] u).
Qed.

Lemma length_row feat n d u :
  T.shape feat n d -> u < n -> length (T.row feat u) = d.
Proof.
  intros [Hn Hrows] Hu. unfold T.row.
  rewrite List.Forall_forall in Hrows. apply Hrows, nth_In. lia.
Qed.

Lemma copy_src_matmul g feat W :
  G.valid g -> length feat = num_nodes g ->
  G.copy_src g (T.matmul feat W)
  = map_msgs (fun m => T.vecmat m W (T.width W)) (G.copy_src g feat).
Proof.
  unfold G.valid, G.copy_src, map_msgs. intros Hv Hn.
  induction Hv as [|e es [Hs _] _ IH]; simpl; [reflexivity|].
  rewrite IH, row_matmul by lia. reflexivity.
Qed.

Lemma u_mul_e_matmul g feat W w :
  G.valid g -> length feat = num_nodes g ->
  G.u_mul_e g (T.matmul feat W) w
  = map_msgs (fun m => T.vecmat m W (T.width W)) (G.u_mul_e g feat w).
Proof.
  unfold G.valid, G.u_mul_e, map_msgs. intros Hv Hn. revert w.
  induction Hv as [|e es [Hs _] _ IH]; intros [|we w]; simpl; try reflexivity.
  rewrite IH, row_matmul, vecmat_scale by lia. reflexivity.
Qed.

Lemma copy_src_width g feat d :
  G.valid g -> T.shape feat (num_nodes g) d -> msgs_width d (G.copy_src g feat).
Proof.
  unfold G.valid, G.copy_src, msgs_width. intros Hv Hs.
  induction Hv as [|e es [He _] _ IH]; simpl; constructor; [|assumption].
  simpl. eapply length_row; eassumption.
Qed.

Lemma u_mul_e_width g feat d w :
  G.valid g -> T.shape feat (num_nodes g) d -> msgs_width d (G.u_mul_e g feat w).
Proof.
  unfold G.valid, G.u_mul_e, msgs_width. intros Hv Hs. revert w.
  induction Hv as [|e es [He _] _ IH]; intros [|we w]; simpl; constructor;
    [|apply IH].
  simpl. rewrite length_scale. eapply length_row; eassumption.
Qed.

Lemma width_shape feat n d : T.shape feat n d -> 0 < n -> T.width feat = d.
Proof.
  intros [Hn Hrows] Hpos. destruct feat as [|r feat]; simpl in *; [lia|].
  inversion Hrows; assumption.
Qed.

Lemma shape_matmul feat W n d :
  length feat = n -> Forall (fun r => length r = d) W ->
  T.shape (T.matmul feat W) n (T.width W).
Proof.
  intros Hn HW. split; [unfold T.matmul; rewrite length_map; exact Hn|].
  unfold T.matmul. apply Forall_map, List.Forall_forall. intros x _. simpl.
  apply length_vecmat.
  destruct HW as [|r W Hr HW]; [constructor|].
  simpl. constructor; [reflexivity|].
  eapply Forall_impl; [exact HW|]. simpl. intros; congruence.
Qed.

Lemma reduce_sum_matmul g d msgs W dout dw :
  msgs_width d msgs ->
  Forall (fun r => length r = dout) W ->
  (0 < num_nodes g -> dw = dout /\ T.width W = dout) ->
  G.reduce_sum g dw (map_msgs (fun m => T.vecmat m W (T.width W)) msgs)
  = T.matmul (G.reduce_sum g d msgs) W.
Proof.
  intros Hm HW Hd. unfold G.reduce_sum, T.matmul. rewrite map_map.
  apply map_ext_in. intros v Hv. apply in_seq in Hv.
  destruct Hd as [-> Hw]; [lia|]. rewrite Hw.
  apply sum_at_vecmat; assumption.
Qed.

End Aggregation.

Section BranchOrder.

Lemma rows_width W d :
  Forall (fun r => length r = d) W -> Forall (fun r => length r = T.width W) W.
Proof.
  intros HW. destruct HW as [|r W Hr HW]; [constructor|].
  simpl. constructor; [reflexivity|].
  eapply Forall_impl; [exact HW|]. simpl. intros; congruence.
Qed.

Lemma matmul_reduce_sum g feat W din msgs :
  T.shape feat (num_nodes g) din ->
  Forall (fun r => length r = T.width W) W ->
  msgs_width din msgs ->
  G.reduce_sum g (T.width (T.matmul feat W))
    (map_msgs (fun m => T.vecmat m W (T.width W)) msgs)
  = T.matmul (G.reduce_sum g (T.width feat) msgs) W.
Proof.
  intros Hf HW Hm.
  destruct (Nat.eq_dec (num_nodes g) 0) as [Hz|Hz].
  - unfold G.reduce_sum. rewrite Hz. reflexivity.
  - rewrite (width_shape feat _ din Hf) by lia.
    apply reduce_sum_matmul with (dout := T.width W); [assumption..|].
    intros _. split; [|reflexivity].
    apply (width_shape _ (num_nodes g)); [|lia].
    apply shape_matmul with (d := T.width W); [apply Hf|assumption].
Qed.

Lemma length_matmul feat W : length (T.matmul feat W) = length feat.
Proof. unfold T.matmul. apply length_map. Qed.

Lemma message_passing_rows g h tested stored :
  length h = num_nodes g ->
  message_passing g h tested stored
  = match tested with
    | None => Ok (G.update_all_copy g h)
    | Some _ => G.update_all_mul g h stored
    end.
Proof.
  intros Hh. unfold message_passing, G.set_srcdata.
  rewrite Hh, Nat.eqb_refl. reflexivity.
Qed.

Lemma paths_agree g feat weight ew din dout :
  G.valid g ->
  T.shape feat (num_nodes g) din ->
  weight_shape weight din dout ->
  mult_then_aggregate g feat weight ew ew = aggregate_then_mult g feat weight ew ew.
Proof.
  intros Hg Hf Hw. unfold mult_then_aggregate, aggregate_then_mult.
  destruct weight as [|W|wf wb]; simpl.
  - destruct (message_passing g feat ew ew); reflexivity.
  - destruct Hw as [_ HW]. apply rows_width in HW.
    rewrite !message_passing_rows by (rewrite ?length_matmul; apply Hf).
    destruct ew as [w|]; simpl.
    + unfold G.update_all_mul.
      destruct (G.set_edata g (Some w)) as [w'|]; simpl; [|reflexivity]. f_equal.
      rewrite u_mul_e_matmul by (assumption || apply Hf).
      eapply matmul_reduce_sum; eauto using u_mul_e_width.
    + f_equal. unfold G.update_all_copy.
      rewrite copy_src_matmul by (assumption || apply Hf).
      eapply matmul_reduce_sum; eauto using copy_src_width.
  - destruct Hw.
Qed.

Lemma shape_scale_rows feat norm n d :
  T.shape feat n d -> length norm = n -> T.shape (T.scale_rows feat norm) n d.
Proof.
  intros [Hn Hrows] Hl. unfold T.scale_rows. split.
  - rewrite length_zip_with. lia.
  - clear Hn Hl. revert norm.
    induction Hrows as [|r feat Hr _ IH]; intros [|c norm]; simpl; constructor.
    + rewrite length_scale. assumption.
    + apply IH.
Qed.

Lemma length_src_scale g : length (src_scale g) = num_nodes g.
Proof.
  unfold src_scale, inv_sqrts, clamp_min1, G.out_degrees.
  rewrite !length_map. apply length_seq.
Qed.

Lemma length_dst_scale norm g : length (dst_scale norm g) = num_nodes g.
Proof.
  unfold dst_scale, inv_sqrts, inverses, clamp_min1, G.in_degrees.
  destruct (String.eqb norm "both"); rewrite !length_map; apply length_seq.
Qed.

Lemma shape_scaled_src norm g feat d :
  T.shape feat (num_nodes g) d -> T.shape (scaled_src norm g feat) (num_nodes g) d.
Proof.
  intros Hf. unfold scaled_src. destruct (String.eqb norm "both"); [|assumption].
  apply shape_scale_rows; [assumption|apply length_src_scale].
Qed.

End BranchOrder.

(** C5.  Under exact arithmetic the undirected layer's output does not
    depend on the branch taken: two layers that agree on normalisation,
    weight, bias and activation and differ only in [_in_feats] and
    [_out_feats] (hence possibly in the order of the weight multiplication
    and the aggregation) return the same result, for every graph with valid
    endpoints, every (N, din) feature tensor, every (din, dout) weight,
    every edge weighting and every normalisation string. *)
Theorem undirected_branch_choice_irrelevant
    (L L' : UndirectedGCNLayerConv.t) (g : DGLGraph) (feat : Tensor)
    (weight : ext_weight) (edge_weight reverse_edge_weight : option (list R))
    (din dout : nat) :
  UndirectedGCNLayerConv._norm L = UndirectedGCNLayerConv._norm L' ->
  UndirectedGCNLayerConv.weight L = UndirectedGCNLayerConv.weight L' ->
  UndirectedGCNLayerConv.bias L = UndirectedGCNLayerConv.bias L' ->
  UndirectedGCNLayerConv._activation L = UndirectedGCNLayerConv._activation L' ->
  G.valid g ->
  T.shape feat (num_nodes g) din ->
  weight_shape weight din dout ->
  weight_shape (of_param (UndirectedGCNLayerConv.weight L)) din dout ->
  UndirectedGCNLayerConv.forward L g feat weight edge_weight reverse_edge_weight
  = UndirectedGCNLayerConv.forward L' g feat weight edge_weight reverse_edge_weight.
Proof.
  intros Hnorm Hweight Hbias Hact Hg Hf Hw Hown.
  unfold UndirectedGCNLayerConv.forward.
  rewrite <- Hnorm, <- Hweight, <- Hbias, <- Hact.
  destruct reverse_edge_weight; simpl; [reflexivity|].
  assert (Hpick : forall w', pick_weight weight (UndirectedGCNLayerConv.weight L) = Ok w' ->
                             weight_shape w' din dout).
  { intros w' Hp. destruct weight; simpl in Hp.
    - injection Hp as <-. exact Hown.
    - destruct (UndirectedGCNLayerConv.weight L); [discriminate|].
      injection Hp as <-. exact Hw.
    - destruct (UndirectedGCNLayerConv.weight L); [discriminate|].
      injection Hp as <-. exact Hw. }
  rewrite normalize_src_ok. cbn [rbind].
  destruct (pick_weight weight (UndirectedGCNLayerConv.weight L)) as [w'|e]; simpl;
    [|reflexivity].
  specialize (Hpick w' eq_refl).
  pose proof (shape_scaled_src (UndirectedGCNLayerConv._norm L) g feat din Hf) as Hf'.
  pose proof (paths_agree g _ w' edge_weight din dout Hg Hf' Hpick) as Hpaths.
  destruct (Nat.ltb _ _), (Nat.ltb _ _); rewrite ?Hpaths; reflexivity.
Qed.

Section NeighbourSum.

Lemma add_swap x y s : T.add x (T.add y s) = T.add y (T.add x s).
Proof.
  revert y s. induction x as [|a x IH]; intros [|b y] [|c s]; simpl; try reflexivity.
  unfold T.add in *. simpl. rewrite IH. f_equal. ring.
Qed.

Lemma vsum_Permutation d xs ys : Permutation xs ys -> vsum d xs = vsum d ys.
Proof.
  induction 1 as [|x xs ys _ IH|x y xs|xs ys zs _ IH1 _ IH2]; simpl.
  - reflexivity.
  - rewrite IH. reflexivity.
  - apply add_swap.
  - congruence.
Qed.

Lemma sum_at_copy_src g feat d i :
  G.sum_at d i (G.copy_src g feat) = vsum d (map (T.row feat) (srcs_into g i)).
Proof.
  unfold G.copy_src, srcs_into. induction (edges g) as [|e es IH]; simpl;
    [reflexivity|].
  destruct (Nat.eqb (G.dst e) i); simpl; rewrite IH; reflexivity.
Qed.

Lemma has_edge_In g j i : has_edge g j i = true <-> In (j, i) (edges g).
Proof.
  unfold has_edge. rewrite existsb_exists. split.
  - intros [[s t] [Hin Hb]]. apply andb_prop in Hb as [Hs Ht].
    apply Nat.eqb_eq in Hs, Ht. simpl in *. subst. exact Hin.
  - intros Hin. exists (j, i). split; [exact Hin|].
    simpl. rewrite !Nat.eqb_refl. reflexivity.
Qed.

Lemma In_srcs_into g j i : In j (srcs_into g i) <-> In (j, i) (edges g).
Proof.
  unfold srcs_into. rewrite in_map_iff. split.
  - intros [[s t] [Hs Hin]]. apply filter_In in Hin as [Hin Ht].
    apply Nat.eqb_eq in Ht. simpl in *. subst. exact Hin.
  - intros Hin. exists (j, i). split; [reflexivity|].
    apply filter_In. split; [exact Hin|]. simpl. apply Nat.eqb_refl.
Qed.

Lemma NoDup_srcs_into g i : List.NoDup (edges g) -> List.NoDup (srcs_into g i).
Proof.
  unfold srcs_into. induction 1 as [|e es Hnin Hnd IH]; simpl; [constructor|].
  destruct (Nat.eqb (G.dst e) i) eqn:Ht; [|exact IH].
  simpl. constructor; [|exact IH].
  intros Hin. apply Hnin. apply in_map_iff in Hin as [[s t] [Hs Hin]].
  apply filter_In in Hin as [Hin Ht']. apply Nat.eqb_eq in Ht, Ht'.
  destruct e as [s' t']. simpl in *. subst. exact Hin.
Qed.

Lemma srcs_into_neighbours g i :
  G.valid g -> List.NoDup (edges g) -> Permutation (srcs_into g i) (in_neighbours g i).
Proof.
  intros Hv Hnd. apply Permutation.NoDup_Permutation.
  - apply NoDup_srcs_into, Hnd.
  - apply List.NoDup_filter, List.seq_NoDup.
  - intros j. rewrite In_srcs_into. unfold in_neighbours.
    rewrite filter_In, has_edge_In, in_seq. split; [|tauto].
    intros Hin. split; [|exact Hin].
    unfold G.valid in Hv. rewrite List.Forall_forall in Hv.
    destruct (Hv _ Hin) as [Hs _]. simpl in Hs. lia.
Qed.

Lemma sum_at_neighbour_sum g feat i :
  G.valid g -> List.NoDup (edges g) ->
  G.sum_at (T.width feat) i (G.copy_src g feat) = neighbour_sum g feat i.
Proof.
  intros Hv Hnd. rewrite sum_at_copy_src. unfold neighbour_sum.
  apply vsum_Permutation, Permutation_map, srcs_into_neighbours; assumption.
Qed.

Lemma row_map (f : Vec -> Vec) (t : Tensor) i :
  i < length t -> T.row (map f t) i = f (T.row t i).
Proof.
  intros Hi. unfold T.row.
  rewrite (nth_indep _ [] (f [])) by (rewrite length_map; exact Hi).
  exact (map_nth f t [] i).
Qed.

Lemma row_reduce_sum g d msgs i :
  i < num_nodes g -> T.row (G.reduce_sum g d msgs) i = G.sum_at d i msgs.
Proof.
  intros Hi. unfold T.row, G.reduce_sum.
  rewrite (nth_indep _ [] (G.sum_at d 0 msgs)) by (rewrite length_map, length_seq; exact Hi).
  etransitivity; [exact (map_nth (fun v => G.sum_at d v msgs) (seq 0 (num_nodes g)) 0 i)|].
  rewrite seq_nth by exact Hi. reflexivity.
Qed.

Lemma length_reduce_sum g d msgs : length (G.reduce_sum g d msgs) = num_nodes g.
Proof. unfold G.reduce_sum. rewrite length_map. apply length_seq. Qed.

End NeighbourSum.

(** C6.  With norm = 'none', no edge weights and no activation, on a graph
    whose edges form a set, the undirected layer returns at every node i the
    sum of the input features of all nodes j with an edge j -> i, multiplied
    by the weight matrix, plus the bias.  In particular, on the path graph
    0 -> 1 -> 2 with features of width 4, identity weight and zero bias, the
    output at node 2 is the input feature of node 1. *)
Theorem undirected_none_is_neighbour_sum :
  (forall (L : UndirectedGCNLayerConv.t) (g : DGLGraph) (feat W : Tensor) (b : Vec)
          (din dout : nat),
      UndirectedGCNLayerConv._norm L = "none" ->
      UndirectedGCNLayerConv.weight L = Some W ->
      UndirectedGCNLayerConv.bias L = Some b ->
      UndirectedGCNLayerConv._activation L = None ->
      G.valid g -> List.NoDup (edges g) ->
      T.shape feat (num_nodes g) din ->
      T.shape W din dout ->
      exists rst,
        UndirectedGCNLayerConv.forward L g feat WNone None None = Ok rst /\
        length rst = num_nodes g /\
        forall i, i < num_nodes g ->
          T.row rst i = T.add (T.vecmat (neighbour_sum g feat i) W (T.width W)) b)
  /\
  (forall feat : Tensor,
      T.shape feat 3 4 ->
      exists rst,
        UndirectedGCNLayerConv.forward path_layer path_graph feat WNone None None = Ok rst /\
        T.row rst 2 = T.row feat 1).
Proof.
  split.
  - intros L g feat W b din dout Hnorm Hweight Hbias Hact Hg Hnd Hf HW.
    unfold UndirectedGCNLayerConv.forward.
    rewrite Hnorm, Hweight, Hbias, Hact. simpl.
    pose proof (paths_agree g feat (WTensor W) None din dout Hg Hf HW) as Hpaths.
    assert (Hagg : aggregate_then_mult g feat (WTensor W) None None
                   = Ok (T.matmul (G.update_all_copy g feat) W)).
    { unfold aggregate_then_mult. rewrite message_passing_rows by apply Hf.
      reflexivity. }
    exists (T.add_bias (T.matmul (G.update_all_copy g feat) W) b).
    split; [|split].
    + destruct (Nat.ltb _ _); rewrite ?Hpaths, Hagg; reflexivity.
    + unfold T.add_bias, T.matmul, G.update_all_copy.
      rewrite !length_map. apply length_reduce_sum.
    + intros i Hi. unfold T.add_bias, T.matmul, G.update_all_copy.
      rewrite !row_map by (rewrite ?length_map, length_reduce_sum; exact Hi).
      rewrite row_reduce_sum by exact Hi.
      rewrite sum_at_neighbour_sum by assumption. reflexivity.
  - intros feat [Hlen Hrows].
    destruct feat as [|f0 [|f1 [|f2 [|]]]]; try discriminate.
    inversion_clear Hrows as [|? ? H0 Hrows']. inversion_clear Hrows' as [|? ? H1 _].
    destruct f0 as [|a0 [|b0 [|c0 [|d0 [|]]]]]; try discriminate.
    destruct f1 as [|a [|b [|c [|d [|]]]]]; try discriminate.
    eexists. split; [reflexivity|].
    cbn. unfold T.add. cbn. repeat f_equal; ring.
Qed.

Section Clamp.





Lemma length_scale_rows t norm n :
  length t = n -> length norm = n -> length (T.scale_rows t norm) = n.
Proof. intros Ht Hn. unfold T.scale_rows. rewrite length_zip_with. lia. Qed.

Lemma length_scaled_dst norm g rst :
  length rst = num_nodes g -> length (scaled_dst norm g rst) = num_nodes g.
Proof.
  intros H. unfold scaled_dst. destruct (negb _); [|exact H].
  apply length_scale_rows; [exact H|apply length_dst_scale].
Qed.

Lemma length_apply_bias rst b : length (apply_bias rst b) = length rst.
Proof. destruct b; simpl; [apply length_map|reflexivity]. Qed.

Lemma length_apply_weight x w r :
  apply_weight x w = Ok r -> length r = length x.
Proof.
  destruct w; simpl; intros H; try discriminate; injection H as <-;
    [reflexivity|apply length_map].
Qed.

Lemma set_edata_fit g ew w :
  edge_weights_fit g ew -> ew = Some w -> G.set_edata g ew = Ok w.
Proof.
  intros Hfit ->. unfold G.set_edata. simpl in Hfit.
  rewrite Hfit, Nat.eqb_refl. reflexivity.
Qed.







End Clamp.


Section ConfigErrors.

Lemma norm_ok_false norm : ~ valid_norm norm -> norm_ok norm = false.
Proof.
  intros H. unfold norm_ok, valid_norm in *.
  destruct (String.eqb_spec norm "none"); [tauto|].
  destruct (String.eqb_spec norm "both"); [tauto|].
  destruct (String.eqb_spec norm "right"); [tauto|].
  reflexivity.
Qed.

Lemma rbind_raises {A B} (r : result A) (k : A -> result B) :
  (forall a, r = Ok a -> raises (k a)) -> raises (rbind r k).
Proof. destruct r; simpl; [intros H; apply H; reflexivity|intros _; exact I]. Qed.

Lemma pick_weight_conflict w own :
  w <> WNone -> is_Some own ->
  pick_weight w own = Err (RuntimeError ExternalWeightConflict).
Proof. intros Hw [W ->]. destruct w; [congruence|reflexivity..]. Qed.

Lemma split_weight_supplied w :
  supplied w ->
  fst (split_weight w) <> WNone \/ snd (split_weight w) <> WNone.
Proof.
  destruct w as [|W|wf wb]; simpl; [tauto|left; discriminate|].
  intros [[x ->]|[x ->]]; [left|right]; discriminate.
Qed.

End ConfigErrors.

(** C8.  A normalisation string outside {'none', 'both', 'right'} makes the
    constructor of each convolution class, and of GCNLayer, raise; a
    direction option outside {'undirected', 'bi_sep', 'bi_fuse'} makes the
    GCNLayer constructor raise; [forward] with an external weight on a layer
    that holds its own weight raises at that call.  No layer or result is
    returned in any of these cases. *)
Theorem configuration_errors_raise :
  (forall in_feats out_feats norm weight bias activation allow_zero init,
      ~ valid_norm norm ->
      UndirectedGCNLayerConv.__init__ in_feats out_feats norm weight bias activation
        allow_zero (xavier_fw init)
      = Err (RuntimeError (InvalidNorm norm)) /\
      BiSepGCNLayerConv.__init__ in_feats out_feats norm weight bias activation
        allow_zero (xavier_fw init) (xavier_bw init)
      = Err (RuntimeError (InvalidNorm norm)) /\
      BiFuseGCNLayerConv.__init__ in_feats out_feats norm weight bias activation
        allow_zero (xavier_fw init) (xavier_bw init) (fuse_init init)
      = Err (RuntimeError (InvalidNorm norm)) /\
      forall direction_option, valid_direction direction_option ->
        GCNLayer.__init__ in_feats out_feats direction_option norm weight bias activation
          allow_zero init
        = Err (RuntimeError (InvalidNorm norm)))
  /\
  (forall in_feats out_feats direction_option norm weight bias activation allow_zero init,
      ~ valid_direction direction_option ->
      GCNLayer.__init__ in_feats out_feats direction_option norm weight bias activation
        allow_zero init
      = Err (RuntimeError (UnknownDirectionOption direction_option)))
  /\
  (forall (L : UndirectedGCNLayerConv.t) g feat weight edge_weight,
      weight <> WNone -> is_Some (UndirectedGCNLayerConv.weight L) ->
      UndirectedGCNLayerConv.forward L g feat weight edge_weight None
      = Err (RuntimeError ExternalWeightConflict))
  /\
  (forall (layer : GCNLayer.t) g feat weight edge_weight reverse_edge_weight,
      supplied weight -> has_own_weight layer ->
      raises (GCNLayer.forward layer g feat weight edge_weight reverse_edge_weight)).
Proof.
  split; [|split; [|split]].
  - intros in_feats out_feats norm weight bias activation allow_zero init Hnorm.
    apply norm_ok_false in Hnorm.
    unfold UndirectedGCNLayerConv.__init__, BiSepGCNLayerConv.__init__,
      BiFuseGCNLayerConv.__init__.
    rewrite Hnorm. simpl. repeat split.
    intros d [-> | [-> | ->]]; unfold GCNLayer.__init__,
      UndirectedGCNLayerConv.__init__, BiSepGCNLayerConv.__init__,
      BiFuseGCNLayerConv.__init__; rewrite Hnorm; reflexivity.
  - intros in_feats out_feats d norm weight bias activation allow_zero init Hd.
    unfold GCNLayer.__init__, valid_direction in *.
    destruct (String.eqb_spec d "undirected"); [tauto|].
    destruct (String.eqb_spec d "bi_sep"); [tauto|].
    destruct (String.eqb_spec d "bi_fuse"); [tauto|].
    reflexivity.
  - intros L g feat weight edge_weight Hw Hown.
    unfold UndirectedGCNLayerConv.forward. cbn [rbind].
    rewrite normalize_src_ok. cbn [rbind].
    rewrite pick_weight_conflict by assumption. reflexivity.
  - intros layer g feat weight edge_weight reverse_edge_weight Hw Hown.
    destruct layer as [m|m|m], feat as [h|h_fw h_bw]; simpl; try exact I.
    + (* undirected *)
      apply rbind_raises. intros rst Hrst. exfalso.
      unfold UndirectedGCNLayerConv.forward in Hrst.
      destruct reverse_edge_weight; cbn [rbind] in Hrst; [discriminate|].
      rewrite normalize_src_ok in Hrst. cbn [rbind] in Hrst.
      rewrite pick_weight_conflict in Hrst; [discriminate| |exact Hown].
      destruct weight; [destruct Hw|discriminate..].
    + (* bi_sep *)
      apply rbind_raises. intros rst Hrst. exfalso.
      destruct Hown as [Hfw Hbw].
      unfold BiSepGCNLayerConv.forward in Hrst.
      destruct (split_weight weight) as [wf wb] eqn:Hsplit.
      pose proof (split_weight_supplied weight Hw) as Hs. rewrite Hsplit in Hs. simpl in Hs.
      destruct Hs as [Hs|Hs].
      * unfold BiSepGCNLayerConv.forward_direction in Hrst.
        rewrite normalize_src_ok in Hrst. cbn [rbind] in Hrst.
        rewrite pick_weight_conflict in Hrst by assumption. discriminate.
      * destruct (BiSepGCNLayerConv.forward_direction m g h_fw wf edge_weight);
          cbn [rbind] in Hrst; [|discriminate].
        unfold BiSepGCNLayerConv.backward_direction in Hrst.
        rewrite normalize_src_ok in Hrst. cbn [rbind] in Hrst.
        rewrite (pick_weight_conflict wb) in Hrst by assumption. discriminate.
    + (* bi_fuse *)
      apply rbind_raises. intros rst Hrst. exfalso.
      destruct Hown as [Hfw Hbw].
      unfold BiFuseGCNLayerConv.forward in Hrst.
      destruct (split_weight weight) as [wf wb] eqn:Hsplit.
      pose proof (split_weight_supplied weight Hw) as Hs. rewrite Hsplit in Hs. simpl in Hs.
      destruct Hs as [Hs|Hs].
      * unfold BiFuseGCNLayerConv.forward_direction in Hrst.
        rewrite normalize_src_ok in Hrst. cbn [rbind] in Hrst.
        rewrite pick_weight_conflict in Hrst by assumption. discriminate.
      * destruct (BiFuseGCNLayerConv.forward_direction m g h wf edge_weight);
          cbn [rbind] in Hrst; [|discriminate].
        unfold BiFuseGCNLayerConv.backward_direction in Hrst.
        rewrite normalize_src_ok in Hrst. cbn [rbind] in Hrst.
        rewrite (pick_weight_conflict wb) in Hrst by assumption. discriminate.
Qed.

Section Encoder.

Lemma forward_split self graph :
  GCN.forward self graph = rbind (hidden self graph) (output_projection self graph).
Proof.
  unfold GCN.forward, hidden, output_projection.
  destruct (getitem (node_features graph) "node_feat") as [feat|e]; simpl;
    [|reflexivity].
  destruct (GCN.read_edge_weights self graph) as [[ew rew]|e]; reflexivity.
Qed.

Lemma output_projection_frame self g1 g2 h :
  topology g1 = topology g2 ->
  node_features g1 = node_features g2 ->
  node_outputs (output_projection self g1 h) = node_outputs (output_projection self g2 h).
Proof.
  intros Ht Hn. unfold output_projection, to_dgl. rewrite Ht, Hn.
  destruct (list_last (GCN.gcn_layers self)) as [layer|e]; simpl; [|reflexivity].
  destruct (GCNLayer.forward layer (topology g2) h WNone None None) as [logits|e];
    simpl; [|reflexivity].
  destruct (String.eqb _ _), logits; reflexivity.
Qed.

Lemma getitem_same_dom {V} (d1 d2 : gmap string V) key :
  dom d1 = dom d2 ->
  (exists v1 v2, getitem d1 key = Ok v1 /\ getitem d2 key = Ok v2) \/
  (getitem d1 key = Err (KeyError key) /\ getitem d2 key = Err (KeyError key)).
Proof.
  intros Hdom. unfold getitem.
  destruct (d1 !! key) as [v1|] eqn:H1.
  - assert (is_Some (d2 !! key)) as [v2 H2].
    { apply elem_of_dom. rewrite <- Hdom. apply elem_of_dom. eauto. }
    rewrite H2. left. eauto.
  - assert (d2 !! key = None) as ->.
    { apply not_elem_of_dom. rewrite <- Hdom. apply not_elem_of_dom. exact H1. }
    right. split; reflexivity.
Qed.

Lemma hidden_single_layer self g1 g2 :
  GCN.num_layers self = 1 ->
  node_features g1 = node_features g2 ->
  dom (edge_features g1) = dom (edge_features g2) ->
  hidden self g1 = hidden self g2.
Proof.
  intros Hn Hf Hdom. unfold hidden. rewrite Hn, Hf. simpl.
  destruct (getitem (node_features g2) "node_feat") as [feat|e]; simpl;
    [|reflexivity].
  unfold GCN.read_edge_weights.
  destruct (GCN.use_edge_weight self); [|reflexivity].
  destruct (getitem_same_dom _ _ "edge_weight" Hdom)
    as [(v1 & v2 & -> & ->)|[-> ->]]; simpl; [|reflexivity].
  destruct (negb _); [|reflexivity].
  destruct (getitem_same_dom _ _ "reverse_edge_weight" Hdom)
    as [(r1 & r2 & -> & ->)|[-> ->]]; reflexivity.
Qed.

End Encoder.

(** C10.  In [GCN.forward] the edge weights reach the output only through the
    loop over the first num_layers - 1 layers: two runs on graphs with the
    same topology and node features whose hidden state after that loop is
    the same store the same node embeddings.  For num_layers = 1, two runs
    on graphs that differ only in the values of their edge features store
    the same node embeddings (or raise the same exception). *)
Theorem output_projection_without_edge_weights :
  (forall (self : GCN.t) (g1 g2 : GraphData),
      topology g1 = topology g2 ->
      node_features g1 = node_features g2 ->
      hidden self g1 = hidden self g2 ->
      node_outputs (GCN.forward self g1) = node_outputs (GCN.forward self g2))
  /\
  (forall (self : GCN.t) (g1 g2 : GraphData),
      GCN.num_layers self = 1 ->
      topology g1 = topology g2 ->
      node_features g1 = node_features g2 ->
      dom (edge_features g1) = dom (edge_features g2) ->
      node_outputs (GCN.forward self g1) = node_outputs (GCN.forward self g2)).
Proof.
  assert (Hgen : forall (self : GCN.t) (g1 g2 : GraphData),
             topology g1 = topology g2 ->
             node_features g1 = node_features g2 ->
             hidden self g1 = hidden self g2 ->
             node_outputs (GCN.forward self g1) = node_outputs (GCN.forward self g2)).
  { intros self g1 g2 Ht Hf Hh. rewrite !forward_split, Hh.
    destruct (hidden self g2) as [h|e]; simpl; [|reflexivity].
    apply output_projection_frame; assumption. }
  split; [exact Hgen|].
  intros self g1 g2 Hn Ht Hf Hdom.
  apply Hgen; [assumption..|]. apply hidden_single_layer; assumption.
Qed.

Section Repair.

Lemma num_tokens_le idx2symbol sym candidate :
  num_tokens idx2symbol sym candidate <= length candidate.
Proof. apply List.filter_length_le. Qed.

Lemma count_symbol_num_tokens idx2symbol sym candidate :
  in_vocab idx2symbol candidate ->
  Jobs.count_symbol idx2symbol sym candidate
  = Ok (Z.of_nat (num_tokens idx2symbol sym candidate)).
Proof.
  unfold num_tokens. induction 1 as [|c cs [s Hs] _ IH]; simpl; [reflexivity|].
  unfold Jobs.symbol_at. rewrite Hs, IH. simpl. f_equal.
  destruct (String.eqb_spec s sym) as [->|Hne].
  - rewrite bool_decide_eq_true_2 by reflexivity. simpl. lia.
  - rewrite bool_decide_eq_false_2 by congruence. reflexivity.
Qed.

Lemma slice_to_neg {A} (l : list A) (d : nat) :
  0 < d -> d <= length l ->
  Jobs.slice_to l (- Z.of_nat d) = take (length l - d) l.
Proof.
  intros Hd Hle. unfold Jobs.slice_to.
  destruct (Z.ltb_spec (- Z.of_nat d) 0); [|lia].
  f_equal. lia.
Qed.

End Repair.

Section RepairCases.

Variables (idx2symbol : gmap Z string) (candidate : list Z).
Hypothesis Hvoc : in_vocab idx2symbol candidate.

Let opens := num_tokens idx2symbol "(" candidate.
Let closes := num_tokens idx2symbol ")" candidate.

(** What the repair does once the target vocabulary is reached. *)
Lemma repair_with_appends tgt symbol2idx close d :
  0 < d -> opens = closes + d ->
  tgt = Ok symbol2idx -> symbol2idx !! ")" = Some close ->
  Jobs.repair_with tgt idx2symbol candidate = Ok (candidate ++ replicate d close)%list.
Proof.
  intros Hd Heq -> Hclose. unfold Jobs.repair_with.
  rewrite !count_symbol_num_tokens by exact Hvoc. simpl. fold opens closes.
  destruct (Z.ltb_spec 0 (Z.of_nat opens - Z.of_nat closes)); [|lia].
  unfold getitem. rewrite Hclose. simpl. do 3 f_equal. lia.
Qed.

Lemma repair_with_raises tgt e d :
  0 < d -> opens = closes + d -> tgt = Err e ->
  Jobs.repair_with tgt idx2symbol candidate = Err e.
Proof.
  intros Hd Heq ->. unfold Jobs.repair_with.
  rewrite !count_symbol_num_tokens by exact Hvoc. simpl. fold opens closes.
  destruct (Z.ltb_spec 0 (Z.of_nat opens - Z.of_nat closes)); [reflexivity|lia].
Qed.

Lemma repair_with_truncates tgt d :
  0 < d -> closes = opens + d ->
  exists kept dropped,
    candidate = (kept ++ dropped)%list /\ length dropped = d /\
    Jobs.repair_with tgt idx2symbol candidate = Ok kept.
Proof.
  intros Hd Heq. unfold Jobs.repair_with.
  rewrite !count_symbol_num_tokens by exact Hvoc. simpl. fold opens closes.
  destruct (Z.ltb_spec 0 (Z.of_nat opens - Z.of_nat closes)); [lia|].
  destruct (Z.ltb_spec (Z.of_nat opens - Z.of_nat closes) 0); [|lia].
  pose proof (num_tokens_le idx2symbol ")" candidate) as Hle. fold closes in Hle.
  replace (Z.of_nat opens - Z.of_nat closes)%Z with (- Z.of_nat d)%Z by lia.
  rewrite slice_to_neg by lia.
  exists (take (length candidate - d) candidate), (drop (length candidate - d) candidate).
  split; [symmetry; apply take_drop|]. split; [|reflexivity].
  rewrite length_drop. lia.
Qed.

Lemma repair_with_balanced tgt :
  opens = closes -> Jobs.repair_with tgt idx2symbol candidate = Ok candidate.
Proof.
  intros Heq. unfold Jobs.repair_with.
  rewrite !count_symbol_num_tokens by exact Hvoc. simpl. fold opens closes.
  destruct (Z.ltb_spec 0 (Z.of_nat opens - Z.of_nat closes)); [lia|].
  destruct (Z.ltb_spec (Z.of_nat opens - Z.of_nat closes) 0); [lia|].
  reflexivity.
Qed.

End RepairCases.

Section Isolation.

Lemma frame_refl s : frame s s.
Proof. intros l _. reflexivity. Qed.

Lemma frame_insert s0 s l o : l ∉ dom s0 -> frame s0 s -> frame s0 (<[l := o]> s).
Proof.
  intros Hl Hf l' Hl'. rewrite lookup_insert_ne by (intros ->; contradiction).
  apply Hf, Hl'.
Qed.




Lemma deepcopy_isolated s0 src :
  Vocab.valid s0 src ->
  exists oov s, Vocab.deepcopy src s0 = Ok (oov, s) /\ isolated s0 oov s.
Proof.
  intros (a & b & n & unk & d & r & Hv & Ha & Hb & Hunk).
  unfold Vocab.deepcopy, mbind', Vocab.read_vocab, Vocab.read_symbol2idx,
    Vocab.read_idx2symbol, Vocab.alloc.
  rewrite Hv, Ha, Hb.
  set (a' := fresh (dom s0)).
  set (s1 := <[a' := ODictStrInt d]> s0).
  set (b' := fresh (dom s1)).
  set (s2 := <[b' := ODictIntStr r]> s1).
  set (o' := fresh (dom s2)).
  assert (Ha' : a' ∉ dom s0) by apply is_fresh.
  assert (Hb' : b' ∉ dom s1) by apply is_fresh.
  assert (Ho' : o' ∉ dom s2) by apply is_fresh.
  unfold s2 in Ho'. rewrite dom_insert_L in Ho'.
  unfold s1 in Hb', Ho'. rewrite dom_insert_L in Hb', Ho'.
  eexists _, _. split; [reflexivity|].
  exists a', b', n, unk, d, r.
  assert (o' <> b') by set_solver. assert (o' <> a') by set_solver.
  assert (b' <> a') by set_solver.
  repeat split.
  - apply lookup_insert_eq.
  - rewrite lookup_insert_ne by done. unfold s2. rewrite lookup_insert_ne by done.
    apply lookup_insert_eq.
  - rewrite lookup_insert_ne by done. apply lookup_insert_eq.
  - exact Hunk.
  - set_solver.
  - exact Ha'.
  - set_solver.
  - apply frame_insert; [set_solver|]. apply frame_insert; [set_solver|].
    apply frame_insert; [exact Ha'|]. apply frame_refl.
Qed.


Lemma add_symbol_isolated s0 oov s t :
  isolated s0 oov s ->
  exists i s', Vocab.add_symbol oov t s = Ok (i, s') /\ isolated s0 oov s'.
Proof.
  intros Hiso.
  pose proof Hiso as (a & b & n & unk & d & r & Hv & Ha & Hb & Hunk & Ho & Hna & Hnb & Hf).
  unfold Vocab.add_symbol, mbind', Vocab.read_vocab, Vocab.read_symbol2idx,
    Vocab.read_idx2symbol.
  rewrite Hv, Ha, Hb. destruct (d !! t) as [i|] eqn:Ht.
  - eexists _, _. split; [reflexivity|exact Hiso].
  - unfold Vocab.write, mret. eexists _, _. split; [reflexivity|].
    assert (oov <> a) by congruence. assert (oov <> b) by congruence.
    assert (a <> b) by congruence.
    exists a, b, (n + 1)%Z, unk, (<[t := n]> d), (<[n := t]> r).
    repeat split.
    + apply lookup_insert_eq.
    + rewrite !lookup_insert_ne by done. apply lookup_insert_eq.
    + rewrite lookup_insert_ne by done. apply lookup_insert_eq.
    + destruct Hunk as [u Hu]. destruct (decide (t = unk)) as [->|Hne].
      * rewrite lookup_insert_eq. eauto.
      * rewrite lookup_insert_ne by done. eauto.
    + exact Ho.
    + exact Hna.
    + exact Hnb.
    + repeat apply frame_insert; assumption.
Qed.






End Isolation.


Section Bidirectional.

Lemma sigmoid1_0 x : x = 0%R -> T.sigmoid1 x = (1 / 2)%R.
Proof. intros ->. unfold T.sigmoid1. rewrite Ropp_0, exp_0. lra. Qed.

Lemma bi_sep_forward_direction m g feat ew :
  BiSepGCNLayerConv.forward_direction m g feat WNone ew
  = UndirectedGCNLayerConv.forward (fw_layer m) g feat WNone ew None.
Proof.
  unfold BiSepGCNLayerConv.forward_direction, UndirectedGCNLayerConv.forward. simpl.
  destruct (Nat.ltb _ _); reflexivity.
Qed.

(** Where the backward block of bi_sep does use [reverse_edge_weight]. *)
Lemma bi_sep_backward_direction m g feat ew rew :
  Nat.ltb (BiSepGCNLayerConv._out_feats m) (BiSepGCNLayerConv._in_feats m) = true
  \/ rew = None \/ ew = rew ->
  BiSepGCNLayerConv.backward_direction m g feat WNone ew rew
  = UndirectedGCNLayerConv.forward (bw_layer m) g feat WNone rew None.
Proof.
  intros H.
  unfold BiSepGCNLayerConv.backward_direction, UndirectedGCNLayerConv.forward. simpl.
  destruct (Nat.ltb _ _); [reflexivity|].
  destruct H as [H|[->| ->]]; [discriminate|reflexivity..].
Qed.

Lemma bi_sep_two_branches m g feat ew rew :
  Nat.ltb (BiSepGCNLayerConv._out_feats m) (BiSepGCNLayerConv._in_feats m) = true
  \/ rew = None \/ ew = rew ->
  BiSepGCNLayerConv.forward m g feat WNone ew rew
  = two_undirected_branches m g feat ew rew.
Proof.
  intros H. destruct feat as [f_fw f_bw].
  unfold BiSepGCNLayerConv.forward, two_undirected_branches. simpl.
  rewrite bi_sep_forward_direction.
  destruct (UndirectedGCNLayerConv.forward (fw_layer m) g f_fw WNone ew None);
    simpl; [|reflexivity].
  rewrite bi_sep_backward_direction by exact H. reflexivity.
Qed.

(** Where bi_fuse and bi_sep compute the same two branches. *)
Lemma bi_fuse_fused_bi_sep m g feat ew rew :
  Nat.ltb (BiFuseGCNLayerConv._out_feats m) (BiFuseGCNLayerConv._in_feats m) = true
  \/ ew = rew ->
  BiFuseGCNLayerConv.forward m g feat WNone ew rew = fused_bi_sep m g feat ew rew.
Proof.
  intros H. unfold BiFuseGCNLayerConv.forward, fused_bi_sep, BiSepGCNLayerConv.forward.
  simpl.
  assert (Hfw : BiFuseGCNLayerConv.forward_direction m g feat WNone ew
                = BiSepGCNLayerConv.forward_direction (sep_of_fuse m) g feat WNone ew)
    by reflexivity.
  assert (Hbw : BiFuseGCNLayerConv.backward_direction m (G.reverse g) feat WNone ew rew
                = BiSepGCNLayerConv.backward_direction (sep_of_fuse m) (G.reverse g) feat
                    WNone ew rew).
  { unfold BiFuseGCNLayerConv.backward_direction, BiSepGCNLayerConv.backward_direction.
    simpl. destruct (Nat.ltb _ _); [reflexivity|].
    destruct H as [H| ->]; [discriminate|reflexivity]. }
  rewrite Hfw, Hbw.
  destruct (BiSepGCNLayerConv.forward_direction _ _ _ _ _); simpl; [|reflexivity].
  destruct (BiSepGCNLayerConv.backward_direction _ _ _ _ _ _); reflexivity.
Qed.

End Bidirectional.

(** C1 (fails on the code).  The claim: in bi_fuse and bi_sep the backward
    aggregation multiplies each message by [reverse_edge_weight] only, in
    both code paths.  In the aggregate-first path (in_feats <= out_feats) the
    backward block of bi_sep stores [edge_weight] as the reversed graph's edge
    feature, and the backward block of bi_fuse tests [edge_weight], not
    [reverse_edge_weight], to decide whether messages are weighted.  On the
    graph 0 -> 1 with unit features, [edge_weight = [2]] and
    [reverse_edge_weight = [3]], the bi_sep backward message that reaches
    node 0 is 2 (not 3); with [edge_weight = None] the bi_fuse backward
    message is 1 (not 3). *)
Theorem backward_aggregation_weighting :
  BiSepGCNLayerConv.backward_direction plain_bi_sep (G.reverse one_edge) unit_feat WNone
    (Some [2%R]) (Some [3%R])
  = Ok [[2]; [0]]%R
  /\
  BiFuseGCNLayerConv.backward_direction plain_bi_fuse (G.reverse one_edge) unit_feat WNone
    None (Some [3%R])
  = Ok [[1]; [0]]%R.
Proof. split; cbn; unfold T.add; cbn; repeat f_equal; lra. Qed.

(** C3 (fails on the code).  The claim: the bi_sep output is the pair of the
    undirected layer on the graph with [edge_weight] and the undirected layer
    on the edge-reversed graph with [reverse_edge_weight].  On the graph
    0 -> 1 with unit features, [edge_weight = [2]] and
    [reverse_edge_weight = [3]], in the aggregate-first path, the backward
    output of bi_sep at node 0 is 2 while the undirected layer on the
    reversed graph gives 3. *)
Theorem bi_sep_is_not_two_undirected_branches :
  BiSepGCNLayerConv.forward plain_bi_sep one_edge (unit_feat, unit_feat) WNone
    (Some [2%R]) (Some [3%R])
  = Ok ([[0]; [2]], [[2]; [0]])%R
  /\
  two_undirected_branches plain_bi_sep one_edge (unit_feat, unit_feat)
    (Some [2%R]) (Some [3%R])
  = Ok ([[0]; [2]], [[3]; [0]])%R.
Proof. split; cbn; unfold T.add; cbn; repeat f_equal; lra. Qed.

(** C4 (fails on the code).  The claim: the bi_fuse output is the gated sum
    of the two outputs of the bi_sep computation on (feat, feat).  On the
    graph 0 -> 1 with unit features, [edge_weight = [2]],
    [reverse_edge_weight = [3]] and a fusion gate that is constantly 1/2,
    bi_fuse returns 3/2 at node 0 while the gated sum of the bi_sep outputs
    is 1: the two backward blocks weight the messages differently in the
    aggregate-first path. *)
Theorem bi_fuse_is_not_fused_bi_sep :
  BiFuseGCNLayerConv.forward plain_bi_fuse one_edge unit_feat WNone
    (Some [2%R]) (Some [3%R])
  = Ok [[3 / 2]; [1]]%R
  /\
  fused_bi_sep plain_bi_fuse one_edge unit_feat (Some [2%R]) (Some [3%R])
  = Ok [[1]; [1]]%R.
Proof.
  split; cbn; unfold T.add, T.mul, T.sub, dot; cbn;
    rewrite !sigmoid1_0 by (cbn; lra); repeat f_equal; lra.
Qed.

(** C2 (fails on the code).  The claim: a candidate with d > 0 more "("
    than ")" tokens gets exactly d closing tokens appended, one with d more
    ")" than "(" loses exactly its last d tokens, a balanced one is left
    unchanged.  The candidate [0; 0; 2] has 2 more "(" than ")": the repair
    raises AttributeError, because the closing token is looked up through
    [self.test_data_loader.tgt_vocab] and the loader has no such attribute;
    had the lookup reached the target vocabulary, two closing tokens would
    have been appended.  The truncation of [0; 1; 1; 1] to [0; 1] works. *)
Theorem repair_of_unmatched_opens :
  num_tokens bracket_vocab "(" [0; 0; 2]%Z = num_tokens bracket_vocab ")" [0; 0; 2]%Z + 2
  /\
  Jobs.repair test_loader bracket_vocab [0; 0; 2]%Z = Err (AttributeError "tgt_vocab")
  /\
  Jobs.repair_with (Ok bracket_tgt) bracket_vocab [0; 0; 2]%Z = Ok [0; 0; 2; 1; 1]%Z
  /\
  Jobs.repair test_loader bracket_vocab [0; 1; 1; 1]%Z = Ok [0; 1]%Z.
Proof. repeat split; vm_compute; reflexivity. Qed.

(** * The theorems at concrete inputs *)

Lemma undirected_branch_choice_irrelevant_witness :
  UndirectedGCNLayerConv.forward wide_layer one_edge feat22 (WTensor weight21)
    (Some [2%R]) None
  = UndirectedGCNLayerConv.forward narrow_layer one_edge feat22 (WTensor weight21)
      (Some [2%R]) None.
Proof.
  apply (undirected_branch_choice_irrelevant wide_layer narrow_layer one_edge feat22
           (WTensor weight21) (Some [2%R]) None 2 1);
    try reflexivity; try exact I; try (split; [reflexivity|repeat constructor]).
  repeat constructor.
Defined.

Lemma undirected_none_is_neighbour_sum_witness :
  exists rst,
    UndirectedGCNLayerConv.forward path_layer path_graph path_feat WNone None None
    = Ok rst /\
    length rst = 3 /\
    forall i, i < 3 ->
      T.row rst i
      = T.add (T.vecmat (neighbour_sum path_graph path_feat i) identity4 4)
              (T.zeros 4).
Proof.
  apply (proj1 undirected_none_is_neighbour_sum path_layer path_graph path_feat
           identity4 (T.zeros 4) 4 4);
    try reflexivity; try (split; [reflexivity|repeat constructor]).
  - repeat constructor.
  - repeat constructor; simpl; intuition congruence.
Defined.


Lemma configuration_errors_raise_witness :
  UndirectedGCNLayerConv.__init__ 4 4 "left" true true None false identity4
  = Err (RuntimeError (InvalidNorm "left")) /\
  GCNLayer.__init__ 4 4 "bidirectional" "both" true true None false
    {| xavier_fw := identity4; xavier_bw := identity4; fuse_init := zero_gate |}
  = Err (RuntimeError (UnknownDirectionOption "bidirectional")) /\
  UndirectedGCNLayerConv.forward path_layer path_graph path_feat (WTensor identity4)
    None None
  = Err (RuntimeError ExternalWeightConflict).
Proof.
  split; [|split].
  - apply (proj1 configuration_errors_raise 4 4 "left" true true None false
             {| xavier_fw := identity4; xavier_bw := identity4; fuse_init := zero_gate |}).
    unfold valid_norm. intuition discriminate.
  - apply (proj1 (proj2 configuration_errors_raise)).
    unfold valid_direction. intuition discriminate.
  - apply (proj1 (proj2 (proj2 configuration_errors_raise))).
    + discriminate.
    + simpl. eauto.
Defined.


Lemma output_projection_without_edge_weights_witness :
  node_outputs (GCN.forward single_layer_gcn (path_data [1; 1]%R))
  = node_outputs (GCN.forward single_layer_gcn (path_data [5; 7]%R)).
Proof.
  apply (proj2 output_projection_without_edge_weights); try reflexivity.
Defined.

(** * Further properties of the code *)

Section LayerShapes.

Lemma shape_reduce_sum g d msgs :
  msgs_width d msgs -> T.shape (G.reduce_sum g d msgs) (num_nodes g) d.
Proof.
  intros Hm. split; [apply length_reduce_sum|].
  unfold G.reduce_sum. apply Forall_map, List.Forall_forall. intros v _. simpl.
  apply length_sum_at, Hm.
Qed.

Lemma shape_message_passing g feat d ew :
  G.valid g -> T.shape feat (num_nodes g) d -> edge_weights_fit g ew ->
  exists rst, message_passing g feat ew ew = Ok rst /\ T.shape rst (num_nodes g) d.
Proof.
  intros Hg Hf Hfit. rewrite message_passing_rows by apply Hf.
  assert (Hshape : forall msgs,
             msgs_width d msgs ->
             T.shape (G.reduce_sum g (T.width feat) msgs) (num_nodes g) d).
  { intros msgs Hm. destruct (Nat.eq_dec (num_nodes g) 0) as [Hz|Hz].
    - unfold G.reduce_sum. rewrite Hz. split; [reflexivity|constructor].
    - rewrite (width_shape feat _ d Hf) by lia. apply shape_reduce_sum, Hm. }
  destruct ew as [w|]; simpl.
  - unfold G.update_all_mul. rewrite (set_edata_fit g (Some w) w Hfit eq_refl).
    cbn [rbind]. eexists. split; [reflexivity|].
    apply Hshape, u_mul_e_width; assumption.
  - eexists. split; [reflexivity|]. apply Hshape, copy_src_width; assumption.
Qed.

Lemma width_nonempty W din dout :
  T.shape W din dout -> 0 < din -> T.width W = dout.
Proof. intros HW Hd. eapply width_shape; eassumption. Qed.

Lemma shape_scaled_dst norm g rst d :
  T.shape rst (num_nodes g) d -> T.shape (scaled_dst norm g rst) (num_nodes g) d.
Proof.
  intros H. unfold scaled_dst. destruct (negb _); [|exact H].
  apply shape_scale_rows; [exact H|apply length_dst_scale].
Qed.

Lemma shape_add_bias rst b n d :
  T.shape rst n d -> length b = d -> T.shape (T.add_bias rst b) n d.
Proof.
  intros [Hn Hrows] Hb. unfold T.add_bias. split; [rewrite length_map; exact Hn|].
  apply Forall_map. eapply Forall_impl; [exact Hrows|].
  simpl. intros x Hx. rewrite length_add; congruence.
Qed.

End LayerShapes.

(** X1.  Output shape of the undirected layer: with its own (din, dout)
    weight, no activation, a bias of width dout (if any), features of shape
    (N, din) and, if any, one edge weight for every edge, the layer returns
    a tensor of shape (N, dout), whatever the normalisation, the values of
    the edge weights and the branch taken. *)
Theorem undirected_output_shape
    (L : UndirectedGCNLayerConv.t) (g : DGLGraph) (feat W : Tensor)
    (edge_weight : option (list R)) (din dout : nat) :
  UndirectedGCNLayerConv.weight L = Some W ->
  UndirectedGCNLayerConv._activation L = None ->
  (forall b, UndirectedGCNLayerConv.bias L = Some b -> length b = dout) ->
  G.valid g ->
  T.shape feat (num_nodes g) din ->
  T.shape W din dout ->
  edge_weights_fit g edge_weight ->
  0 < din ->
  exists rst,
    UndirectedGCNLayerConv.forward L g feat WNone edge_weight None = Ok rst /\
    T.shape rst (num_nodes g) dout.
Proof.
  intros Hweight Hact Hbias Hg Hf HW Hfit Hdin.
  unfold UndirectedGCNLayerConv.forward. rewrite Hweight, Hact.
  cbn [rbind pick_weight of_param]. rewrite normalize_src_ok. cbn [rbind].
  pose proof (shape_scaled_src (UndirectedGCNLayerConv._norm L) g feat din Hf) as Hf'.
  set (feat' := scaled_src (UndirectedGCNLayerConv._norm L) g feat) in *.
  pose proof (paths_agree g feat' (WTensor W) edge_weight din dout Hg Hf' HW) as Hpaths.
  destruct (shape_message_passing g feat' din edge_weight Hg Hf' Hfit)
    as (agg & Hagg & Hshape).
  assert (Hmid : aggregate_then_mult g feat' (WTensor W) edge_weight edge_weight
                 = Ok (T.matmul agg W)).
  { unfold aggregate_then_mult. rewrite Hagg. reflexivity. }
  assert (Hout : T.shape (T.matmul agg W) (num_nodes g) dout).
  { rewrite <- (width_nonempty W din dout HW Hdin).
    apply shape_matmul with (d := dout); [apply Hshape|apply HW]. }
  exists (apply_bias (scaled_dst (UndirectedGCNLayerConv._norm L) g (T.matmul agg W))
            (UndirectedGCNLayerConv.bias L)).
  split.
  - destruct (Nat.ltb _ _); rewrite ?Hpaths, Hmid; cbn [rbind];
      rewrite normalize_dst_ok; reflexivity.
  - apply (shape_scaled_dst (UndirectedGCNLayerConv._norm L)) in Hout.
    destruct (UndirectedGCNLayerConv.bias L) as [b|] eqn:Hb; simpl; [|exact Hout].
    apply shape_add_bias; [exact Hout|]. apply Hbias. reflexivity.
Qed.

Lemma undirected_output_shape_witness :
  exists rst,
    UndirectedGCNLayerConv.forward path_layer path_graph path_feat WNone
      (Some [2; 3]%R) None = Ok rst /\
    T.shape rst 3 4.
Proof.
  apply (undirected_output_shape path_layer path_graph path_feat identity4
           (Some [2; 3]%R) 4 4);
    try reflexivity; try (split; [reflexivity|repeat constructor]); try lia.
  - intros b Hb. injection Hb as <-. reflexivity.
  - repeat constructor.
Defined.

Section EdgeWeights.

Lemma scale_1 x : T.scale x 1 = x.
Proof.
  induction x as [|a x IH]; simpl; [reflexivity|]. rewrite IH. f_equal. ring.
Qed.

Lemma u_mul_e_ones g h :
  G.u_mul_e g h (replicate (length (edges g)) 1%R) = G.copy_src g h.
Proof.
  unfold G.u_mul_e, G.copy_src. induction (edges g) as [|e es IH]; simpl;
    [reflexivity|].
  rewrite IH, scale_1. reflexivity.
Qed.

Lemma message_passing_ones g h :
  let ones := Some (replicate (length (edges g)) 1%R) in
  message_passing g h ones ones = message_passing g h None None.
Proof.
  cbv zeta. unfold message_passing.
  destruct (G.set_srcdata g h); cbn [rbind]; [|reflexivity].
  unfold G.update_all_mul, G.set_edata. rewrite length_replicate, Nat.eqb_refl.
  cbn [rbind]. unfold G.update_all_copy. rewrite u_mul_e_ones. reflexivity.
Qed.

Lemma scale_comm x a c : T.scale (T.scale x a) c = T.scale (T.scale x c) a.
Proof. rewrite !scale_scale. f_equal. ring. Qed.

Lemma sum_at_scale d v msgs c :
  G.sum_at d v (map_msgs (fun m => T.scale m c) msgs) = T.scale (G.sum_at d v msgs) c.
Proof.
  induction msgs as [|[t m] msgs IH]; simpl.
  - symmetry. apply scale_zeros.
  - destruct (Nat.eqb t v); [|exact IH]. rewrite IH, scale_add. reflexivity.
Qed.

Lemma u_mul_e_scale g h w c :
  G.u_mul_e g h (T.scale w c) = map_msgs (fun m => T.scale m c) (G.u_mul_e g h w).
Proof.
  unfold G.u_mul_e, map_msgs. revert w.
  induction (edges g) as [|e es IH]; intros [|we w]; simpl; try reflexivity.
  rewrite IH, scale_scale. reflexivity.
Qed.

Lemma reduce_sum_scale g d msgs c :
  G.reduce_sum g d (map_msgs (fun m => T.scale m c) msgs)
  = scale_tensor (G.reduce_sum g d msgs) c.
Proof.
  unfold G.reduce_sum, scale_tensor. rewrite map_map.
  apply map_ext. intros v. apply sum_at_scale.
Qed.

Lemma width_scale_tensor t c : T.width (scale_tensor t c) = T.width t.
Proof. destruct t; simpl; [reflexivity|apply length_scale]. Qed.

Lemma matmul_scale_tensor t W c :
  T.matmul (scale_tensor t c) W = scale_tensor (T.matmul t W) c.
Proof.
  unfold T.matmul, scale_tensor. rewrite !map_map.
  apply map_ext. intros x. apply vecmat_scale.
Qed.

Lemma scale_rows_scale_tensor t norm c :
  T.scale_rows (scale_tensor t c) norm = scale_tensor (T.scale_rows t norm) c.
Proof.
  unfold T.scale_rows, scale_tensor. revert norm.
  induction t as [|r t IH]; intros [|n norm]; simpl; try reflexivity.
  rewrite IH, scale_comm. reflexivity.
Qed.

Lemma message_passing_scale g h (w : list R) c :
  message_passing g h (Some (T.scale w c)) (Some (T.scale w c))
  = rmap (fun t => scale_tensor t c)
      (message_passing g h (@Some (list R) w) (@Some (list R) w)).
Proof.
  unfold message_passing.
  destruct (G.set_srcdata g h); cbn [rbind rmap]; [|reflexivity].
  unfold G.update_all_mul, G.set_edata. rewrite length_scale.
  destruct (Nat.eqb (length w) (length (edges g))); cbn [rbind rmap]; [|reflexivity].
  rewrite u_mul_e_scale, reduce_sum_scale. reflexivity.
Qed.

Lemma apply_weight_scale t weight c :
  apply_weight (scale_tensor t c) weight
  = rmap (fun t => scale_tensor t c) (apply_weight t weight).
Proof.
  destruct weight; simpl; try reflexivity. rewrite matmul_scale_tensor. reflexivity.
Qed.

End EdgeWeights.

(** X2.  In the undirected layer, edge weights that are all 1 give the
    same result as no edge weights. *)
Theorem undirected_unit_edge_weights
    (L : UndirectedGCNLayerConv.t) (g : DGLGraph) (feat : Tensor) (weight : ext_weight) :
  UndirectedGCNLayerConv.forward L g feat weight
    (Some (replicate (length (edges g)) 1%R)) None
  = UndirectedGCNLayerConv.forward L g feat weight None None.
Proof.
  unfold UndirectedGCNLayerConv.forward, mult_then_aggregate, aggregate_then_mult.
  cbn [rbind]. rewrite normalize_src_ok. cbn [rbind].
  destruct (pick_weight weight (UndirectedGCNLayerConv.weight L)) as [w|e]; cbn [rbind];
    [|reflexivity].
  destruct (Nat.ltb _ _).
  - destruct (apply_weight _ w) as [h|e]; cbn [rbind]; [|reflexivity].
    rewrite (message_passing_ones g h). reflexivity.
  - rewrite (message_passing_ones g). reflexivity.
Qed.

(** X3.  The degree normalisation does not look at the edge weights: in an
    undirected layer without bias and activation, multiplying every edge
    weight by c multiplies the output by c (and an exception stays the
    same exception). *)
Theorem undirected_edge_weight_homogeneous
    (L : UndirectedGCNLayerConv.t) (g : DGLGraph) (feat : Tensor) (weight : ext_weight)
    (edge_weight : list R) (c : R) :
  UndirectedGCNLayerConv.bias L = None ->
  UndirectedGCNLayerConv._activation L = None ->
  UndirectedGCNLayerConv.forward L g feat weight (Some (T.scale edge_weight c)) None
  = rmap (fun rst => scale_tensor rst c)
      (UndirectedGCNLayerConv.forward L g feat weight (Some edge_weight) None).
Proof.
  intros Hbias Hact.
  unfold UndirectedGCNLayerConv.forward, mult_then_aggregate, aggregate_then_mult.
  rewrite Hbias, Hact. cbn [rbind]. rewrite normalize_src_ok. cbn [rbind].
  destruct (pick_weight weight (UndirectedGCNLayerConv.weight L)) as [w|e];
    cbn [rbind rmap]; [|reflexivity].
  assert (Hnorm : forall t,
             scaled_dst (UndirectedGCNLayerConv._norm L) g (scale_tensor t c)
             = scale_tensor (scaled_dst (UndirectedGCNLayerConv._norm L) g t) c).
  { intros t. unfold scaled_dst. destruct (negb _); [|reflexivity].
    apply scale_rows_scale_tensor. }
  destruct (Nat.ltb _ _).
  - destruct (apply_weight _ w) as [h|e]; cbn [rbind rmap]; [|reflexivity].
    rewrite message_passing_scale.
    destruct (message_passing g h (Some edge_weight) (Some edge_weight)) as [r|e];
      cbn [rbind rmap]; [|reflexivity].
    rewrite !normalize_dst_ok. cbn [rbind rmap apply_bias apply_activation].
    rewrite Hnorm. reflexivity.
  - rewrite message_passing_scale.
    destruct (message_passing g _ (Some edge_weight) (Some edge_weight)) as [r|e];
      cbn [rbind rmap]; [|reflexivity].
    rewrite apply_weight_scale.
    destruct (apply_weight _ w) as [h|e]; cbn [rbind rmap]; [|reflexivity].
    rewrite !normalize_dst_ok. cbn [rbind rmap apply_bias apply_activation].
    rewrite Hnorm. reflexivity.
Qed.

Lemma undirected_edge_weight_homogeneous_witness :
  UndirectedGCNLayerConv.forward wide_layer one_edge feat22 (WTensor weight21)
    (Some (T.scale [2%R] 5)) None
  = rmap (fun rst => scale_tensor rst 5)
      (UndirectedGCNLayerConv.forward wide_layer one_edge feat22 (WTensor weight21)
         (Some [2%R]) None).
Proof.
  apply (undirected_edge_weight_homogeneous wide_layer one_edge feat22 (WTensor weight21)
           [2%R] 5); reflexivity.
Defined.

Section IsolatedNodes.

Lemma sum_at_no_incoming d i (msgs : list (nat * Vec)) :
  Forall (fun tm => fst tm <> i) msgs -> G.sum_at d i msgs = T.zeros d.
Proof.
  induction 1 as [|[t m] msgs Ht _ IH]; simpl; [reflexivity|].
  simpl in Ht. destruct (Nat.eqb_spec t i); [contradiction|exact IH].
Qed.

Lemma copy_src_targets g h i :
  no_incoming g i -> Forall (fun tm => fst tm <> i) (G.copy_src g h).
Proof.
  unfold no_incoming, G.copy_src. induction 1; simpl; constructor; assumption.
Qed.

Lemma u_mul_e_targets g h w i :
  no_incoming g i -> Forall (fun tm => fst tm <> i) (G.u_mul_e g h w).
Proof.
  unfold no_incoming, G.u_mul_e. intros H. revert w.
  induction H; intros [|we w]; simpl; constructor; auto.
Qed.

Lemma message_passing_no_incoming g h ew i :
  length h = num_nodes g -> edge_weights_fit g ew ->
  i < num_nodes g -> no_incoming g i ->
  exists rst, message_passing g h ew ew = Ok rst /\
              length rst = num_nodes g /\
              T.row rst i = T.zeros (T.width h).
Proof.
  intros Hh Hfit Hi Hno. rewrite message_passing_rows by exact Hh.
  destruct ew as [w|]; simpl;
    [unfold G.update_all_mul; rewrite (set_edata_fit g (Some w) w Hfit eq_refl);
     cbn [rbind]|];
    eexists;
    (split; [reflexivity|]); (split; [apply length_reduce_sum|]);
    unfold G.update_all_copy; rewrite row_reduce_sum by exact Hi;
    apply sum_at_no_incoming.
  - apply u_mul_e_targets, Hno.
  - apply copy_src_targets, Hno.
Qed.

Lemma row_scale_rows t norm i :
  i < length t -> i < length norm ->
  exists c, T.row (T.scale_rows t norm) i = T.scale (T.row t i) c.
Proof.
  unfold T.scale_rows, T.row. revert norm i.
  induction t as [|r t IH]; intros [|n norm] [|i] Ht Hn; simpl in *; try lia.
  - eexists; reflexivity.
  - apply IH; lia.
Qed.

Lemma row_scaled_dst_zeros norm g rst i d :
  i < num_nodes g -> length rst = num_nodes g -> T.row rst i = T.zeros d ->
  T.row (scaled_dst norm g rst) i = T.zeros d.
Proof.
  intros Hi Hlen Hrow. unfold scaled_dst. destruct (negb _); [|exact Hrow].
  destruct (row_scale_rows rst (dst_scale norm g) i) as [c Hc];
    [lia|rewrite length_dst_scale; exact Hi|].
  rewrite Hc, Hrow. apply scale_zeros.
Qed.

Lemma add_zeros_l b : T.add (T.zeros (length b)) b = b.
Proof.
  induction b as [|x b IH]; simpl; [reflexivity|].
  unfold T.add, T.zeros in *. simpl. rewrite IH. f_equal. ring.
Qed.

End IsolatedNodes.

(** X4.  A node without incoming edge is not reported: whatever
    [_allow_zero_in_degree] holds, the undirected layer (own weight, bias,
    no activation) returns on features of shape (N, din) and, if any, one
    edge weight for every edge, and the row of such a node is the bias. *)
Theorem undirected_zero_in_degree_row
    (L : UndirectedGCNLayerConv.t) (g : DGLGraph) (feat W : Tensor) (b : Vec)
    (edge_weight : option (list R)) (din dout : nat) (i : nat) :
  UndirectedGCNLayerConv.weight L = Some W ->
  UndirectedGCNLayerConv.bias L = Some b ->
  UndirectedGCNLayerConv._activation L = None ->
  G.valid g ->
  T.shape feat (num_nodes g) din ->
  T.shape W din dout ->
  edge_weights_fit g edge_weight ->
  length b = T.width W ->
  i < num_nodes g ->
  no_incoming g i ->
  exists rst,
    UndirectedGCNLayerConv.forward L g feat WNone edge_weight None = Ok rst /\
    T.row rst i = b.
Proof.
  intros Hweight Hbias Hact Hg Hf HW Hfit Hb Hi Hno.
  unfold UndirectedGCNLayerConv.forward. rewrite Hweight, Hbias, Hact.
  cbn [rbind of_param pick_weight]. rewrite normalize_src_ok. cbn [rbind].
  pose proof (shape_scaled_src (UndirectedGCNLayerConv._norm L) g feat din Hf) as Hf'.
  set (feat' := scaled_src (UndirectedGCNLayerConv._norm L) g feat) in *.
  pose proof (paths_agree g feat' (WTensor W) edge_weight din dout Hg Hf' HW) as Hpaths.
  destruct (message_passing_no_incoming g feat' edge_weight i (proj1 Hf') Hfit Hi Hno)
    as (agg & Hagg & Hlen & Hrow).
  assert (Hmid : aggregate_then_mult g feat' (WTensor W) edge_weight edge_weight
                 = Ok (T.matmul agg W)).
  { unfold aggregate_then_mult. rewrite Hagg. reflexivity. }
  eexists. split.
  - destruct (Nat.ltb _ _); rewrite ?Hpaths, Hmid; cbn [rbind];
      rewrite normalize_dst_ok; reflexivity.
  - unfold apply_bias, apply_activation, T.add_bias.
    rewrite row_map by (rewrite length_scaled_dst;
                        [exact Hi|unfold T.matmul; rewrite length_map; exact Hlen]).
    rewrite (row_scaled_dst_zeros _ g _ i (T.width W)).
    + rewrite <- Hb. apply add_zeros_l.
    + exact Hi.
    + unfold T.matmul. rewrite length_map. exact Hlen.
    + unfold T.matmul. rewrite row_map by lia. rewrite Hrow.
      apply vecmat_zeros. eapply rows_width, HW.
Qed.

Lemma undirected_zero_in_degree_row_witness :
  exists rst,
    UndirectedGCNLayerConv.forward path_layer path_graph path_feat WNone
      (Some [2; 3]%R) None = Ok rst /\
    T.row rst 0 = T.zeros 4.
Proof.
  apply (undirected_zero_in_degree_row path_layer path_graph path_feat identity4 (T.zeros 4)
           (Some [2; 3]%R) 4 4 0);
    try reflexivity; try (split; [reflexivity|repeat constructor]); try lia;
    repeat constructor; simpl; lia.
Defined.

Section Fusion.

Lemma lookup_map_Some {A B} (f : A -> B) (l : list A) i y :
  map f l !! i = Some y -> exists x, l !! i = Some x /\ y = f x.
Proof.
  revert i. induction l as [|a l IH]; intros [|i] H; simpl in *; try discriminate.
  - injection H as <-. eauto.
  - apply IH, H.
Qed.

Lemma sigmoid1_range y : (0 < T.sigmoid1 y < 1)%R.
Proof.
  unfold T.sigmoid1. pose proof (exp_pos (- y)) as He.
  assert (Hinv : (0 < / (1 + exp (- y)) < 1)%R).
  { split; [apply Rinv_0_lt_compat; lra|].
    rewrite <- Rinv_1. apply Rinv_lt_contravar; lra. }
  lra.
Qed.

Lemma convex_between s a b :
  (0 < s < 1)%R -> (Rmin a b <= s * a + (1 - s) * b <= Rmax a b)%R.
Proof.
  intros Hs. unfold Rmin, Rmax. destruct (Rle_dec a b); split; nra.
Qed.

End Fusion.

(** X5.  The fusion of bi_fuse is an elementwise convex combination: every
    entry of [gate * fw + (1 - gate) * bw] lies between the entries of the
    forward and the backward result at the same position. *)
Theorem fuse_between_directions
    (l : Linear) (rst_fw rst_bw : Tensor) (i j : nat) (r : Vec) (x : R) :
  BiFuseGCNLayerConv.fuse l rst_fw rst_bw !! i = Some r ->
  r !! j = Some x ->
  exists r_fw r_bw a b,
    rst_fw !! i = Some r_fw /\ r_fw !! j = Some a /\
    rst_bw !! i = Some r_bw /\ r_bw !! j = Some b /\
    (Rmin a b <= x <= Rmax a b)%R.
Proof.
  unfold BiFuseGCNLayerConv.fuse, T.tadd, T.tmul. intros Hi Hj.
  apply lookup_zip_with_Some in Hi as (p & q & -> & Hp & Hq).
  apply lookup_zip_with_Some in Hp as (gi & r_fw & -> & Hg & Hfw).
  apply lookup_zip_with_Some in Hq as (gi' & r_bw & -> & Hg' & Hbw).
  apply lookup_map_Some in Hg' as (gi2 & Hg2 & ->).
  assert (gi2 = gi) as -> by congruence.
  unfold T.add, T.mul, T.one_minus in Hj.
  apply lookup_zip_with_Some in Hj as (u & v & -> & Hu & Hv).
  apply lookup_zip_with_Some in Hu as (s & a & -> & Hs & Ha).
  apply lookup_zip_with_Some in Hv as (s' & b & -> & Hs' & Hb).
  apply lookup_map_Some in Hs' as (s2 & Hs2 & ->).
  assert (s2 = s) as -> by congruence.
  unfold BiFuseGCNLayerConv.fuse_gate, T.sigmoid in Hg.
  apply lookup_map_Some in Hg as (yi & _ & ->).
  apply lookup_map_Some in Hs as (y & _ & ->).
  exists r_fw, r_bw, a, b. repeat split; try assumption;
    apply convex_between, sigmoid1_range.
Qed.

Lemma fuse_between_directions_witness :
  exists r_fw r_bw a b,
    [[0]; [2]]%R !! 0 = Some r_fw /\ r_fw !! 0 = Some a /\
    [[3]; [0]]%R !! 0 = Some r_bw /\ r_bw !! 0 = Some b /\
    (Rmin a b
     <= nth 0 (T.row (BiFuseGCNLayerConv.fuse zero_gate [[0]; [2]] [[3]; [0]]) 0) 0
     <= Rmax a b)%R.
Proof.
  apply (fuse_between_directions zero_gate [[0]; [2]]%R [[3]; [0]]%R 0 0
           (T.row (BiFuseGCNLayerConv.fuse zero_gate [[0]; [2]] [[3]; [0]])%R 0));
    reflexivity.
Defined.

(** X6.  In the multiply-first path, without reverse edge weights, or with
    equal forward and reverse weights, bi_sep returns exactly the pair of
    the undirected layer on the graph and on the edge-reversed graph. *)
Theorem bi_sep_is_two_undirected_branches
    (m : BiSepGCNLayerConv.t) (g : DGLGraph) (feat : Tensor * Tensor)
    (edge_weight reverse_edge_weight : option (list R)) :
  Nat.ltb (BiSepGCNLayerConv._out_feats m) (BiSepGCNLayerConv._in_feats m) = true
  \/ reverse_edge_weight = None \/ edge_weight = reverse_edge_weight ->
  BiSepGCNLayerConv.forward m g feat WNone edge_weight reverse_edge_weight
  = two_undirected_branches m g feat edge_weight reverse_edge_weight.
Proof. apply bi_sep_two_branches. Qed.

Lemma bi_sep_is_two_undirected_branches_witness :
  BiSepGCNLayerConv.forward plain_bi_sep one_edge (unit_feat, unit_feat) WNone
    (Some [2%R]) None
  = two_undirected_branches plain_bi_sep one_edge (unit_feat, unit_feat) (Some [2%R]) None.
Proof.
  apply (bi_sep_is_two_undirected_branches plain_bi_sep one_edge (unit_feat, unit_feat)
           (Some [2%R]) None).
  right. left. reflexivity.
Defined.

(** X7.  In the multiply-first path, or with equal forward and reverse
    weights, bi_fuse returns the gated sum of the two results of the bi_sep
    computation with the same parameters on (feat, feat). *)
Theorem bi_fuse_is_fused_bi_sep
    (m : BiFuseGCNLayerConv.t) (g : DGLGraph) (feat : Tensor)
    (edge_weight reverse_edge_weight : option (list R)) :
  Nat.ltb (BiFuseGCNLayerConv._out_feats m) (BiFuseGCNLayerConv._in_feats m) = true
  \/ edge_weight = reverse_edge_weight ->
  BiFuseGCNLayerConv.forward m g feat WNone edge_weight reverse_edge_weight
  = fused_bi_sep m g feat edge_weight reverse_edge_weight.
Proof. apply bi_fuse_fused_bi_sep. Qed.

Lemma bi_fuse_is_fused_bi_sep_witness :
  BiFuseGCNLayerConv.forward plain_bi_fuse one_edge unit_feat WNone (Some [2%R]) (Some [2%R])
  = fused_bi_sep plain_bi_fuse one_edge unit_feat (Some [2%R]) (Some [2%R]).
Proof.
  apply (bi_fuse_is_fused_bi_sep plain_bi_fuse one_edge unit_feat (Some [2%R]) (Some [2%R])).
  right. reflexivity.
Defined.

Section Construction.

Variables (direction_option norm : string) (weight bias : bool)
          (activation : option (Tensor -> Tensor)) (allow_zero_in_degree : bool).
Hypothesis Hdir : valid_direction direction_option.
Hypothesis Hnorm : valid_norm norm.

Lemma norm_ok_true : norm_ok norm = true.
Proof. destruct Hnorm as [-> | [-> | ->]]; reflexivity. Qed.

Lemma layer_init_ok i o init :
  exists layer,
    GCNLayer.__init__ i o direction_option norm weight bias activation
      allow_zero_in_degree init = Ok layer /\
    layer_dims layer = (i, o) /\
    layer_direction layer = direction_option /\
    layer_activation layer = activation.
Proof.
  unfold GCNLayer.__init__, UndirectedGCNLayerConv.__init__,
    BiSepGCNLayerConv.__init__, BiFuseGCNLayerConv.__init__.
  rewrite norm_ok_true.
  destruct Hdir as [-> | [-> | ->]]; simpl; eexists; repeat split; reflexivity.
Qed.

Lemma hidden_layers_ok hs init ls :
  Forall (fun l => l < length hs) ls ->
  exists layers,
    GCN.hidden_layers ls hs direction_option norm weight bias activation
      allow_zero_in_degree init = Ok layers /\
    map layer_dims layers = map (fun l => (nth (l - 1) hs 0, nth l hs 0)) ls /\
    Forall (fun layer => layer_direction layer = direction_option) layers.
Proof.
  induction 1 as [|l ls Hl _ IH]; simpl.
  - exists []. repeat split; constructor.
  - unfold list_getitem.
    destruct (lookup_lt_is_Some_2 hs (l - 1)) as [a Ha]; [lia|].
    destruct (lookup_lt_is_Some_2 hs l) as [b Hb]; [lia|].
    rewrite Ha, Hb. simpl.
    destruct (layer_init_ok a b (init l)) as (layer & -> & Hd & Hdr & _). simpl.
    destruct IH as (layers & -> & Hds & Hdrs). simpl.
    exists (layer :: layers). repeat split.
    + simpl. rewrite Hd, Hds.
      rewrite (nth_lookup_Some _ _ 0 _ Ha), (nth_lookup_Some _ _ 0 _ Hb). reflexivity.
    + constructor; assumption.
Qed.

Lemma hidden_layers_short hs init k : forall a,
  1 <= a -> a - 1 < length hs -> length hs < a + k ->
  GCN.hidden_layers (seq a k) hs direction_option norm weight bias activation
    allow_zero_in_degree init = Err IndexError.
Proof.
  induction k as [|k IH]; intros a Ha Hprev Hlen; [lia|]. simpl.
  unfold list_getitem.
  destruct (lookup_lt_is_Some_2 hs (a - 1)) as [x Hx]; [lia|]. rewrite Hx. simpl.
  destruct (hs !! a) as [y|] eqn:Hy; simpl.
  - apply lookup_lt_Some in Hy.
    destruct (layer_init_ok x y (init a)) as (layer & -> & _). simpl.
    rewrite IH; [reflexivity|lia| |lia].
    replace (S a - 1) with a by lia. exact Hy.
  - reflexivity.
Qed.

Lemma list_last_ok (hs : list nat) :
  hs <> [] -> list_last hs = Ok (List.last hs 0).
Proof.
  intros Hne. unfold list_last.
  induction hs as [|h hs IH]; [congruence|].
  destruct hs as [|h' hs]; [reflexivity|].
  change (last (h :: h' :: hs)) with (last (h' :: hs)).
  change (List.last (h :: h' :: hs) 0) with (List.last (h' :: hs) 0).
  apply IH. discriminate.
Qed.

Lemma init_with_widths n in_feats hs hidden_size out_feats use_edge_weight init :
  2 <= n -> n - 1 <= length hs ->
  GCN.hidden_sizes n hidden_size = hs ->
  exists gcn,
    GCN.__init__ n in_feats hidden_size out_feats direction_option norm weight bias
      activation allow_zero_in_degree use_edge_weight init = Ok gcn /\
    GCN.num_layers gcn = n /\
    length (GCN.gcn_layers gcn) = n /\
    map layer_dims (GCN.gcn_layers gcn)
    = (((in_feats, nth 0 hs 0)
        :: map (fun l => (nth (l - 1) hs 0, nth l hs 0)) (seq 1 (n - 2)))
       ++ [(List.last hs 0, out_feats)])%list /\
    Forall (fun layer => layer_direction layer = direction_option) (GCN.gcn_layers gcn).
Proof.
  intros Hn Hlen Hhs. unfold GCN.__init__. rewrite Hhs.
  destruct (Nat.ltb_spec 0 n); [|lia]. cbn [negb].
  destruct (Nat.ltb_spec 1 n); [|lia].
  unfold list_getitem at 1.
  destruct (lookup_lt_is_Some_2 hs 0) as [h0 Hh0]; [lia|]. rewrite Hh0. cbn [rbind].
  destruct (layer_init_ok in_feats h0 (init 0)) as (l0 & -> & Hd0 & Hdr0 & _).
  cbn [rbind].
  replace (n - 1 - 1) with (n - 2) by lia.
  destruct (hidden_layers_ok hs init (seq 1 (n - 2))) as (mid & -> & Hdm & Hdrm).
  { apply List.Forall_forall. intros l Hl. apply in_seq in Hl. lia. }
  cbn [rbind].
  rewrite list_last_ok by (intros ->; simpl in Hlen; lia). cbn [rbind].
  destruct (layer_init_ok (List.last hs 0) out_feats (init (n - 1)))
    as (lo & -> & Hdo & Hdro & _).
  cbn [rbind]. eexists. split; [reflexivity|]. cbn [GCN.num_layers GCN.gcn_layers].
  split; [reflexivity|]. split; [|split].
  - cbn [app length]. rewrite length_app.
    assert (length mid = n - 2) as ->.
    { rewrite <- (length_map layer_dims), Hdm, length_map, length_seq. reflexivity. }
    simpl. lia.
  - cbn [app map]. rewrite map_app, Hd0, Hdm. cbn [map]. rewrite Hdo.
    rewrite (nth_lookup_Some _ _ 0 _ Hh0). reflexivity.
  - cbn [app]. constructor; [exact Hdr0|].
    apply Forall_app. split; [exact Hdrm|]. constructor; [exact Hdro|constructor].
Qed.

End Construction.

(** X8.  [GCN.__init__] with an integer hidden size, a known direction
    option and normalisation and num_layers >= 1 builds exactly num_layers
    layers of that direction, whose sizes chain from in_feats over the
    hidden size to out_feats. *)
Theorem gcn_init_scalar_hidden_size
    (num_layers in_feats hidden out_feats : nat) (direction_option norm : string)
    (weight bias : bool) (activation : option (Tensor -> Tensor))
    (allow_zero_in_degree use_edge_weight : bool) (init : nat -> layer_init) :
  valid_direction direction_option ->
  valid_norm norm ->
  0 < num_layers ->
  exists gcn,
    GCN.__init__ num_layers in_feats (inl hidden) out_feats direction_option norm weight
      bias activation allow_zero_in_degree use_edge_weight init = Ok gcn /\
    length (GCN.gcn_layers gcn) = num_layers /\
    map layer_dims (GCN.gcn_layers gcn)
    = (if Nat.eqb num_layers 1 then [(in_feats, out_feats)]
       else (((in_feats, hidden) :: replicate (num_layers - 2) (hidden, hidden))
             ++ [(hidden, out_feats)])%list) /\
    Forall (fun layer => layer_direction layer = direction_option) (GCN.gcn_layers gcn).
Proof.
  intros Hdir Hnorm Hn.
  destruct (Nat.eqb_spec num_layers 1) as [->|Hne].
  - unfold GCN.__init__. cbn [Nat.ltb Nat.leb negb rbind Nat.sub seq GCN.hidden_layers].
    destruct (layer_init_ok direction_option norm weight bias activation allow_zero_in_degree
                Hdir Hnorm in_feats out_feats (init 0)) as (lo & -> & Hdo & Hdro & _).
    cbn [rbind]. eexists. split; [reflexivity|]. cbn [GCN.gcn_layers app length map].
    rewrite Hdo. repeat split. constructor; [exact Hdro|constructor].
  - destruct (init_with_widths direction_option norm weight bias activation
                allow_zero_in_degree Hdir Hnorm num_layers in_feats
                (replicate (num_layers - 1) hidden) (inl hidden) out_feats use_edge_weight init)
      as (gcn & Hinit & _ & Hlen & Hdims & Hdrs);
      [lia|rewrite length_replicate; lia|reflexivity|].
    exists gcn. split; [exact Hinit|]. split; [exact Hlen|]. split; [|exact Hdrs].
    rewrite Hdims. f_equal; [f_equal|].
    + destruct num_layers as [|[|n]]; try lia. reflexivity.
    + clear. assert (Hgen : forall a k m, a + k <= m -> 1 <= a ->
        map (fun l => (nth (l - 1) (replicate m hidden) 0, nth l (replicate m hidden) 0))
          (seq a k) = replicate k (hidden, hidden)).
      { intros a k. revert a. induction k as [|k IH]; intros a m Hle Ha; [reflexivity|].
        simpl. rewrite IH by lia. f_equal.
        rewrite !(nth_lookup_Some _ _ 0 hidden) by (apply lookup_replicate_2; lia).
        reflexivity. }
      destruct num_layers as [|[|n]]; try reflexivity.
      apply Hgen; lia.
    + destruct num_layers as [|[|n]]; try lia.
      replace (S (S n) - 1) with (S n) by lia. clear.
      induction n as [|n IH]; [reflexivity|].
      change (replicate (S (S n)) hidden) with (hidden :: replicate (S n) hidden).
      change (List.last (hidden :: replicate (S n) hidden) 0)
        with (List.last (replicate (S n) hidden) 0).
      rewrite IH. reflexivity.
Qed.

Lemma gcn_init_scalar_hidden_size_witness :
  exists gcn,
    GCN.__init__ 3 4 (inl 8) 2 "bi_sep" "both" true true None false false
      (same_init identity_init)
    = Ok gcn /\
    length (GCN.gcn_layers gcn) = 3 /\
    map layer_dims (GCN.gcn_layers gcn) = [(4, 8); (8, 8); (8, 2)] /\
    Forall (fun layer => layer_direction layer = "bi_sep") (GCN.gcn_layers gcn).
Proof.
  apply (gcn_init_scalar_hidden_size 3 4 8 2 "bi_sep" "both" true true None false false
           (same_init identity_init)).
  - right. left. reflexivity.
  - right. left. reflexivity.
  - lia.
Defined.

(** X9.  [GCN.__init__] with a list of at least num_layers - 1 hidden sizes
    (num_layers >= 2) builds num_layers layers: layer l maps
    hidden_size[l-1] to hidden_size[l], and the output projection reads the
    LAST element of the list, so that a longer list breaks the chain of
    sizes. *)
Theorem gcn_init_hidden_size_list
    (num_layers in_feats : nat) (hidden_size : list nat) (out_feats : nat)
    (direction_option norm : string) (weight bias : bool)
    (activation : option (Tensor -> Tensor))
    (allow_zero_in_degree use_edge_weight : bool) (init : nat -> layer_init) :
  valid_direction direction_option ->
  valid_norm norm ->
  2 <= num_layers ->
  num_layers - 1 <= length hidden_size ->
  exists gcn,
    GCN.__init__ num_layers in_feats (inr hidden_size) out_feats direction_option norm weight
      bias activation allow_zero_in_degree use_edge_weight init = Ok gcn /\
    length (GCN.gcn_layers gcn) = num_layers /\
    map layer_dims (GCN.gcn_layers gcn)
    = (((in_feats, nth 0 hidden_size 0)
        :: map (fun l => (nth (l - 1) hidden_size 0, nth l hidden_size 0))
             (seq 1 (num_layers - 2)))
       ++ [(List.last hidden_size 0, out_feats)])%list.
Proof.
  intros Hdir Hnorm Hn Hlen.
  destruct (init_with_widths direction_option norm weight bias activation
              allow_zero_in_degree Hdir Hnorm num_layers in_feats hidden_size
              (inr hidden_size) out_feats use_edge_weight init Hn Hlen eq_refl)
    as (gcn & Hinit & _ & Hlayers & Hdims & _).
  exists gcn. auto.
Qed.

Lemma gcn_init_hidden_size_list_witness :
  exists gcn,
    GCN.__init__ 2 4 (inr [8; 16]) 2 "undirected" "both" true true None false false
      (same_init identity_init) = Ok gcn /\
    length (GCN.gcn_layers gcn) = 2 /\
    map layer_dims (GCN.gcn_layers gcn) = [(4, 8); (16, 2)].
Proof.
  apply (gcn_init_hidden_size_list 2 4 [8; 16] 2 "undirected" "both" true true None false
           false (same_init identity_init)).
  - left. reflexivity.
  - right. left. reflexivity.
  - lia.
  - simpl. lia.
Defined.

(** X10.  [GCN.__init__] with a list of fewer than num_layers - 1 hidden
    sizes raises IndexError. *)
Theorem gcn_init_hidden_size_list_too_short
    (num_layers in_feats : nat) (hidden_size : list nat) (out_feats : nat)
    (direction_option norm : string) (weight bias : bool)
    (activation : option (Tensor -> Tensor))
    (allow_zero_in_degree use_edge_weight : bool) (init : nat -> layer_init) :
  valid_direction direction_option ->
  valid_norm norm ->
  length hidden_size < num_layers - 1 ->
  GCN.__init__ num_layers in_feats (inr hidden_size) out_feats direction_option norm weight
    bias activation allow_zero_in_degree use_edge_weight init = Err IndexError.
Proof.
  intros Hdir Hnorm Hlen. unfold GCN.__init__. cbn [GCN.hidden_sizes].
  destruct (Nat.ltb_spec 0 num_layers); [|lia]. cbn [negb].
  destruct (Nat.ltb_spec 1 num_layers); [|lia].
  unfold list_getitem at 1.
  destruct (hidden_size !! 0) as [h0|] eqn:Hh0; cbn [rbind]; [|reflexivity].
  apply lookup_lt_Some in Hh0.
  destruct (layer_init_ok direction_option norm weight bias activation allow_zero_in_degree
              Hdir Hnorm in_feats h0 (init 0)) as (l0 & -> & _).
  cbn [rbind].
  rewrite (hidden_layers_short direction_option norm weight bias activation
             allow_zero_in_degree Hdir Hnorm) by lia.
  reflexivity.
Qed.

Lemma gcn_init_hidden_size_list_too_short_witness :
  GCN.__init__ 3 4 (inr [8]) 2 "undirected" "both" true true None false false
    (same_init identity_init) = Err IndexError.
Proof.
  apply (gcn_init_hidden_size_list_too_short 3 4 [8] 2 "undirected" "both" true true None
           false false (same_init identity_init)).
  - left. reflexivity.
  - right. left. reflexivity.
  - simpl. lia.
Defined.

Section EncoderRows.

Lemma message_passing_returns_rows g h tested stored r :
  message_passing g h tested stored = Ok r -> length r = num_nodes g.
Proof.
  unfold message_passing.
  destruct (G.set_srcdata g h); cbn [rbind]; [|discriminate].
  destruct tested;
    [unfold G.update_all_mul; destruct (G.set_edata g stored); cbn [rbind]|];
    intros H; try discriminate; injection H as <-; apply length_reduce_sum.
Qed.

(** One direction of a layer, without activation: the rows of its result. *)
Lemma block_rows norm g feat w own (first : bool) t1 s1 t2 s2 bias X :
  (let* feat := normalize_src norm g feat in
   let* weight := pick_weight w own in
   let* rst :=
     if first
     then let* f := apply_weight feat weight in
          message_passing g f t1 s1
     else let* r := message_passing g feat t2 s2 in
          apply_weight r weight in
   let* rst := normalize_dst norm g rst in
   Ok (apply_activation (apply_bias rst bias) None)) = Ok X ->
  length X = num_nodes g.
Proof.
  rewrite normalize_src_ok. cbn [rbind].
  destruct (pick_weight w own) as [weight|]; cbn [rbind]; [|discriminate].
  destruct first.
  - destruct (apply_weight _ weight) as [f|]; cbn [rbind]; [|discriminate].
    destruct (message_passing g f t1 s1) as [r|] eqn:Hr; cbn [rbind]; [|discriminate].
    rewrite normalize_dst_ok. cbn [rbind].
    intros H. injection H as <-. simpl.
    rewrite length_apply_bias. apply length_scaled_dst.
    eapply message_passing_returns_rows, Hr.
  - destruct (message_passing g _ t2 s2) as [r|] eqn:Hr; cbn [rbind]; [|discriminate].
    destruct (apply_weight r weight) as [x|] eqn:Hx; cbn [rbind]; [|discriminate].
    rewrite normalize_dst_ok. cbn [rbind].
    intros H. injection H as <-. simpl.
    rewrite length_apply_bias. apply length_scaled_dst.
    rewrite (length_apply_weight _ _ _ Hx). eapply message_passing_returns_rows, Hr.
Qed.

Lemma undirected_rows m g h w ew rew X :
  UndirectedGCNLayerConv._activation m = None ->
  UndirectedGCNLayerConv.forward m g h w ew rew = Ok X -> length X = num_nodes g.
Proof.
  intros Hact H. unfold UndirectedGCNLayerConv.forward in H. rewrite Hact in H.
  destruct rew; cbn [rbind] in H; [discriminate|].
  eapply block_rows. exact H.
Qed.

Lemma bi_sep_rows m g h w ew rew X :
  BiSepGCNLayerConv._activation m = None ->
  BiSepGCNLayerConv.forward m g h w ew rew = Ok X ->
  length (fst X) = num_nodes g /\ length (snd X) = num_nodes g.
Proof.
  intros Hact H. unfold BiSepGCNLayerConv.forward in H.
  destruct h as [h_fw h_bw], (split_weight w) as [w_fw w_bw].
  destruct (BiSepGCNLayerConv.forward_direction m g h_fw w_fw ew) as [a|] eqn:Ha;
    cbn [rbind] in H; [|discriminate].
  destruct (BiSepGCNLayerConv.backward_direction m (G.reverse g) h_bw w_bw ew rew)
    as [b|] eqn:Hb; cbn [rbind] in H; [|discriminate].
  injection H as <-. simpl.
  unfold BiSepGCNLayerConv.forward_direction in Ha. rewrite Hact in Ha.
  unfold BiSepGCNLayerConv.backward_direction in Hb. rewrite Hact in Hb.
  split; [eapply block_rows; exact Ha|].
  change (num_nodes g) with (num_nodes (G.reverse g)). eapply block_rows; exact Hb.
Qed.

Lemma length_zip_same {A B C} (f : A -> B -> C) l k n :
  length l = n -> length k = n -> length (zip_with f l k) = n.
Proof. intros. rewrite length_zip_with. lia. Qed.

Lemma cat_last_pair a b : T.cat_last [a; b] = zip_with (fun x y => app x y) a b.
Proof. reflexivity. Qed.

Lemma length_fuse l a b n :
  length a = n -> length b = n -> length (BiFuseGCNLayerConv.fuse l a b) = n.
Proof.
  intros Ha Hb. unfold BiFuseGCNLayerConv.fuse, BiFuseGCNLayerConv.fuse_gate,
    T.tadd, T.tmul, T.tsub, T.sigmoid, linear.
  assert (Hcat : length (T.cat_last [a; b; zip_with T.mul a b; zip_with T.sub a b]) = n).
  { cbn [T.cat_last]. repeat apply length_zip_same; assumption. }
  apply length_zip_same; apply length_zip_same; rewrite ?length_map; assumption.
Qed.

Lemma bi_fuse_rows m g h w ew rew X :
  BiFuseGCNLayerConv._activation m = None ->
  BiFuseGCNLayerConv.forward m g h w ew rew = Ok X -> length X = num_nodes g.
Proof.
  intros Hact H. unfold BiFuseGCNLayerConv.forward in H.
  destruct (split_weight w) as [w_fw w_bw].
  destruct (BiFuseGCNLayerConv.forward_direction m g h w_fw ew) as [a|] eqn:Ha;
    cbn [rbind] in H; [|discriminate].
  destruct (BiFuseGCNLayerConv.backward_direction m (G.reverse g) h w_bw ew rew)
    as [b|] eqn:Hb; cbn [rbind] in H; [|discriminate].
  injection H as <-.
  unfold BiFuseGCNLayerConv.forward_direction in Ha. rewrite Hact in Ha.
  unfold BiFuseGCNLayerConv.backward_direction in Hb. rewrite Hact in Hb.
  apply length_fuse; [eapply block_rows; exact Ha|].
  change (num_nodes g) with (num_nodes (G.reverse g)). eapply block_rows; exact Hb.
Qed.

End EncoderRows.

(** X11.  When [GCN.forward] returns and the output projection has no
    activation, the returned graph is the input graph with one more node
    feature, 'node_emb', which has one row per node; topology, edge features
    and the other node features are unchanged. *)
Theorem gcn_forward_node_embedding (self : GCN.t) (graph graph' : GraphData) :
  (forall layer, last (GCN.gcn_layers self) = Some layer -> layer_activation layer = None) ->
  GCN.forward self graph = Ok graph' ->
  exists node_emb,
    node_features graph' = <["node_emb" := node_emb]> (node_features graph) /\
    length node_emb = num_nodes (topology graph) /\
    topology graph' = topology graph /\
    edge_features graph' = edge_features graph.
Proof.
  intros Hact H. rewrite forward_split in H.
  destruct (hidden self graph) as [h|]; cbn [rbind] in H; [|discriminate].
  unfold output_projection, list_last, to_dgl in H.
  destruct (last (GCN.gcn_layers self)) as [layer|]; cbn [rbind] in H; [|discriminate].
  specialize (Hact layer eq_refl).
  destruct (GCNLayer.forward layer (topology graph) h WNone None None) as [logits|] eqn:Hl;
    cbn [rbind] in H; [|discriminate].
  assert (Hrows : match logits with
                  | FTensor a => length a = num_nodes (topology graph)
                  | FPair a b => length a = num_nodes (topology graph) /\
                                 length b = num_nodes (topology graph)
                  end).
  { unfold GCNLayer.forward in Hl.
    destruct layer as [m|m|m], h as [x|x y]; try discriminate; simpl in Hact.
    - destruct (UndirectedGCNLayerConv.forward m _ x WNone None None) as [r|] eqn:Hr;
        cbn [rbind] in Hl; [|discriminate].
      injection Hl as <-. eapply undirected_rows; eassumption.
    - destruct (BiSepGCNLayerConv.forward m _ (x, y) WNone None None) as [r|] eqn:Hr;
        cbn [rbind] in Hl; [|discriminate].
      injection Hl as <-. eapply bi_sep_rows; eassumption.
    - destruct (BiFuseGCNLayerConv.forward m _ x WNone None None) as [r|] eqn:Hr;
        cbn [rbind] in Hl; [|discriminate].
      injection Hl as <-. eapply bi_fuse_rows; eassumption. }
  destruct (String.eqb _ _), logits as [a|a b]; cbn [rbind] in H; try discriminate;
    injection H as <-; cbn [node_features topology edge_features];
    eexists; (split; [reflexivity|]); (split; [|split; reflexivity]).
  - rewrite ?cat_last_pair. apply length_zip_same; apply Hrows.
  - exact Hrows.
Qed.

Lemma gcn_forward_node_embedding_witness :
  exists graph',
    GCN.forward single_layer_gcn (path_data [1; 1]%R) = Ok graph' /\
    exists node_emb,
      node_features graph' = <["node_emb" := node_emb]> (node_features (path_data [1; 1]%R)) /\
      length node_emb = 3 /\
      topology graph' = path_graph /\
      edge_features graph' = edge_features (path_data [1; 1]%R).
Proof.
  eexists. split; [reflexivity|].
  apply (gcn_forward_node_embedding single_layer_gcn (path_data [1; 1]%R)).
  - intros layer Hlast. injection Hlast as <-. reflexivity.
  - reflexivity.
Defined.

(** X13.  Without use_edge_weight, [GCN.forward] never reads the edge
    features: two graphs with the same topology and node features give the
    same node features (or the same exception), for any number of layers. *)
Theorem gcn_forward_ignores_edge_features_without_flag
    (self : GCN.t) (g1 g2 : GraphData) :
  GCN.use_edge_weight self = false ->
  topology g1 = topology g2 ->
  node_features g1 = node_features g2 ->
  node_outputs (GCN.forward self g1) = node_outputs (GCN.forward self g2).
Proof.
  intros Hflag Ht Hf. rewrite !forward_split.
  assert (Hh : hidden self g1 = hidden self g2).
  { unfold hidden, GCN.read_edge_weights, to_dgl. rewrite Hflag, Ht, Hf. reflexivity. }
  rewrite Hh. destruct (hidden self g2) as [h|]; cbn [rbind]; [|reflexivity].
  apply output_projection_frame; assumption.
Qed.

Lemma gcn_forward_ignores_edge_features_without_flag_witness :
  node_outputs (GCN.forward
                  {| GCN.num_layers := 2;
                     GCN.direction_option := "undirected";
                     GCN.gcn_layers := [GCNLayer.Undirected path_layer;
                                        GCNLayer.Undirected path_layer];
                     GCN.use_edge_weight := false |}
                  (path_data [1; 1]%R))
  = node_outputs (GCN.forward
                  {| GCN.num_layers := 2;
                     GCN.direction_option := "undirected";
                     GCN.gcn_layers := [GCNLayer.Undirected path_layer;
                                        GCNLayer.Undirected path_layer];
                     GCN.use_edge_weight := false |}
                  (path_data [5; 7]%R)).
Proof.
  apply gcn_forward_ignores_edge_features_without_flag; reflexivity.
Defined.

Section TrainingLoops.

Variables Model Batch : Type.
Variable train_batch : Batch -> Model -> result (Model * Q).
Variable eval : Model -> result Q.
Variable loader : list Batch.
Variable self_model : nat.

Let run_epoch := Training.run_epoch Model Batch train_batch loader self_model.
Let run_eval := Training.run_eval Model eval self_model.
Let train_loop := Training.train_loop Model Batch train_batch eval loader self_model.
Let train_jobs_loop :=
  Training.train_jobs_loop Model Batch train_batch eval loader self_model.

(** The loop of runner.py keeps [best_model] unset or equal to
    [self.model], and trains once per epoch. *)
Lemma train_loop_inv epochs : forall best_acc best_model s r,
  train_loop epochs best_acc best_model s = Training.Done r ->
  run_epochs train_batch loader self_model (length epochs) s = Training.Done (snd r) /\
  (snd (fst r) = best_model \/ snd (fst r) = Some self_model).
Proof.
  induction epochs as [|epoch rest IH]; intros best_acc best_model s r H.
  - simpl in H. injection H as <-. simpl. auto.
  - cbn [Training.train_loop train_loop] in H. unfold train_loop in H.
    cbn [Training.train_loop] in H. cbn [length run_epochs].
    destruct (Training.run_epoch Model Batch train_batch loader self_model s) as [s1|];
      cbn [Training.obind] in *; [|discriminate].
    match type of H with
    | Training.obind ?c _ = _ => destruct c as [[b bm]|] eqn:Hc
    end; cbn [Training.obind] in H; [|discriminate].
    apply IH in H as [Hrun Hbm]. split; [exact Hrun|].
    cbn [fst snd] in Hbm. destruct Hbm as [Hbm|Hbm]; [|auto].
    rewrite Hbm. clear - Hc.
    destruct (Nat.leb 5 epoch && Nat.eqb (epoch mod 10) 0).
    + destruct (Training.run_eval Model eval self_model s1) as [a|];
        cbn [Training.obind] in Hc; [|discriminate].
      destruct (negb (Qle_bool a best_acc)); injection Hc as _ <-; auto.
    + injection Hc as _ <-. auto.
Qed.

(** Without an evaluation that beats the initial accuracy, [best_model]
    stays unset. *)
Lemma train_loop_unset epochs : forall s r,
  Forall (fun epoch => epoch < 10) epochs \/
  (forall m a, eval m = Ok a -> (a <= 0)%Q) ->
  train_loop epochs 0%Q None s = Training.Done r ->
  snd (fst r) = None /\ fst (fst r) = 0%Q.
Proof.
  induction epochs as [|epoch rest IH]; intros s r Hcase H.
  - simpl in H. injection H as <-. auto.
  - unfold train_loop in H. cbn [Training.train_loop] in H.
    destruct (Training.run_epoch Model Batch train_batch loader self_model s) as [s1|];
      cbn [Training.obind] in *; [|discriminate].
    assert (Hstep :
      (if Nat.leb 5 epoch && Nat.eqb (epoch mod 10) 0
       then Training.obind (Training.run_eval Model eval self_model s1)
              (fun val_acc => if negb (Qle_bool val_acc 0)
                              then Training.Done (val_acc, Some self_model)
                              else Training.Done (0%Q, None))
       else Training.Done (0%Q, None)) = Training.Done (0%Q, None : option nat)
      \/ raised (if Nat.leb 5 epoch && Nat.eqb (epoch mod 10) 0
       then Training.obind (Training.run_eval Model eval self_model s1)
              (fun val_acc => if negb (Qle_bool val_acc 0)
                              then Training.Done (val_acc, Some self_model)
                              else Training.Done (0%Q, None))
       else Training.Done (0%Q, None : option nat))).
    { destruct (Nat.leb 5 epoch && Nat.eqb (epoch mod 10) 0) eqn:Hev; [|auto].
      destruct Hcase as [Hlt|Hzero].
      - exfalso. inversion_clear Hlt as [|? ? He _].
        apply andb_prop in Hev as [H5 H10].
        apply Nat.leb_le in H5. apply Nat.eqb_eq in H10.
        assert (epoch = 10 * (epoch / 10) + epoch mod 10) by (apply Nat.div_mod; lia).
        assert (epoch / 10 = 0) by (apply Nat.div_small; lia). lia.
      - unfold Training.run_eval. destruct (s1 !! self_model) as [m|]; [|right; exact I].
        destruct (eval m) as [a|] eqn:Ha; [|right; exact I].
        cbn [Training.lift Training.obind].
        apply Hzero in Ha. apply Qle_bool_iff in Ha. rewrite Ha. auto. }
    destruct Hstep as [Hstep|Hstep].
    + rewrite Hstep in H. cbn [Training.obind fst snd] in H.
      apply IH in H; [exact H|].
      destruct Hcase as [Hlt|Hzero]; [left; inversion Hlt; assumption|right; exact Hzero].
    + match type of Hstep with raised ?c => destruct c end;
        [destruct Hstep|discriminate].
Qed.

(** The loop of runner_jobs.py never lowers the best accuracy, and the
    accuracy of every evaluated epoch is at most the best one. *)
Lemma train_jobs_loop_inv k : forall a best_acc s r,
  1 <= a ->
  train_jobs_loop (seq a k) best_acc s = Training.Done r ->
  (best_acc <= fst r)%Q /\
  forall j, 1 <= j <= k -> (a + j - 1) mod 5 = 0 ->
    exists s_j m acc,
      run_epochs train_batch loader self_model j s = Training.Done s_j /\
      s_j !! self_model = Some m /\ eval m = Ok acc /\ (acc <= fst r)%Q.
Proof.
  induction k as [|k IH]; intros a best_acc s r Ha H.
  - simpl in H. injection H as <-. split; [apply Qle_refl|]. intros j Hj. lia.
  - unfold train_jobs_loop in H. cbn [seq Training.train_jobs_loop] in H.
    cbn [run_epochs].
    destruct (Training.run_epoch Model Batch train_batch loader self_model s) as [s1|]
      eqn:Hs1; cbn [Training.obind] in *; [|discriminate].
    match type of H with
    | Training.obind ?c _ = _ => destruct c as [b|] eqn:Hc
    end; cbn [Training.obind] in H; [|discriminate].
    apply IH in H as [Hle Hrest]; [|lia].
    assert (Hb : (best_acc <= b)%Q /\
                 (a mod 5 = 0 ->
                  exists m acc, s1 !! self_model = Some m /\ eval m = Ok acc /\
                                (acc <= b)%Q)).
    { destruct (Nat.ltb 2 a && Nat.eqb (a mod 5) 0) eqn:Hev.
      - unfold Training.run_eval in Hc.
        destruct (s1 !! self_model) as [m|]; [|discriminate].
        destruct (eval m) as [acc|] eqn:Hacc; cbn [Training.lift Training.obind] in Hc;
          [|discriminate].
        destruct (Qle_bool acc best_acc) eqn:Hq; cbn [negb] in Hc; injection Hc as <-.
        + apply Qle_bool_iff in Hq. split; [apply Qle_refl|].
          intros _. exists m, acc. split; [reflexivity|]. split; [exact Hacc|exact Hq].
        + assert (~ (acc <= best_acc)%Q) as Hn.
          { intros Hq'. apply Qle_bool_iff in Hq'. congruence. }
          apply Qnot_le_lt in Hn. split; [apply Qlt_le_weak, Hn|].
          intros _. exists m, acc. split; [reflexivity|].
          split; [exact Hacc|apply Qle_refl].
      - injection Hc as <-. split; [apply Qle_refl|].
        intros Hmod. exfalso.
        apply andb_false_iff in Hev as [Hev|Hev].
        + apply Nat.ltb_ge in Hev.
          assert (a = 5 * (a / 5) + a mod 5) by (apply Nat.div_mod; lia).
          assert (a / 5 = 0) by (apply Nat.div_small; lia). lia.
        + apply Nat.eqb_neq in Hev. contradiction. }
    destruct Hb as [Hb1 Hb2]. split; [eapply Qle_trans; eassumption|].
    intros j Hj Hmod. destruct (Nat.eq_dec j 1) as [->|Hj1].
    + replace (a + 1 - 1) with a in Hmod by lia.
      destruct (Hb2 Hmod) as (m & acc & Hm & Hacc & Hq).
      exists s1, m, acc. split; [cbn [run_epochs]; rewrite Hs1; reflexivity|].
      split; [exact Hm|].
      split; [exact Hacc|eapply Qle_trans; eassumption].
    + destruct j as [|j]; [lia|].
      destruct (Hrest j) as (s_j & m & acc & Hrun & Hm & Hacc & Hq); [lia| |].
      { replace (S a + j - 1) with (a + S j - 1) by lia. exact Hmod. }
      exists s_j, m, acc. cbn [run_epochs]. rewrite Hs1. cbn [Training.obind]. auto.
Qed.

End TrainingLoops.

(** X14.  [train] of runner.py ends in an exception whenever no evaluation
    beats the initial best accuracy 0.0, in particular when max_epochs < 10
    (no epoch is evaluated) or when every measured accuracy is 0:
    [best_model] is still [None] when its checkpoint is to be saved. *)
Theorem train_without_improvement_raises
    (Model Batch : Type) (train_batch : Batch -> Model -> result (Model * Q))
    (eval : Model -> result Q) (loader : list Batch) (self_model max_epochs : nat)
    (s : gmap nat Model) :
  max_epochs < 10 \/ (forall m a, eval m = Ok a -> (a <= 0)%Q) ->
  raised (Training.train Model Batch train_batch eval loader self_model max_epochs s).
Proof.
  intros Hcase. unfold Training.train.
  destruct (Training.train_loop Model Batch train_batch eval loader self_model
              (seq 1 max_epochs) 0 None s) as [r|] eqn:Hloop; [|exact I].
  apply train_loop_unset in Hloop as [Hnone _].
  - cbn [Training.obind]. rewrite Hnone. exact I.
  - destruct Hcase as [Hlt|Hzero]; [left|right; exact Hzero].
    apply List.Forall_forall. intros e He. apply in_seq in He. lia.
Qed.

Lemma train_without_improvement_raises_witness :
  raised (Training.train nat unit count_step (fixed_accuracy 1) [tt] 7 9 counter_store).
Proof.
  apply (train_without_improvement_raises nat unit count_step (fixed_accuracy 1) [tt] 7 9
           counter_store).
  left. lia.
Defined.

(** X15.  [best_model] of runner.py's [train] is a reference to
    [self.model]: when [train] returns, the checkpoint written holds the
    parameters after the last epoch, whichever epoch had the best accuracy. *)
Theorem train_saves_final_model
    (Model Batch : Type) (train_batch : Batch -> Model -> result (Model * Q))
    (eval : Model -> result Q) (loader : list Batch) (self_model max_epochs : nat)
    (s : gmap nat Model) (checkpoint : Model) (best_acc : Q) :
  Training.train Model Batch train_batch eval loader self_model max_epochs s
  = Training.Done (checkpoint, best_acc) ->
  exists s',
    run_epochs train_batch loader self_model max_epochs s = Training.Done s' /\
    s' !! self_model = Some checkpoint.
Proof.
  unfold Training.train. intros H.
  destruct (Training.train_loop Model Batch train_batch eval loader self_model
              (seq 1 max_epochs) 0 None s) as [[[b bm] s']|] eqn:Hloop;
    cbn [Training.obind] in H; [|discriminate].
  apply train_loop_inv in Hloop as [Hrun Hbm]. rewrite length_seq in Hrun.
  cbn [fst snd] in *. exists s'. split; [exact Hrun|].
  unfold Training.save_checkpoint in H.
  destruct Hbm as [-> | ->]; [discriminate|].
  destruct (s' !! self_model) as [m|]; cbn [Training.obind] in H; [|discriminate].
  injection H as -> _. reflexivity.
Qed.

Lemma train_saves_final_model_witness :
  exists s',
    run_epochs count_step [tt] 7 10 counter_store = Training.Done s' /\
    s' !! 7 = Some 10.
Proof.
  apply (train_saves_final_model nat unit count_step (fixed_accuracy 1) [tt] 7 10
           counter_store 10 1%Q).
  vm_compute. reflexivity.
Defined.

(** X16.  [train] of runner_jobs.py returns an accuracy that is at least -1
    and at least the accuracy measured after every epoch that is a multiple
    of 5. *)
Theorem train_jobs_best_accuracy
    (Model Batch : Type) (train_batch : Batch -> Model -> result (Model * Q))
    (eval : Model -> result Q) (loader : list Batch) (self_model max_epochs : nat)
    (s : gmap nat Model) (best_acc : Q) :
  Training.train_jobs Model Batch train_batch eval loader self_model max_epochs s
  = Training.Done best_acc ->
  (-1 <= best_acc)%Q /\
  forall epoch, 1 <= epoch <= max_epochs -> epoch mod 5 = 0 ->
    exists s' m acc,
      run_epochs train_batch loader self_model epoch s = Training.Done s' /\
      s' !! self_model = Some m /\ eval m = Ok acc /\ (acc <= best_acc)%Q.
Proof.
  unfold Training.train_jobs. intros H.
  destruct (Training.train_jobs_loop Model Batch train_batch eval loader self_model
              (seq 1 max_epochs) (-1) s) as [r|] eqn:Hloop;
    cbn [Training.obind] in H; [|discriminate].
  injection H as <-.
  apply train_jobs_loop_inv in Hloop as [Hle Hall]; [|lia].
  split; [exact Hle|]. intros epoch He Hmod. apply Hall; [lia|].
  replace (1 + epoch - 1) with epoch by lia. exact Hmod.
Qed.

Lemma train_jobs_best_accuracy_witness :
  ((-1 <= 1 # 2)%Q) /\
  forall epoch, 1 <= epoch <= 6 -> epoch mod 5 = 0 ->
    exists s' m acc,
      run_epochs count_step [tt] 7 epoch counter_store = Training.Done s' /\
      s' !! 7 = Some m /\ fixed_accuracy (1 # 2) m = Ok acc /\ (acc <= 1 # 2)%Q.
Proof.
  apply (train_jobs_best_accuracy nat unit count_step (fixed_accuracy (1 # 2)) [tt] 7 6
           counter_store (1 # 2)).
  vm_compute. reflexivity.
Defined.

(** X17.  With an empty training loader both training loops raise
    ZeroDivisionError in the first epoch: the mean loss divides by the
    number of batches. *)
Theorem train_on_empty_loader_raises
    (Model Batch : Type) (train_batch : Batch -> Model -> result (Model * Q))
    (eval : Model -> result Q) (self_model max_epochs : nat) (s : gmap nat Model) :
  0 < max_epochs ->
  is_Some (s !! self_model) ->
  Training.train Model Batch train_batch eval [] self_model max_epochs s
  = Training.Raise Training.ZeroDivisionError /\
  Training.train_jobs Model Batch train_batch eval [] self_model max_epochs s
  = Training.Raise Training.ZeroDivisionError.
Proof.
  intros Hn [m Hm]. destruct max_epochs as [|n]; [lia|].
  unfold Training.train, Training.train_jobs.
  cbn [seq Training.train_loop Training.train_jobs_loop].
  unfold Training.run_epoch. rewrite Hm. split; reflexivity.
Qed.

Lemma train_on_empty_loader_raises_witness :
  Training.train nat unit count_step (fixed_accuracy 1) [] 7 20 counter_store
  = Training.Raise Training.ZeroDivisionError /\
  Training.train_jobs nat unit count_step (fixed_accuracy 1) [] 7 20 counter_store
  = Training.Raise Training.ZeroDivisionError.
Proof.
  apply (train_on_empty_loader_raises nat unit count_step (fixed_accuracy 1) 7 20
           counter_store).
  - lia.
  - vm_compute. eauto.
Defined.

Section TokenIds.

Variable s0 : gmap nat obj.
Variable oov : nat.

Lemma tracks_inv s d :
  tracks_dict s0 oov s d ->
  exists a b n unk r,
    s !! oov = Some (OVocab a b n unk) /\
    s !! a = Some (ODictStrInt d) /\
    s !! b = Some (ODictIntStr r) /\
    is_Some (d !! unk).
Proof.
  intros [(a & b & n & unk & d' & r & Hv & Ha & Hb & Hunk & _) Hd].
  unfold Vocab.symbol2idx in Hd. rewrite Hv, Ha in Hd. injection Hd as <-.
  exists a, b, n, unk, r. auto.
Qed.

Lemma get_symbol_idx_tracks s d t :
  tracks_dict s0 oov s d ->
  exists i, Vocab.get_symbol_idx oov t s = Ok (i, s) /\
            (d !! t = Some i \/
             (d !! t = None /\
              exists a b n unk, s !! oov = Some (OVocab a b n unk) /\ d !! unk = Some i)).
Proof.
  intros Ht. destruct (tracks_inv s d Ht) as (a & b & n & unk & r & Hv & Ha & Hb & [u Hu]).
  unfold Vocab.get_symbol_idx, mbind', Vocab.read_vocab, Vocab.read_symbol2idx.
  rewrite Hv, Ha. destruct (d !! t) as [i|] eqn:Hdt.
  - exists i. split; [reflexivity|left; reflexivity].
  - unfold Vocab.lookup_key. rewrite Hu. exists u. split; [reflexivity|].
    right. split; [reflexivity|]. exists a, b, n, unk. auto.
Qed.

Lemma add_symbol_tracks s d t :
  tracks_dict s0 oov s d ->
  exists i s' d',
    Vocab.add_symbol oov t s = Ok (i, s') /\ tracks_dict s0 oov s' d' /\
    d ⊆ d' /\ d' !! t = Some i.
Proof.
  intros Ht. pose proof Ht as [Hiso Hd].
  destruct (tracks_inv s d Ht) as (a & b & n & unk & r & Hv & Ha & Hb & Hunk).
  destruct (add_symbol_isolated s0 oov s t Hiso) as (i & s' & Hadd & Hiso').
  unfold Vocab.add_symbol, mbind', Vocab.read_vocab, Vocab.read_symbol2idx,
    Vocab.read_idx2symbol in Hadd.
  rewrite Hv, Ha, Hb in Hadd. destruct (d !! t) as [j|] eqn:Hdt.
  - injection Hadd as <- <-. exists j, s, d.
    split; [|split; [exact Ht|split; [reflexivity|exact Hdt]]].
    unfold Vocab.add_symbol, mbind', Vocab.read_vocab, Vocab.read_symbol2idx,
      Vocab.read_idx2symbol. rewrite Hv, Ha, Hb, Hdt. reflexivity.
  - unfold Vocab.write, mret in Hadd. injection Hadd as <- <-.
    eexists n, _, (<[t := n]> d). split.
    + unfold Vocab.add_symbol, mbind', Vocab.read_vocab, Vocab.read_symbol2idx,
        Vocab.read_idx2symbol. rewrite Hv, Ha, Hb, Hdt. reflexivity.
    + split; [|split; [apply insert_subseteq, Hdt|apply lookup_insert_eq]].
      split; [exact Hiso'|].
      assert (oov <> a) by congruence. assert (oov <> b) by congruence.
      assert (a <> b) by congruence.
      unfold Vocab.symbol2idx. rewrite lookup_insert_eq.
      rewrite !lookup_insert_ne by done. rewrite lookup_insert_eq. reflexivity.
Qed.

Lemma visit_node_tracks s d n :
  tracks_dict s0 oov s d ->
  exists i s' d',
    Jobs.visit_node oov n s = Ok (i, s') /\ tracks_dict s0 oov s' d' /\ d ⊆ d' /\
    (is_word n -> d' !! token n = Some i).
Proof.
  intros Ht. unfold Jobs.visit_node.
  destruct (tracks_inv s d Ht) as (a & b & k & unk & r & Hv & Ha & Hb & [u Hu]).
  destruct (get_symbol_idx_tracks s d (token n) Ht) as (i & Hget & Hi).
  destruct (get_symbol_idx_tracks s d unk Ht) as (u' & Hgetu & Hu').
  assert (u' = u) as ->.
  { destruct Hu' as [Hu'|[Hu' _]]; congruence. }
  (* the final lookup, in a store whose dictionary has grown *)
  assert (Hfinal : forall s' d', tracks_dict s0 oov s' d' -> is_Some (d' !! token n) ->
            exists j, Vocab.get_symbol_idx oov (token n) s' = Ok (j, s') /\
                      d' !! token n = Some j).
  { intros s' d' Ht' [j Hj].
    destruct (get_symbol_idx_tracks s' d' (token n) Ht') as (j' & Hg & [Hj'|[Hj' _]]);
      [|congruence].
    exists j'. auto. }
  assert (Hword : exists i' s' d',
    mbind' (mbind' (Vocab.get_symbol_idx oov (token n)) (fun i =>
            mbind' (Vocab.read_vocab oov) (fun '(_, _, _, unk) =>
            mbind' (Vocab.get_symbol_idx oov unk) (fun u => mret (Z.eqb i u)))))
      (fun is_oov =>
         mbind' (if is_oov : bool
                 then mbind' (Vocab.add_symbol oov (token n)) (fun _ => mret tt)
                 else mret tt)
           (fun _ => Vocab.get_symbol_idx oov (token n))) s = Ok (i', s') /\
    tracks_dict s0 oov s' d' /\ d ⊆ d' /\ d' !! token n = Some i').
  { unfold mbind' at 1 2. rewrite Hget.
    unfold mbind' at 1. unfold Vocab.read_vocab at 1. rewrite Hv.
    unfold mbind' at 1. rewrite Hgetu. unfold mret at 1.
    destruct (Z.eqb_spec i u) as [->|Hne].
    - destruct (add_symbol_tracks s d (token n) Ht) as (j & s' & d' & Hadd & Ht' & Hsub & Hj).
      unfold mbind' at 1 2. rewrite Hadd. unfold mret at 1.
      destruct (Hfinal s' d' Ht' ltac:(eauto)) as (j' & -> & Hj').
      exists j', s', d'. auto.
    - destruct Hi as [Hi|[Hnone (a' & b' & k' & unk' & Hv' & Hunk')]].
      + unfold mbind' at 1. unfold mret at 1.
        destruct (Hfinal s d Ht ltac:(eauto)) as (j' & -> & Hj').
        exists j', s, d. auto.
      + exfalso. rewrite Hv in Hv'. injection Hv' as <- <- <- <-. congruence. }
  destruct (type n) as [[|p|p]|] eqn:Hty.
  - destruct Hword as (i' & s' & d' & Hrun & Ht' & Hsub & Hi').
    exists i', s', d'. split; [exact Hrun|]. auto.
  - cbv beta iota delta [mbind' mret]. rewrite Hget.
    exists i, s, d. split; [reflexivity|]. split; [exact Ht|]. split; [reflexivity|].
    unfold is_word. intros [Hw|Hw]; congruence.
  - cbv beta iota delta [mbind' mret]. rewrite Hget.
    exists i, s, d. split; [reflexivity|]. split; [exact Ht|]. split; [reflexivity|].
    unfold is_word. intros [Hw|Hw]; congruence.
  - destruct Hword as (i' & s' & d' & Hrun & Ht' & Hsub & Hi').
    exists i', s', d'. split; [exact Hrun|]. auto.
Qed.

Lemma visit_nodes_tracks ns : forall s d,
  tracks_dict s0 oov s d ->
  exists ids s' d',
    Jobs.visit_nodes oov ns s = Ok (ids, s') /\ tracks_dict s0 oov s' d' /\ d ⊆ d' /\
    Forall2 (fun n i => is_word n -> d' !! token n = Some i) ns ids.
Proof.
  induction ns as [|n ns IH]; intros s d Ht; simpl.
  - exists [], s, d. split; [reflexivity|]. split; [exact Ht|].
    split; [reflexivity|constructor].
  - destruct (visit_node_tracks s d n Ht) as (i & s1 & d1 & Hv & Ht1 & Hsub1 & Hi).
    destruct (IH s1 d1 Ht1) as (ids & s2 & d2 & Hvs & Ht2 & Hsub2 & Hall).
    unfold mbind'. rewrite Hv, Hvs. exists (i :: ids), s2, d2.
    split; [reflexivity|]. split; [exact Ht2|].
    split; [etransitivity; eassumption|].
    constructor; [|exact Hall].
    intros Hw. eapply lookup_weaken; [apply Hi, Hw|exact Hsub2].
Qed.

End TokenIds.

Section PrepareExtVocab.

Lemma deepcopy_tracks s0 src :
  Vocab.valid s0 src ->
  exists oov sc d0,
    Vocab.deepcopy src s0 = Ok (oov, sc) /\
    Vocab.symbol2idx s0 src = Some d0 /\ tracks_dict s0 oov sc d0.
Proof.
  intros Hvalid. pose proof Hvalid as (a & b & n & unk & d & r & Hv & Ha & Hb & Hunk).
  destruct (deepcopy_isolated s0 src Hvalid) as (oov & sc & Hcopy & Hiso).
  exists oov, sc, d. split; [exact Hcopy|].
  split; [unfold Vocab.symbol2idx; rewrite Hv, Ha; reflexivity|].
  split; [exact Hiso|].
  unfold Vocab.deepcopy, mbind', Vocab.read_vocab, Vocab.read_symbol2idx,
    Vocab.read_idx2symbol, Vocab.alloc in Hcopy.
  rewrite Hv, Ha, Hb in Hcopy. injection Hcopy as <- <-.
  set (a' := fresh (dom s0)).
  set (s1 := <[a' := ODictStrInt d]> s0).
  set (b' := fresh (dom s1)).
  set (s2 := <[b' := ODictIntStr r]> s1).
  set (o' := fresh (dom s2)).
  assert (Hb' : b' ∉ dom s1) by apply is_fresh.
  assert (Ho' : o' ∉ dom s2) by apply is_fresh.
  unfold s2 in Ho'. rewrite dom_insert_L in Ho'.
  unfold s1 in Hb', Ho'. rewrite dom_insert_L in Hb', Ho'.
  assert (o' <> a') by set_solver. assert (b' <> a') by set_solver.
  unfold Vocab.symbol2idx. rewrite lookup_insert_eq.
  rewrite lookup_insert_ne by done. unfold s2. rewrite lookup_insert_ne by done.
  unfold s1. rewrite lookup_insert_eq. reflexivity.
Qed.

Lemma prepare_ext_vocab_core s0 batch_graph src :
  Vocab.valid s0 src ->
  exists oov ids s1 d0 d,
    Jobs.prepare_ext_vocab batch_graph src s0
    = Ok ((oov, {| node_attributes := node_attributes batch_graph;
                   token_id_oov := Some ids |}), s1) /\
    Vocab.symbol2idx s0 src = Some d0 /\
    Vocab.symbol2idx s1 oov = Some d /\
    d0 ⊆ d /\
    Forall2 (fun n i => is_word n -> d !! token n = Some i)
      (node_attributes batch_graph) ids.
Proof.
  intros Hvalid.
  destruct (deepcopy_tracks s0 src Hvalid) as (oov & sc & d0 & Hcopy & Hd0 & Ht).
  destruct (visit_nodes_tracks s0 oov (node_attributes batch_graph) sc d0 Ht)
    as (ids & s1 & d & Hvisit & [_ Hd] & Hsub & Hall).
  exists oov, ids, s1, d0, d.
  split; [|auto].
  unfold Jobs.prepare_ext_vocab, mbind'. rewrite Hcopy, Hvisit. reflexivity.
Qed.

End PrepareExtVocab.

(** X18.  [prepare_ext_vocab] on a well-formed base vocabulary returns a
    batch graph with the same node attributes and one token id per node;
    the id of every word node (type None or 0) is the index of its token in
    the returned vocabulary. *)
Theorem prepare_ext_vocab_token_ids (s0 : gmap nat obj) (batch_graph : BatchGraph)
    (src_vocab : nat) :
  Vocab.valid s0 src_vocab ->
  exists oov_dict batch_graph' s1 ids d,
    Jobs.prepare_ext_vocab batch_graph src_vocab s0 = Ok ((oov_dict, batch_graph'), s1) /\
    node_attributes batch_graph' = node_attributes batch_graph /\
    token_id_oov batch_graph' = Some ids /\
    Vocab.symbol2idx s1 oov_dict = Some d /\
    Forall2 (fun n i => is_word n -> d !! token n = Some i)
      (node_attributes batch_graph) ids.
Proof.
  intros Hvalid.
  destruct (prepare_ext_vocab_core s0 batch_graph src_vocab Hvalid)
    as (oov & ids & s1 & d0 & d & Hrun & _ & Hd & _ & Hall).
  eexists oov, _, s1, ids, d. split; [exact Hrun|]. auto.
Qed.

Lemma prepare_ext_vocab_token_ids_witness :
  exists oov_dict batch_graph' s1 ids d,
    Jobs.prepare_ext_vocab one_token_batch 0 base_store = Ok ((oov_dict, batch_graph'), s1) /\
    node_attributes batch_graph' = node_attributes one_token_batch /\
    token_id_oov batch_graph' = Some ids /\
    Vocab.symbol2idx s1 oov_dict = Some d /\
    Forall2 (fun n i => is_word n -> d !! token n = Some i)
      (node_attributes one_token_batch) ids.
Proof.
  apply (prepare_ext_vocab_token_ids base_store one_token_batch 0).
  exists 1, 2, 2%Z, "<unk>",
    (<["<unk>" := 0%Z]> (<["a" := 1%Z]> ∅)), (<[0%Z := "<unk>"]> (<[1%Z := "a"]> ∅)).
  repeat split; try reflexivity. exists 0%Z. reflexivity.
Defined.

(** X19.  Every symbol of the base vocabulary keeps its index in the
    vocabulary [prepare_ext_vocab] returns. *)
Theorem prepare_ext_vocab_extends_base (s0 : gmap nat obj) (batch_graph : BatchGraph)
    (src_vocab : nat) :
  Vocab.valid s0 src_vocab ->
  exists oov_dict batch_graph' s1 d0 d,
    Jobs.prepare_ext_vocab batch_graph src_vocab s0 = Ok ((oov_dict, batch_graph'), s1) /\
    Vocab.symbol2idx s0 src_vocab = Some d0 /\
    Vocab.symbol2idx s1 oov_dict = Some d /\
    forall symbol i, d0 !! symbol = Some i -> d !! symbol = Some i.
Proof.
  intros Hvalid.
  destruct (prepare_ext_vocab_core s0 batch_graph src_vocab Hvalid)
    as (oov & ids & s1 & d0 & d & Hrun & Hd0 & Hd & Hsub & _).
  eexists oov, _, s1, d0, d. split; [exact Hrun|]. split; [exact Hd0|].
  split; [exact Hd|]. intros symbol i Hi. eapply lookup_weaken; eassumption.
Qed.

Lemma prepare_ext_vocab_extends_base_witness :
  exists oov_dict batch_graph' s1 d0 d,
    Jobs.prepare_ext_vocab one_token_batch 0 base_store = Ok ((oov_dict, batch_graph'), s1) /\
    Vocab.symbol2idx base_store 0 = Some d0 /\
    Vocab.symbol2idx s1 oov_dict = Some d /\
    forall symbol i, d0 !! symbol = Some i -> d !! symbol = Some i.
Proof.
  apply (prepare_ext_vocab_extends_base base_store one_token_batch 0).
  exists 1, 2, 2%Z, "<unk>",
    (<["<unk>" := 0%Z]> (<["a" := 1%Z]> ∅)), (<[0%Z := "<unk>"]> (<[1%Z := "a"]> ∅)).
  repeat split; try reflexivity. exists 0%Z. reflexivity.
Defined.

Section RepairErrors.

Lemma count_symbol_missing idx2symbol sym candidate :
  Exists (fun c => idx2symbol !! c = None) candidate ->
  Jobs.count_symbol idx2symbol sym candidate = Err (KeyError "idx2symbol").
Proof.
  induction 1 as [c cs Hc|c cs _ IH]; simpl; unfold Jobs.symbol_at.
  - rewrite Hc. reflexivity.
  - destruct (idx2symbol !! c); [|reflexivity]. simpl. rewrite IH. reflexivity.
Qed.

End RepairErrors.

(** X20.  When the candidate has at least as many ")" as "(" tokens, the
    repair returns its prefix without the last (closes - opens) tokens. *)
Theorem repair_keeps_prefix
    (test_data_loader : DataLoader) (idx2symbol : gmap Z string) (candidate : list Z) :
  in_vocab idx2symbol candidate ->
  num_tokens idx2symbol "(" candidate <= num_tokens idx2symbol ")" candidate ->
  Jobs.repair test_data_loader idx2symbol candidate
  = Ok (take (length candidate
              - (num_tokens idx2symbol ")" candidate - num_tokens idx2symbol "(" candidate))
          candidate).
Proof.
  intros Hvoc Hle. unfold Jobs.repair.
  set (opens := num_tokens idx2symbol "(" candidate) in *.
  set (closes := num_tokens idx2symbol ")" candidate) in *.
  destruct (Nat.eq_dec opens closes) as [Heq|Hne].
  - rewrite (repair_with_balanced idx2symbol candidate Hvoc _ Heq).
    replace (closes - opens) with 0 by lia. rewrite Nat.sub_0_r, firstn_all. reflexivity.
  - unfold Jobs.repair_with.
    rewrite !count_symbol_num_tokens by exact Hvoc. cbn [rbind]. fold opens closes.
    destruct (Z.ltb_spec 0 (Z.of_nat opens - Z.of_nat closes)); [lia|].
    destruct (Z.ltb_spec (Z.of_nat opens - Z.of_nat closes) 0); [|lia].
    pose proof (num_tokens_le idx2symbol ")" candidate) as Hlen. fold closes in Hlen.
    replace (Z.of_nat opens - Z.of_nat closes)%Z with (- Z.of_nat (closes - opens))%Z by lia.
    rewrite slice_to_neg by lia. reflexivity.
Qed.

Lemma repair_keeps_prefix_witness :
  Jobs.repair test_loader bracket_vocab [0; 1; 1; 1]%Z
  = Ok (take (length [0; 1; 1; 1]%Z
              - (num_tokens bracket_vocab ")" [0; 1; 1; 1]%Z
                 - num_tokens bracket_vocab "(" [0; 1; 1; 1]%Z))
          [0; 1; 1; 1]%Z).
Proof.
  apply (repair_keeps_prefix test_loader bracket_vocab [0; 1; 1; 1]%Z).
  - repeat constructor; vm_compute; eauto.
  - vm_compute. lia.
Defined.

(** X21.  A candidate token that is no key of [eval_vocab.idx2symbol] makes
    the repair raise KeyError. *)
Theorem repair_unknown_token_raises
    (test_data_loader : DataLoader) (idx2symbol : gmap Z string) (candidate : list Z) :
  Exists (fun c => idx2symbol !! c = None) candidate ->
  Jobs.repair test_data_loader idx2symbol candidate = Err (KeyError "idx2symbol").
Proof.
  intros Hmiss. unfold Jobs.repair, Jobs.repair_with.
  rewrite count_symbol_missing by exact Hmiss. reflexivity.
Qed.

Lemma repair_unknown_token_raises_witness :
  Jobs.repair test_loader bracket_vocab [0; 9]%Z = Err (KeyError "idx2symbol").
Proof.
  apply (repair_unknown_token_raises test_loader bracket_vocab [0; 9]%Z).
  right. left. reflexivity.
Defined.

(** X22.  Every candidate with more "(" than ")" tokens makes the repair
    raise AttributeError (the lookup through the data loader). *)
Theorem repair_unmatched_opens_raises
    (test_data_loader : DataLoader) (idx2symbol : gmap Z string) (candidate : list Z) :
  in_vocab idx2symbol candidate ->
  num_tokens idx2symbol ")" candidate < num_tokens idx2symbol "(" candidate ->
  Jobs.repair test_data_loader idx2symbol candidate = Err (AttributeError "tgt_vocab").
Proof.
  intros Hvoc Hlt. unfold Jobs.repair.
  apply (repair_with_raises idx2symbol candidate Hvoc _ _
           (num_tokens idx2symbol "(" candidate - num_tokens idx2symbol ")" candidate));
    [lia|lia|reflexivity].
Qed.

Lemma repair_unmatched_opens_raises_witness :
  Jobs.repair test_loader bracket_vocab [0; 2; 0; 1]%Z = Err (AttributeError "tgt_vocab").
Proof.
  apply (repair_unmatched_opens_raises test_loader bracket_vocab [0; 2; 0; 1]%Z).
  - repeat constructor; vm_compute; eauto.
  - vm_compute. lia.
Defined.

Section UpdateValues.

Lemma update_values_nil dict_to : Args.update_values (PDict []) dict_to = Ok dict_to.
Proof. reflexivity. Qed.

Lemma update_values_cons key value rest dict_to :
  Args.update_values (PDict ((key, value) :: rest)) dict_to
  = rbind (update_item key value dict_to) (Args.update_values (PDict rest)).
Proof. destruct value; reflexivity. Qed.

Lemma dict_get_set_eq {A} key (v : A) d : Args.dict_get key (Args.dict_set key v d) = Some v.
Proof.
  induction d as [|[k x] d IH]; simpl.
  - rewrite String.eqb_refl. reflexivity.
  - destruct (String.eqb k key) eqn:Hk; simpl; rewrite Hk; [reflexivity|exact IH].
Qed.

Lemma dict_get_set_ne {A} key key' (v : A) d :
  key <> key' -> Args.dict_get key (Args.dict_set key' v d) = Args.dict_get key d.
Proof.
  intros Hne. induction d as [|[k x] d IH]; simpl.
  - destruct (String.eqb_spec key' key); [congruence|reflexivity].
  - destruct (String.eqb_spec k key') as [->|Hk]; simpl.
    + destruct (String.eqb_spec key' key); [congruence|reflexivity].
    + destruct (String.eqb k key); [reflexivity|exact IH].
Qed.

Lemma dict_set_keys {A} key (v : A) d :
  exists extra, map fst (Args.dict_set key v d) = (map fst d ++ extra)%list.
Proof.
  induction d as [|[k x] d [extra IH]]; simpl.
  - exists [key]. reflexivity.
  - destruct (String.eqb k key); simpl.
    + exists []. rewrite app_nil_r. reflexivity.
    + exists extra. rewrite IH. reflexivity.
Qed.

(** One entry turns a dictionary into a dictionary and only touches the
    entry's key. *)
Lemma update_item_dict key value to_items res :
  update_item key value (PDict to_items) = Ok res ->
  exists items extra,
    res = PDict items /\
    map fst items = (map fst to_items ++ extra)%list /\
    (forall k, k <> key -> Args.dict_get k items = Args.dict_get k to_items) /\
    (value = PNone -> items = to_items) /\
    (is_atom value \/ (is_dict value /\ Args.dict_get key to_items = None) ->
     Args.dict_get key items = Some value).
Proof.
  unfold update_item. intros H.
  assert (Hset : forall v,
    exists items extra,
      PDict (Args.dict_set key v to_items) = PDict items /\
      map fst items = (map fst to_items ++ extra)%list /\
      (forall k, k <> key -> Args.dict_get k items = Args.dict_get k to_items) /\
      Args.dict_get key items = Some v).
  { intros v. destruct (dict_set_keys key v to_items) as [extra Hk].
    exists (Args.dict_set key v to_items), extra. split; [reflexivity|].
    split; [exact Hk|]. split; [|apply dict_get_set_eq].
    intros k Hne. apply dict_get_set_ne, Hne. }
  destruct value as [|z|s|sub_from].
  - injection H as <-. exists to_items, []. rewrite app_nil_r.
    split; [reflexivity|]. split; [reflexivity|]. split; [reflexivity|].
    split; [reflexivity|]. intros [[]|[[] _]].
  - injection H as <-. destruct (Hset (PInt z)) as (items & extra & He & Hk & Hne & Hg).
    exists items, extra. split; [exact He|]. split; [exact Hk|]. split; [exact Hne|].
    split; [discriminate|intros _; exact Hg].
  - injection H as <-. destruct (Hset (PStr s)) as (items & extra & He & Hk & Hne & Hg).
    exists items, extra. split; [exact He|]. split; [exact Hk|]. split; [exact Hne|].
    split; [discriminate|intros _; exact Hg].
  - destruct (Args.dict_get key to_items) as [sub|] eqn:Hsub.
    + destruct (Args.update_values (PDict sub_from) sub) as [sub'|]; cbn [rbind] in H;
        [|discriminate].
      injection H as <-. destruct (Hset sub') as (items & extra & He & Hk & Hne & Hg).
      exists items, extra. split; [exact He|]. split; [exact Hk|]. split; [exact Hne|].
      split; [discriminate|]. intros [[]|[_ Hnone]]. discriminate.
    + injection H as <-.
      destruct (Hset (PDict sub_from)) as (items & extra & He & Hk & Hne & Hg).
      exists items, extra. split; [exact He|]. split; [exact Hk|]. split; [exact Hne|].
      split; [discriminate|intros _; exact Hg].
Qed.

Lemma update_values_dict from : forall to_items res,
  Args.update_values (PDict from) (PDict to_items) = Ok res ->
  exists items extra,
    res = PDict items /\
    map fst items = (map fst to_items ++ extra)%list /\
    (forall k, (forall v, In (k, v) from -> v = PNone) ->
               Args.dict_get k items = Args.dict_get k to_items).
Proof.
  induction from as [|[key value] rest IH]; intros to_items res H.
  - rewrite update_values_nil in H. injection H as <-.
    exists to_items, []. rewrite app_nil_r. auto.
  - rewrite update_values_cons in H.
    destruct (update_item key value (PDict to_items)) as [mid|] eqn:Hitem;
      cbn [rbind] in H; [|discriminate].
    apply update_item_dict in Hitem
      as (items1 & extra1 & -> & Hk1 & Hne1 & Hnone1 & _).
    apply IH in H as (items & extra & -> & Hk & Hsame).
    exists items, (extra1 ++ extra)%list. split; [reflexivity|].
    split; [rewrite Hk, Hk1, app_assoc; reflexivity|].
    intros k Hall. rewrite Hsame by (intros v Hv; apply Hall; right; exact Hv).
    destruct (String.eqb_spec k key) as [->|Hne]; [|apply Hne1, Hne].
    rewrite Hnone1; [reflexivity|]. apply Hall. left. reflexivity.
Qed.


Lemma update_values_all_none from : forall dict_to,
  Forall (fun kv => snd kv = PNone) from ->
  Args.update_values (PDict from) dict_to = Ok dict_to.
Proof.
  induction from as [|[k v] rest IH]; intros dict_to Hall; [reflexivity|].
  inversion_clear Hall as [|? ? Hv Hrest]. simpl in Hv. subst v.
  rewrite update_values_cons. cbn [update_item rbind]. apply IH, Hrest.
Qed.

Lemma update_values_not_dict from : forall dict_to,
  ~ is_dict dict_to ->
  Exists (fun kv => snd kv <> PNone) from ->
  raises (Args.update_values (PDict from) dict_to).
Proof.
  induction from as [|[k v] rest IH]; intros dict_to Hnd Hex;
    [inversion Hex|].
  rewrite update_values_cons.
  destruct v as [|z|s|sub].
  - cbn [update_item rbind]. apply IH; [exact Hnd|].
    inversion_clear Hex as [? ? Hv|? ? Hrest]; [simpl in Hv; congruence|exact Hrest].
  - destruct dict_to; simpl in *; try exact I. tauto.
  - destruct dict_to; simpl in *; try exact I. tauto.
  - destruct dict_to; simpl in *; try exact I. tauto.
Qed.

End UpdateValues.

(** X23.  [update_values] never removes or reorders the keys of [dict_to]:
    the keys of the result are those of [dict_to], in the same order,
    followed by new ones. *)
Theorem update_values_keeps_keys (dict_from dict_to : list (string * pyval)) (res : pyval) :
  Args.update_values (PDict dict_from) (PDict dict_to) = Ok res ->
  exists items extra,
    res = PDict items /\ map fst items = (map fst dict_to ++ extra)%list.
Proof.
  intros H. apply update_values_dict in H as (items & extra & -> & Hk & _).
  exists items, extra. auto.
Qed.

Lemma update_values_keeps_keys_witness :
  exists items extra,
    PDict [("lr", PInt 1); ("decoder", PDict [("beam", PInt 8); ("copy", PInt 0)]);
           ("seed", PInt 7)] = PDict items /\
    map fst items = (map fst config_defaults ++ extra)%list.
Proof.
  apply (update_values_keeps_keys config_overrides config_defaults).
  reflexivity.
Defined.



Section MergeInPlace.

Lemma deref_insert_eq (h : dicts) l items : InPlace.deref (<[l := items]> h) l = items.
Proof. unfold InPlace.deref. rewrite lookup_insert_eq. reflexivity. Qed.

Lemma deref_insert_ne (h : dicts) l l' items :
  l <> l' -> InPlace.deref (<[l := items]> h) l' = InPlace.deref h l'.
Proof. intros Hne. unfold InPlace.deref. rewrite lookup_insert_ne by exact Hne. reflexivity. Qed.

Lemma deref_agree (h h' : dicts) l : h' !! l = h !! l -> InPlace.deref h' l = InPlace.deref h l.
Proof. intros H. unfold InPlace.deref. rewrite H. reflexivity. Qed.

Lemma in_dict_set {A} key (v : A) d k x :
  In (k, x) (Args.dict_set key v d) -> (k = key /\ x = v) \/ In (k, x) d.
Proof.
  induction d as [|[k0 x0] d IH]; simpl.
  - intros [H|[]]. injection H as <- <-. left. split; reflexivity.
  - destruct (String.eqb_spec k0 key) as [->|Hne]; simpl.
    + intros [H|H]; [injection H as <- <-; left; split; reflexivity|right; right; exact H].
    + intros [H|H]; [right; left; exact H|].
      destruct (IH H) as [?|?]; [left; assumption|right; right; assumption].
Qed.

Lemma lookup_In {A} (l : list A) i x : l !! i = Some x -> In x l.
Proof.
  revert i. induction l as [|a l IH]; intros [|i] H; simpl in *; try discriminate.
  - injection H as ->. left. reflexivity.
  - right. eapply IH, H.
Qed.

Lemma dict_get_in {A} key (x : A) d : Args.dict_get key d = Some x -> In (key, x) d.
Proof.
  induction d as [|[k0 x0] d IH]; simpl; [discriminate|].
  destruct (String.eqb_spec k0 key) as [->|Hne].
  - intros H. injection H as ->. left. reflexivity.
  - intros H. right. apply IH, H.
Qed.

(** Storing a value of a closed set in a dictionary leaves the set closed. *)
Lemma closed_store (h : dicts) (U : gset nat) lt key value :
  closed h U -> within U value ->
  closed (<[lt := Args.dict_set key value (InPlace.deref h lt)]> h) U.
Proof.
  intros Hc Hv l k l' Hl Hin.
  destruct (decide (lt = l)) as [->|Hne].
  - rewrite deref_insert_eq in Hin. apply in_dict_set in Hin as [[_ <-]|Hin].
    + exact Hv.
    + eapply Hc; eassumption.
  - rewrite deref_insert_ne in Hin by exact Hne. eapply Hc; eassumption.
Qed.

Lemma keeps_refl U h : closed h U -> keeps U h h.
Proof. intros Hc. split; [exact Hc|reflexivity]. Qed.

Lemma keeps_trans U h1 h2 h3 : keeps U h1 h2 -> keeps U h2 h3 -> keeps U h1 h3.
Proof.
  intros [_ H12] [Hc H23]. split; [exact Hc|].
  intros l Hl. rewrite H23, H12 by exact Hl. reflexivity.
Qed.

Lemma merge_item_within f U lt key value h h' :
  writes_within f ->
  closed h U -> lt ∈ U -> within U value ->
  InPlace.merge_item f (RDict lt) key value h = Ok h' -> keeps U h h'.
Proof.
  intros Hf Hc Hlt Hv H. unfold InPlace.merge_item in H.
  assert (Hstore : keeps U h (<[lt := Args.dict_set key value (InPlace.deref h lt)]> h)).
  { split; [apply closed_store; assumption|].
    intros l Hl. apply lookup_insert_ne. intros ->. contradiction. }
  destruct value as [|z|s|lv].
  - injection H as <-. apply keeps_refl, Hc.
  - injection H as <-. exact Hstore.
  - injection H as <-. exact Hstore.
  - destruct (Args.dict_get key (InPlace.deref h lt)) as [sub|] eqn:Hsub.
    + eapply Hf; [exact Hc|exact Hv| |exact H].
      destruct sub as [| | |ls]; try exact I.
      eapply Hc; [exact Hlt|]. apply dict_get_in, Hsub.
    + injection H as <-. exact Hstore.
Qed.

Lemma for_items_within f U lf vt size steps : forall pos h h',
  writes_within f ->
  closed h U -> lf ∈ U -> within U vt ->
  InPlace.for_items f lf vt size steps pos h = Ok h' -> keeps U h h'.
Proof.
  induction steps as [|steps IH]; intros pos h h' Hf Hc Hlf Hvt H; simpl in H.
  - destruct (negb _); [discriminate|]. injection H as <-. apply keeps_refl, Hc.
  - destruct (negb _); [discriminate|].
    destruct (InPlace.deref h lf !! pos) as [[key value]|] eqn:Hpos;
      [|injection H as <-; apply keeps_refl, Hc].
    destruct (InPlace.merge_item f vt key value h) as [h1|] eqn:Hitem;
      cbn [rbind] in H; [|discriminate].
    assert (Hval : within U value).
    { destruct value as [| | |lv]; try exact I.
      eapply Hc; [exact Hlf|]. eapply lookup_In, Hpos. }
    assert (H1 : keeps U h h1).
    { destruct vt as [| | |lt].
      - destruct value; simpl in Hitem; try discriminate;
          injection Hitem as <-; apply keeps_refl, Hc.
      - destruct value; simpl in Hitem; try discriminate;
          injection Hitem as <-; apply keeps_refl, Hc.
      - destruct value; simpl in Hitem; try discriminate;
          injection Hitem as <-; apply keeps_refl, Hc.
      - eapply merge_item_within; eassumption. }
    eapply keeps_trans; [exact H1|].
    eapply IH; [exact Hf|apply H1|exact Hlf|exact Hvt|exact H].
Qed.

Lemma update_values_within depth : writes_within (InPlace.update_values depth).
Proof.
  induction depth as [|depth IH]; intros U vf vt h h' Hc Hvf Hvt H; simpl in H;
    [discriminate|].
  destruct vf as [| | |lf]; try discriminate.
  eapply for_items_within; eassumption.
Qed.

Lemma loop_state_keeps U lf lt key h0 h h' :
  lt ∉ U -> loop_state U lf lt key h0 h -> keeps U h h' -> loop_state U lf lt key h0 h'.
Proof.
  intros Hlt (Hc & Hout & Hkey & Hsub) [Hc' Hk].
  assert (Hd : InPlace.deref h' lt = InPlace.deref h lt) by (apply deref_agree, Hk, Hlt).
  split; [exact Hc'|]. split; [|split].
  - intros l Hl Hne. rewrite Hk by exact Hl. apply Hout; assumption.
  - rewrite Hd. exact Hkey.
  - intros k l. rewrite Hd. apply Hsub.
Qed.

Lemma loop_state_store U lf lt key h0 h k value :
  lt ∉ U -> k <> key -> within U value ->
  loop_state U lf lt key h0 h ->
  loop_state U lf lt key h0 (<[lt := Args.dict_set k value (InPlace.deref h lt)]> h).
Proof.
  intros Hlt Hk Hv (Hc & Hout & Hkey & Hsub).
  split; [apply closed_store; assumption|]. split; [|split].
  - intros l Hl Hne. rewrite lookup_insert_ne by congruence. apply Hout; assumption.
  - rewrite deref_insert_eq, dict_get_set_ne by congruence. exact Hkey.
  - intros k' l. rewrite deref_insert_eq.
    destruct (String.eqb_spec k k') as [<-|Hne].
    + rewrite dict_get_set_eq. intros H. injection H as ->. left. exact Hv.
    + rewrite dict_get_set_ne by congruence. apply Hsub.
Qed.

Lemma for_items_loop_state depth U lf lt key h0 size steps : forall pos h h',
  lf ∉ U -> lt ∉ U -> lf <> lt ->
  (forall k l, In (k, RDict l) (InPlace.deref h0 lf) -> l ∈ U) ->
  (forall k lv l, In (k, RDict lv) (InPlace.deref h0 lf) ->
                  Args.dict_get k (InPlace.deref h0 lt) = Some (RDict l) -> l ∈ U) ->
  (forall v, In (key, v) (InPlace.deref h0 lf) -> v = RNone) ->
  loop_state U lf lt key h0 h ->
  InPlace.for_items (InPlace.update_values depth) lf (RDict lt) size steps pos h = Ok h' ->
  loop_state U lf lt key h0 h'.
Proof.
  intros pos h h' Hlf Hlt Hne Hfrom Hto Hnone. revert pos h h'.
  induction steps as [|steps IH]; intros pos h h' Hst H; simpl in H.
  - destruct (negb _); [discriminate|]. injection H as <-. exact Hst.
  - destruct (negb _); [discriminate|].
    destruct (InPlace.deref h lf !! pos) as [[k value]|] eqn:Hpos;
      [|injection H as <-; exact Hst].
    destruct (InPlace.merge_item (InPlace.update_values depth) (RDict lt) k value h)
      as [h1|] eqn:Hitem; cbn [rbind] in H; [|discriminate].
    apply (IH (S pos) h1 h'); [|exact H]. clear IH H.
    assert (Hin : In (k, value) (InPlace.deref h0 lf)).
    { destruct Hst as (_ & Hout & _).
      rewrite <- (deref_agree h0 h lf) by (apply Hout; assumption).
      eapply lookup_In, Hpos. }
    assert (Hval : within U value).
    { destruct value as [| | |lv]; try exact I. eapply Hfrom, Hin. }
    assert (Hk : value <> RNone -> k <> key).
    { intros Hv ->. apply Hv, Hnone, Hin. }
    unfold InPlace.merge_item in Hitem.
    destruct value as [|z|s|lv].
    + injection Hitem as <-. exact Hst.
    + injection Hitem as <-. apply loop_state_store; try assumption. apply Hk. discriminate.
    + injection Hitem as <-. apply loop_state_store; try assumption. apply Hk. discriminate.
    + destruct (Args.dict_get k (InPlace.deref h lt)) as [sub|] eqn:Hsub.
      * eapply loop_state_keeps; [exact Hlt|exact Hst|].
        eapply update_values_within; [apply Hst|exact Hval| |exact Hitem].
        destruct sub as [| | |ls]; try exact I.
        destruct Hst as (_ & _ & _ & Hs).
        destruct (Hs k ls Hsub) as [?|Horig]; [assumption|].
        eapply Hto; eassumption.
      * injection Hitem as <-. apply loop_state_store; try assumption.
        apply Hk. discriminate.
Qed.

End MergeInPlace.

(** X25.  [update_values] in place, on dictionaries that may be shared.
    Let [U] be a closed set of dictionaries that holds the dictionaries
    [dict_from] refers to and those [dict_to] refers to under the keys that
    [dict_from] maps to a dictionary, but neither [dict_to] nor [dict_from]
    themselves.  When the call returns, a key that [dict_from] lacks or maps
    to [None] holds in [dict_to] the atom, or the reference to the
    dictionary, that it held before, and every dictionary outside [U] other
    than [dict_to] is as it was.  (A dictionary of [U] that [dict_to] refers
    to under this key may have changed.) *)
Theorem update_values_none_keeps_default
    (depth : nat) (lf lt : nat) (h h' : dicts) (U : gset nat) (key : string) :
  closed h U ->
  lf ∉ U -> lt ∉ U -> lf <> lt ->
  (forall k l, In (k, RDict l) (InPlace.deref h lf) -> l ∈ U) ->
  (forall k lv l, In (k, RDict lv) (InPlace.deref h lf) ->
                  Args.dict_get k (InPlace.deref h lt) = Some (RDict l) -> l ∈ U) ->
  (forall v, In (key, v) (InPlace.deref h lf) -> v = RNone) ->
  InPlace.update_values depth (RDict lf) (RDict lt) h = Ok h' ->
  Args.dict_get key (InPlace.deref h' lt) = Args.dict_get key (InPlace.deref h lt) /\
  (forall l, l ∉ U -> l <> lt -> h' !! l = h !! l).
Proof.
  intros Hc Hlf Hlt Hne Hfrom Hto Hnone H.
  destruct depth as [|depth]; simpl in H; [discriminate|].
  assert (Hst : loop_state U lf lt key h h).
  { split; [exact Hc|]. split; [reflexivity|]. split; [reflexivity|]. auto. }
  pose proof (for_items_loop_state depth U lf lt key h _ _ 0 h h'
                Hlf Hlt Hne Hfrom Hto Hnone Hst H) as (_ & Hout & Hkey & _).
  split; assumption.
Qed.

Lemma update_values_none_keeps_default_witness :
  exists h',
    InPlace.update_values 3 (RDict 1) (RDict 0) shared_store = Ok h' /\
    Args.dict_get "b" (InPlace.deref h' 0) = Args.dict_get "b" (InPlace.deref shared_store 0) /\
    (forall l, l ∉ ({[2; 3]} : gset nat) -> l <> 0 -> h' !! l = shared_store !! l).
Proof.
  eexists. split; [reflexivity|].
  apply (update_values_none_keeps_default 3 1 0 shared_store _ {[2; 3]} "b").
  - intros l k l' Hl Hin. apply elem_of_union in Hl as [Hl|Hl];
      apply elem_of_singleton in Hl; subst l; vm_compute in Hin;
      intuition discriminate.
  - (set_unfold; lia).
  - (set_unfold; lia).
  - lia.
  - intros k l Hin. vm_compute in Hin.
    destruct Hin as [H|[H|[]]]; [injection H as <- <-|discriminate]. (set_unfold; lia).
  - intros k lv l Hin Hget. vm_compute in Hin.
    destruct Hin as [H|[H|[]]]; [injection H as <- <-|discriminate].
    vm_compute in Hget. injection Hget as <-. (set_unfold; lia).
  - intros v Hin. vm_compute in Hin.
    destruct Hin as [H|[H|[]]]; [discriminate|congruence].
  - reflexivity.
Defined.

(** X26.  On any target, a [dict_from] whose values are all [None] changes
    nothing and raises nothing; on a target that is no dictionary, a
    [dict_from] with a value that is not [None] raises. *)
Theorem update_values_on_non_dict (dict_from : list (string * pyval)) (dict_to : pyval) :
  (Forall (fun kv => snd kv = PNone) dict_from ->
   Args.update_values (PDict dict_from) dict_to = Ok dict_to) /\
  (~ is_dict dict_to -> Exists (fun kv => snd kv <> PNone) dict_from ->
   raises (Args.update_values (PDict dict_from) dict_to)).
Proof.
  split; [apply update_values_all_none|apply update_values_not_dict].
Qed.

Lemma update_values_on_non_dict_witness :
  raises (Args.update_values (PDict [("beam", PNone); ("copy", PInt 1)]) (PStr "greedy")).
Proof.
  apply (proj2 (update_values_on_non_dict [("beam", PNone); ("copy", PInt 1)]
                  (PStr "greedy"))).
  - simpl. tauto.
  - right. left. discriminate.
Defined.

Section Idempotence.













End Idempotence.


